(** * Podcastify: a shallow embedding of the conversion pipeline

    The development follows the layout of the repository:

    - [PyStr]           the Python [str] operations the sources rely on
    - [PdfProcessor]    backend/pdf_processor.py
    - [ContentFilter]   backend/content_filter.py
    - [AudioProcessor]  backend/audio_processor.py
    - [TTSServices]     backend/tts_services.py
    - [App]             backend/app.py
    - [ChapterMarkers]  backend/audio_processor.py, the chapter markers
    - [TTSManager]      backend/tts_services.py, the service manager
    - [Routes]          backend/app.py, the routes
    - [Regex], [Cleaning]  the cleaning functions of pdf_processor.py
                        and content_filter.py
    - [Worker]          backend/app.py, the synthesis call of the worker

    Text is a list of characters with code points below 256; Python
    [int] is [Z]; Python [float] quantities (progress fractions, scores,
    pause lengths) are idealised as rationals [Q]. *)

From Stdlib Require Import ZArith QArith Qround List Ascii String Bool Lia
  Sorting.Sorted DecimalString.
From stdpp Require Import base gmap strings.
Import ListNotations.

#[local] Open Scope Z_scope.
#[local] Open Scope list_scope.

(* ===================================================================== *)
(** ** Python strings *)
(* ===================================================================== *)

Module PyStr.

(** A Python [str], restricted to code points 0..255. *)
Definition str : Type := list ascii.

(** String literals of the sources. *)
Definition lit (s : string) : str := list_ascii_of_string s.

(** [len(s)] *)
Definition len (s : str) : Z := Z.of_nat (length s).

(** Truth value of a string: [if s:] holds for non-empty [s]. *)
Definition truthy (s : str) : bool :=
  match s with [] => false | _ :: _ => true end.

Definition code (c : ascii) : nat := nat_of_ascii c.

(** [c.isspace()], which is also the class [\s] of [re] on [str]
    patterns: TAB..CR, FS..US, space, NEL and NBSP. *)
Definition isspace (c : ascii) : bool :=
  let n := code c in
  ((9 <=? n) && (n <=? 13) || (28 <=? n) && (n <=? 32)
   || (n =? 133) || (n =? 160))%nat.

(** The class [\d] of [re]: decimal digits. *)
Definition re_digit (c : ascii) : bool :=
  let n := code c in ((48 <=? n) && (n <=? 57))%nat.

(** [c.isdigit()]: decimal digits and the superscript digits. *)
Definition isdigit_char (c : ascii) : bool :=
  let n := code c in
  (re_digit c || (n =? 178) || (n =? 179) || (n =? 185))%nat.

(** [s.isdigit()] *)
Definition isdigit (s : str) : bool := truthy s && forallb isdigit_char s.

(** [c.lower()] on one character; the code points 181, 223 and 255
    have no lower-case partner below 256 and stay. *)
Definition lower_char (c : ascii) : ascii :=
  let n := code c in
  if ((65 <=? n) && (n <=? 90)
      || (192 <=? n) && (n <=? 222) && negb (n =? 215))%nat
  then ascii_of_nat (n + 32) else c.

(** [s.lower()] *)
Definition lower (s : str) : str := map lower_char s.

(** [s.lstrip()], [s.rstrip()], [s.strip()] *)
Fixpoint lstrip (s : str) : str :=
  match s with
  | [] => []
  | c :: s' => if isspace c then lstrip s' else s
  end.

Fixpoint rstrip (s : str) : str :=
  match s with
  | [] => []
  | c :: s' =>
      match rstrip s' with
      | [] => if isspace c then [] else [c]
      | r => c :: r
      end
  end.

Definition strip (s : str) : str := rstrip (lstrip s).

(** The maximal runs of characters outside the class [sep], in order.
    [fields_aux] returns the run that starts the string (possibly
    empty) and the runs after it. *)
Definition cons_run (w : str) (ws : list str) : list str :=
  match w with [] => ws | _ :: _ => w :: ws end.

Fixpoint fields_aux (sep : ascii -> bool) (s : str) : str * list str :=
  match s with
  | [] => ([], [])
  | c :: s' =>
      let '(w, ws) := fields_aux sep s' in
      if sep c then ([], cons_run w ws) else (c :: w, ws)
  end.

Definition fields (sep : ascii -> bool) (s : str) : list str :=
  let '(w, ws) := fields_aux sep s in cons_run w ws.

(** [s.split()]: the whitespace-delimited words of [s]. *)
Definition split (s : str) : list str := fields isspace s.

(** [s.split(c)] for a one-character separator: every piece is kept,
    also the empty ones. *)
Fixpoint split_on (sep : ascii) (s : str) : list str :=
  match s with
  | [] => [[]]
  | c :: s' =>
      if Ascii.eqb c sep then [] :: split_on sep s'
      else match split_on sep s' with
           | p :: ps => (c :: p) :: ps
           | [] => [[c]]
           end
  end.

(** [sep.join(parts)] *)
Fixpoint join (sep : str) (parts : list str) : str :=
  match parts with
  | [] => []
  | [p] => p
  | p :: ps => p ++ sep ++ join sep ps
  end.

(** [a == b] *)
Fixpoint str_eqb (a b : str) : bool :=
  match a, b with
  | [], [] => true
  | x :: a', y :: b' => Ascii.eqb x y && str_eqb a' b'
  | _, _ => false
  end.

(** [needle in s] *)
Fixpoint starts_with (p s : str) : bool :=
  match p, s with
  | [], _ => true
  | _ :: _, [] => false
  | a :: p', b :: s' => Ascii.eqb a b && starts_with p' s'
  end.

Fixpoint contains (needle s : str) : bool :=
  starts_with needle s
  || match s with [] => false | _ :: s' => contains needle s' end.

(** [str(n)] for an [int] *)
Definition str_of_Z (n : Z) : str := lit (NilZero.string_of_int (Z.to_int n)).

(** The class [[.!?]] of the sentence splitter. *)
Definition is_terminator (c : ascii) : bool :=
  (Ascii.eqb c "." || Ascii.eqb c "!" || Ascii.eqb c "?")%char.

(** [re.split(r'[.!?]+', s)]: the pieces between maximal runs of
    terminators; a run at either end of [s] leaves an empty piece
    there.  [after_term] tells that the character before [s] belongs
    to a run already split on. *)
Fixpoint re_split_go (after_term : bool) (s : str) : list str :=
  match s with
  | [] => [[]]
  | c :: s' =>
      if is_terminator c then
        if after_term then re_split_go true s'
        else [] :: re_split_go true s'
      else match re_split_go false s' with
           | p :: ps => (c :: p) :: ps
           | [] => [[c]]
           end
  end.

Definition re_split_sentences (s : str) : list str := re_split_go false s.

(** [len(s.split())] and [len(l)] *)
Definition len_words (s : str) : Z := Z.of_nat (length (split s)).
Definition len_list {A} (l : list A) : Z := Z.of_nat (length l).

(** [' '.join(s.split())]: whitespace normalisation. *)
Definition normalize_ws (s : str) : str := join (lit " ") (split s).

End PyStr.

(* ===================================================================== *)
(** ** backend/pdf_processor.py *)
(* ===================================================================== *)

Module PdfProcessor.
Import PyStr.

(** *** chunk_text_for_tts *)

(** The loop state: the chunks closed so far and [current_chunk]. *)
Definition chunk_state : Type := list str * str.

(** One round of the inner loop [for word in words]. *)
Definition add_word (max_chunk_size : Z) (st : chunk_state) (word : str)
  : chunk_state :=
  let '(chunks, current_chunk) := st in
  if len current_chunk + len word >? max_chunk_size then
    if truthy current_chunk
    then (chunks ++ [strip current_chunk], word)
    else (chunks ++ [word], current_chunk)
  else
    (chunks,
     current_chunk
       ++ (if truthy current_chunk then lit " " ++ word else word)).

(** One round of the outer loop [for sentence in sentences]. *)
Definition add_sentence (max_chunk_size : Z) (st : chunk_state)
    (sentence0 : str) : chunk_state :=
  let sentence := strip sentence0 in
  if negb (truthy sentence) then st
  else
    let '(chunks, current_chunk) := st in
    if len current_chunk + len sentence >? max_chunk_size then
      if truthy current_chunk
      then (chunks ++ [strip current_chunk], sentence)
      else fold_left (add_word max_chunk_size) (split sentence)
             (chunks, current_chunk)
    else
      (chunks,
       current_chunk
         ++ (if truthy current_chunk then lit ". " ++ sentence
             else sentence)).

Definition chunk_text_for_tts (text : str) (max_chunk_size : Z)
  : list str :=
  let sentences := re_split_sentences text in
  let '(chunks, current_chunk) :=
    fold_left (add_sentence max_chunk_size) sentences ([], []) in
  if truthy current_chunk then chunks ++ [strip current_chunk]
  else chunks.

(** *** detect_chapters *)

Record PageContent := {
  page_number : Z;
  text : str;
  word_count : Z;
  has_images : bool;
  font_sizes : list Q
}.

Record BookSection := {
  title : str;
  start_page : Z;
  end_page : Z;
  content : str;
  section_type : str
}.

Definition newline : ascii := ascii_of_nat 10.

(** Case-insensitive match of a literal at the head of [s]
    ([re.IGNORECASE]); the literals of the heading patterns are
    ASCII letters. *)
Fixpoint starts_with_ci (p s : str) : option str :=
  match p, s with
  | [], _ => Some s
  | _ :: _, [] => None
  | a :: p', b :: s' =>
      if Ascii.eqb (lower_char a) (lower_char b) then starts_with_ci p' s'
      else None
  end.

(** [\s+] and [\d+] at the head of [s]: the rest after the longest
    run, [None] when the run is empty. *)
Fixpoint skip_while (cls : ascii -> bool) (s : str) : str :=
  match s with
  | c :: s' => if cls c then skip_while cls s' else s
  | [] => []
  end.

Definition plus (cls : ascii -> bool) (s : str) : option str :=
  match s with
  | c :: s' => if cls c then Some (skip_while cls s') else None
  | [] => None
  end.

Definition head_in (cls : ascii -> bool) (s : str) : bool :=
  match s with c :: _ => cls c | [] => false end.

(** [[IVX]] and [[A-Z]] under [re.IGNORECASE]. *)
Definition is_roman (c : ascii) : bool :=
  let l := lower_char c in
  (Ascii.eqb l "i" || Ascii.eqb l "v" || Ascii.eqb l "x")%char.

Definition is_letter (c : ascii) : bool :=
  let n := code (lower_char c) in ((97 <=? n) && (n <=? 122))%nat.

(** The patterns of [chapter_patterns] matched at the head of [s],
    without the anchor.  Under [re.IGNORECASE] the first two patterns
    are one pattern, and so are the third and fourth. *)
Definition match_chapter (s : str) : bool :=
  match starts_with_ci (lit "chapter") s with
  | Some r => match plus isspace r with
              | Some r' => head_in re_digit r'
              | None => false
              end
  | None => false
  end.

Definition match_part (s : str) : bool :=
  match starts_with_ci (lit "part") s with
  | Some r => match plus isspace r with
              | Some r' => head_in is_roman r'
              | None => false
              end
  | None => false
  end.

Definition match_numbered (s : str) : bool :=
  match plus re_digit s with
  | Some (c :: r) =>
      Ascii.eqb c "."%char
      && match plus isspace r with
         | Some r' => head_in is_letter r'
         | None => false
         end
  | _ => false
  end.

Definition chapter_patterns : list (str -> bool) :=
  [match_chapter; match_chapter; match_part; match_part; match_numbered].

(** [re.search('^...', s, re.MULTILINE)]: the offset of the first line
    start at which [m] matches.  [bol] tells that [s] begins a line and
    [pos] is the offset of [s] in the page text. *)
Fixpoint search_lines (m : str -> bool) (bol : bool) (pos : nat) (s : str)
  : option nat :=
  if bol && m s then Some pos
  else match s with
       | [] => None
       | c :: s' => search_lines m (Ascii.eqb c newline) (S pos) s'
       end.

Definition re_search (m : str -> bool) (s : str) : option nat :=
  search_lines m true 0 s.

(** The loop [for pattern in chapter_patterns] up to its [break]:
    [match.start()] of the first pattern that matches. *)
Fixpoint first_match (patterns : list (str -> bool)) (s : str)
  : option nat :=
  match patterns with
  | [] => None
  | m :: rest =>
      match re_search m s with
      | Some pos => Some pos
      | None => first_match rest s
      end
  end.

Definition heading_match (s : str) : option nat :=
  first_match chapter_patterns s.

(** [_extract_chapter_title]: the loop over [lines[:3]] with its
    [break] once two title lines are collected. *)
Fixpoint title_lines_of (lines : list str) (title_lines : list str)
  : list str :=
  match lines with
  | [] => title_lines
  | line0 :: rest =>
      let line := strip line0 in
      let title_lines :=
        if truthy line && negb (isdigit line)
        then title_lines ++ [line] else title_lines in
      if (2 <=? length title_lines)%nat then title_lines
      else title_lines_of rest title_lines
  end.

Definition extract_chapter_title (s : str) (start_pos : nat) : str :=
  let lines := split_on newline (skipn start_pos s) in
  let title_lines := title_lines_of (firstn 3 lines) [] in
  match title_lines with
  | [] => lit "Untitled Chapter"
  | _ :: _ => join (lit " ") title_lines
  end.

(** The loop state of [detect_chapters]: [sections] and
    [current_section]. *)
Definition detect_state : Type := list BookSection * option BookSection.

Definition set_end_page (s : BookSection) (p : Z) : BookSection :=
  {| title := title s; start_page := start_page s; end_page := p;
     content := content s; section_type := section_type s |}.

Definition add_content (s : BookSection) (t : str) : BookSection :=
  {| title := title s; start_page := start_page s;
     end_page := end_page s; content := content s ++ t;
     section_type := section_type s |}.

(** One round of [for page in pages]. *)
Definition detect_step (st : detect_state) (page : PageContent)
  : detect_state :=
  let '(sections, current_section) := st in
  let '(sections, current_section) :=
    match heading_match (text page) with
    | Some start =>
        (match current_section with
         | Some cur => sections ++ [set_end_page cur (page_number page - 1)]
         | None => sections
         end,
         Some {| title := extract_chapter_title (text page) start;
                 start_page := page_number page;
                 end_page := page_number page;
                 content := [];
                 section_type := lit "chapter" |})
    | None => (sections, current_section)
    end in
  (sections,
   option_map (fun cur => add_content cur (text page ++ [newline]))
     current_section).

(** [pages[-1].page_number]; the source evaluates it only when a
    section is open, hence on a non-empty list. *)
Definition last_page_number (pages : list PageContent) : Z :=
  match rev pages with
  | p :: _ => page_number p
  | [] => 0
  end.

Definition detect_chapters (pages : list PageContent) : list BookSection :=
  let '(sections, current_section) :=
    fold_left detect_step pages ([], None) in
  match current_section with
  | Some cur => sections ++ [set_end_page cur (last_page_number pages)]
  | None => sections
  end.

End PdfProcessor.

(* ===================================================================== *)
(** ** backend/content_filter.py *)
(* ===================================================================== *)

Module ContentFilter.
Import PyStr PdfProcessor.

Record FilterResult := {
  should_skip : bool;
  reason : str;
  confidence : Q
}.

Definition copyright_keywords : list str :=
  map lit ["copyright"; "published"; "isbn"; "edition"; "printing";
           "publisher"; "all rights reserved";
           "no part of this publication"; "library of congress";
           "cataloging-in-publication"; "printed in";
           "first published"]%string.

Definition acknowledgment_keywords : list str :=
  map lit ["acknowledgment"; "acknowledgement"; "thanks to";
           "grateful to"; "dedication"; "dedicated to"; "in memory of";
           "special thanks"; "would like to thank"; "gratitude";
           "appreciation"]%string.

Definition index_keywords : list str :=
  map lit ["index"; "bibliography"; "references"; "works cited";
           "further reading"; "suggested reading"; "notes"; "endnotes";
           "footnotes"]%string.

Definition promotional_keywords : list str :=
  map lit ["praise for"; "reviews"; "also by"; "about the author";
           "other books"; "from the reviews"; "acclaim for";
           "what readers are saying"; "testimonials";
           "endorsements"]%string.

Definition front_indicators : list str :=
  map lit ["copyright"; "published"; "isbn"; "edition"]%string.

(** The [config] dictionary, read with [config.get(key, True)]. *)
Definition config_get (config : gmap string bool) (key : string) : bool :=
  default true (config !! key).

Definition Qmin (a b : Q) : Q := if Qle_bool a b then a else b.
Definition Qgtb (a b : Q) : bool := negb (Qle_bool a b).

(** The regular-expression engine is taken as given:
    [count_matches keyword text] is
    [len(re.findall(r'\b' + re.escape(keyword) + r'\b', text))], and
    [toc_line line] tells whether one of the four patterns of
    [_calculate_toc_score] is found in [line]. *)
Section Scoring.
Variable count_matches : str -> str -> Z.
Variable toc_line : str -> bool.

Definition calculate_keyword_score (txt : str) (keywords : list str)
  : Q :=
  let wc := len_words txt in
  if wc =? 0 then 0%Q
  else
    let matches :=
      fold_left (fun m keyword => m + count_matches keyword txt)
        keywords 0 in
    Qmin (inject_Z matches / (inject_Z wc / 100)) 1.

Definition calculate_toc_score (txt : str) : Q :=
  let lines := split_on newline txt in
  let pattern_matches :=
    fold_left (fun m line => if toc_line (strip line) then m + 1 else m)
      lines 0 in
  if len_list lines >? 0
  then Qmin (inject_Z pattern_matches / inject_Z (len_list lines) * 2) 1
  else 0%Q.

Definition analyze_page_position (page : PageContent) (txt : str) : Q :=
  if page_number page <=? 5 then
    let score := calculate_keyword_score txt front_indicators in
    Qmin (score * 2) 1
  else 0%Q.

Definition analyze_page (page : PageContent) (config : gmap string bool)
  : FilterResult :=
  let txt := lower (text page) in
  if word_count page <? 50 then
    {| should_skip := true; reason := lit "Too few words";
       confidence := 9 # 10 |}
  else
  let copyright_score := calculate_keyword_score txt copyright_keywords in
  if config_get config "SKIP_COPYRIGHT"
     && Qgtb copyright_score (3 # 10) then
    {| should_skip := true; reason := lit "Copyright/publication page";
       confidence := copyright_score |}
  else
  let ack_score := calculate_keyword_score txt acknowledgment_keywords in
  if config_get config "SKIP_ACKNOWLEDGMENTS"
     && Qgtb ack_score (2 # 10) then
    {| should_skip := true; reason := lit "Acknowledgments/dedication";
       confidence := ack_score |}
  else
  let toc_score := calculate_toc_score txt in
  if config_get config "SKIP_TOC" && Qgtb toc_score (4 # 10) then
    {| should_skip := true; reason := lit "Table of contents";
       confidence := toc_score |}
  else
  let index_score := calculate_keyword_score txt index_keywords in
  if config_get config "SKIP_INDEX" && Qgtb index_score (3 # 10) then
    {| should_skip := true; reason := lit "Index/bibliography";
       confidence := index_score |}
  else
  let promo_score := calculate_keyword_score txt promotional_keywords in
  if config_get config "SKIP_BIBLIOGRAPHY"
     && Qgtb promo_score (3 # 10) then
    {| should_skip := true; reason := lit "Promotional content";
       confidence := promo_score |}
  else
  let position_score := analyze_page_position page txt in
  if Qgtb position_score (7 # 10) then
    {| should_skip := true; reason := lit "Likely metadata page";
       confidence := position_score |}
  else
    {| should_skip := false; reason := lit "Main content";
       confidence := 0 |}.

Definition filter_pages (pages : list PageContent)
    (config : gmap string bool) : list PageContent :=
  List.filter (fun page => negb (should_skip (analyze_page page config)))
    pages.

End Scoring.

(** [_should_keep_section] *)
Definition skip_titles (config : gmap string bool) : list str :=
  (if config_get config "SKIP_ACKNOWLEDGMENTS"
   then map lit ["acknowledgment"; "dedication"; "thanks"]%string else [])
  ++ (if config_get config "SKIP_TOC"
      then map lit ["contents"; "table of contents"]%string else [])
  ++ (if config_get config "SKIP_INDEX"
      then map lit ["index"; "bibliography"; "references"]%string else []).

Definition should_keep_section (section : BookSection)
    (config : gmap string bool) : bool :=
  let title_lower := lower (title section) in
  if existsb (fun skip_title => contains skip_title title_lower)
       (skip_titles config)
  then false
  else if len_words (content section) <? 100 then false
  else true.

(** [_clean_section_content] is a chain of [re.sub] calls, taken as
    given. *)
Definition filter_sections (clean_section_content : str -> str)
    (sections : list BookSection) (config : gmap string bool)
  : list BookSection :=
  map (fun section =>
         {| title := title section; start_page := start_page section;
            end_page := end_page section;
            content := clean_section_content (content section);
            section_type := section_type section |})
    (List.filter (fun section => should_keep_section section config)
       sections).

End ContentFilter.

(* ===================================================================== *)
(** ** Effects: mutable state and exceptions *)
(* ===================================================================== *)

Module Eff.
Import PyStr.

(** The outcome of a call: a value, or a raised [Exception] given by
    its message [str(e)]. *)
Inductive result (A : Type) : Type :=
| Ok (a : A)
| Raise (msg : str).
Arguments Ok {A} a.
Arguments Raise {A} msg.

(** A computation over a store [S]; the store survives a raise, as
    the objects a Python function mutated before raising do. *)
Definition M (S A : Type) : Type := S -> result A * S.

Definition ret {S A} (a : A) : M S A := fun s => (Ok a, s).

Definition bind {S A B} (m : M S A) (k : A -> M S B) : M S B :=
  fun s =>
    match m s with
    | (Ok a, s') => k a s'
    | (Raise e, s') => (Raise e, s')
    end.

Definition raise {S A} (msg : str) : M S A := fun s => (Raise msg, s).

(** [try: m  except Exception as e: ...], with the handler applied
    by the caller to the [result]. *)
Definition try {S A} (m : M S A) : M S (result A) :=
  fun s => let '(r, s') := m s in (Ok r, s').

Definition get {S} : M S S := fun s => (Ok s, s).
Definition modify {S} (f : S -> S) : M S unit := fun s => (Ok tt, f s).

Definition lift {S A} (r : result A) : M S A := fun s => (r, s).

End Eff.

Declare Scope eff_scope.
Delimit Scope eff_scope with eff.
Notation "x <- c1 ;; c2" := (Eff.bind c1 (fun x => c2))
  (at level 100, c1 at next level, right associativity) : eff_scope.
Notation "c1 ;;; c2" := (Eff.bind c1 (fun _ => c2))
  (at level 100, right associativity) : eff_scope.

(* ===================================================================== *)
(** ** backend/audio_processor.py *)
(* ===================================================================== *)

Module AudioProcessor.
Import PyStr Eff.
#[local] Open Scope eff_scope.

Definition bytes : Type := list Byte.byte.

Record AudioChunk := {
  audio_data : bytes;
  chunk_text : str;
  chapter : option str;
  start_time : option Q;
  duration : option Q
}.

(** A [pydub.AudioSegment], kept as the sequence of what was appended
    to it: decoded payloads and stretches of silence (milliseconds). *)
Inductive Piece : Type :=
| Clip (data : bytes)
| Silence (ms : Z).

Definition AudioSegment : Type := list Piece.

(** [AudioSegment.empty()], [AudioSegment.silent(duration=ms)] *)
Definition empty : AudioSegment := [].
Definition silent (ms : Z) : AudioSegment := [Silence ms].

(** [int(x)] on a float: truncation towards zero. *)
Definition int_of_Q (x : Q) : Z := Z.quot (Qnum x) (Z.pos (Qden x)).

(** Truth value of an [Optional[str]]. *)
Definition truthy_opt (o : option str) : bool :=
  match o with Some s => truthy s | None => false end.

(** [a != b] on two labels. *)
Definition opt_neb (a b : option str) : bool :=
  match a, b with
  | Some x, Some y => negb (str_eqb x y)
  | None, None => false
  | _, _ => true
  end.

Section Combine.
Context {S : Type}.

(** [mp3_ok data] tells whether [AudioSegment.from_file] decodes
    [data]; otherwise it raises. *)
Variable mp3_ok : bytes -> bool.

Definition from_file (data : bytes) : M S AudioSegment :=
  if mp3_ok data then ret [Clip data]
  else raise (lit "Decoding failed").

Definition call_back (progress_callback : option (str -> Q -> M S unit))
    (msg : str) (prog : Q) : M S unit :=
  match progress_callback with
  | Some cb => cb msg prog
  | None => ret tt
  end.

(** The loop [for i, chunk in enumerate(chunks)]; [rest] is
    [chunks[i:]], so that [chunks[i + 1]] is the head of what
    follows [chunk], and [i < len(chunks) - 1] says there is one. *)
Fixpoint combine_loop (total_chunks : Z) (chapter_pause_duration : Q)
    (progress_callback : option (str -> Q -> M S unit))
    (i : Z) (rest : list AudioChunk) (combined_audio : AudioSegment)
  : M S AudioSegment :=
  match rest with
  | [] => ret combined_audio
  | chunk :: rest' =>
      call_back progress_callback
        (lit "Processing chunk " ++ str_of_Z (i + 1) ++ lit "/"
           ++ str_of_Z total_chunks)
        (inject_Z i / inject_Z total_chunks * (8 # 10)) ;;;
      audio_segment <- from_file (audio_data chunk) ;;
      let combined_audio := combined_audio ++ audio_segment in
      let combined_audio :=
        match rest' with
        | next :: _ =>
            if truthy_opt (chapter chunk)
               && truthy_opt (chapter next)
               && opt_neb (chapter chunk) (chapter next)
            then combined_audio
                   ++ silent (int_of_Q (chapter_pause_duration * 1000))
            else combined_audio
        | [] => combined_audio
        end in
      combine_loop total_chunks chapter_pause_duration
        progress_callback (i + 1) rest' combined_audio
  end.

Definition combine_audio_chunks (chunks : list AudioChunk)
    (chapter_pause_duration : Q)
    (progress_callback : option (str -> Q -> M S unit))
  : M S AudioSegment :=
  combined_audio <-
    combine_loop (len_list chunks) chapter_pause_duration
      progress_callback 0 chunks empty ;;
  call_back progress_callback (lit "Audio combination complete")
    (8 # 10) ;;;
  ret combined_audio.

(** [export_mp3]: [export_error] is the message of the exception
    [audio.export] raises, if it does; [_add_detailed_metadata]
    swallows its own exceptions. *)
Definition export_mp3 (export_error : option str) (output_path : str)
    (progress_callback : option (str -> Q -> M S unit)) : M S str :=
  call_back progress_callback (lit "Exporting MP3...") (8 # 10) ;;;
  match export_error with Some e => raise e | None => ret tt end ;;;
  call_back progress_callback (lit "Adding detailed metadata...")
    (9 # 10) ;;;
  call_back progress_callback (lit "Export complete") 1 ;;;
  ret output_path.

End Combine.

(** Length of an assembled segment in milliseconds, from the lengths
    [clip_ms] of the decoded payloads; a silence of negative length
    is empty. *)
Definition piece_ms (clip_ms : bytes -> Z) (p : Piece) : Z :=
  match p with
  | Clip data => clip_ms data
  | Silence ms => Z.max 0 ms
  end.

Definition duration_ms (clip_ms : bytes -> Z) (a : AudioSegment) : Z :=
  fold_right (fun p acc => piece_ms clip_ms p + acc) 0 a.

End AudioProcessor.

(* ===================================================================== *)
(** ** backend/tts_services.py *)
(* ===================================================================== *)

Module TTSServices.
Import PyStr Eff AudioProcessor.
#[local] Open Scope eff_scope.

Record TTSResponse := {
  audio_data : bytes;
  format : str;
  duration : option Q;
  error : option str
}.

(** A service object together with the wall clock it reads
    ([time.time()], in seconds) and the instants at which it issued a
    request to the remote API. *)
Record Service := {
  requests_per_minute : Z;
  request_times : list Q;
  clock : Q;
  api_requests : list Q
}.

Definition OpenAITTSService (now : Q) : Service :=
  {| requests_per_minute := 50; request_times := []; clock := now;
     api_requests := [] |}.

Definition GoogleTTSService (now : Q) : Service :=
  {| requests_per_minute := 100; request_times := []; clock := now;
     api_requests := [] |}.

Definition Qltb (a b : Q) : bool := negb (Qle_bool b a).

Definition set_request_times (l : list Q) (s : Service) : Service :=
  {| requests_per_minute := requests_per_minute s; request_times := l;
     clock := clock s; api_requests := api_requests s |}.

(** [await asyncio.sleep(d)]: the clock moves on by [d]. *)
Definition sleep (d : Q) : M Service unit :=
  modify (fun s =>
    {| requests_per_minute := requests_per_minute s;
       request_times := request_times s;
       clock := clock s + d; api_requests := api_requests s |}).

(** [_wait_for_rate_limit], the same code in both services. *)
Definition wait_for_rate_limit : M Service unit :=
  s <- get ;;
  let now := clock s in
  let times := List.filter (fun t => Qltb (now - t) 60) (request_times s) in
  modify (set_request_times times) ;;;
  (if len_list times >=? requests_per_minute s then
     match times with
     | oldest :: _ =>
         let sleep_time := (60 - (now - oldest))%Q in
         if Qltb 0 sleep_time then sleep sleep_time else ret tt
     | [] => raise (lit "list index out of range")
     end
   else ret tt) ;;;
  modify (fun s => set_request_times (request_times s ++ [now]) s).

(** The request sent to the remote API once the limiter lets the
    caller through; [api] is what the remote call yields. *)
Definition send (api : result bytes) : M Service bytes :=
  modify (fun s =>
    {| requests_per_minute := requests_per_minute s;
       request_times := request_times s;
       clock := clock s; api_requests := api_requests s ++ [clock s] |}) ;;;
  lift api.

(** [synthesize_speech] of a service: every exception becomes a
    response with [error] set. *)
Definition synthesize_speech (api : result bytes) : M Service TTSResponse :=
  r <- try (wait_for_rate_limit ;;; send api) ;;
  match r with
  | Ok data =>
      ret {| audio_data := data; format := lit "mp3"; duration := None;
             error := None |}
  | Raise e =>
      ret {| audio_data := []; format := lit "mp3"; duration := None;
             error := Some e |}
  end.

(** A caller that issues one synthesis call after another; before
    each call [pause] seconds pass (the time the previous remote call
    took, and whatever the caller did in between). *)
Fixpoint serve (pauses : list Q) (api : result bytes) (s : Service)
  : Service :=
  match pauses with
  | [] => s
  | pause :: rest =>
      let '(_, s') := (sleep pause ;;; synthesize_speech api) s in
      serve rest api s'
  end.

(** The number of API requests issued in the window [[t, t + 60)]. *)
Definition requests_in_window (s : Service) (t : Q) : Z :=
  len_list
    (List.filter (fun r => Qle_bool t r && Qltb r (t + 60))
       (api_requests s)).

End TTSServices.

(* ===================================================================== *)
(** ** config/config.py and backend/app.py *)
(* ===================================================================== *)

Module App.
Import PyStr Eff PdfProcessor ContentFilter AudioProcessor.
#[local] Open Scope eff_scope.

(** [app.config], loaded from [Config]. *)
Record AppConfig := {
  flags : gmap string bool;
  OUTPUT_FOLDER : str;
  DEFAULT_TTS_SERVICE : str;
  AUDIO_BITRATE : str;
  CHAPTER_PAUSE_DURATION : Q;
  MAX_CHUNK_SIZE : Z
}.

Definition Config : AppConfig :=
  {| flags :=
       list_to_map
         [("SKIP_TOC", true); ("SKIP_ACKNOWLEDGMENTS", true);
          ("SKIP_COPYRIGHT", true); ("SKIP_INDEX", true);
          ("SKIP_BIBLIOGRAPHY", true)]%string;
     OUTPUT_FOLDER := lit "output";
     DEFAULT_TTS_SERVICE := lit "openai";
     AUDIO_BITRATE := lit "192k";
     CHAPTER_PAUSE_DURATION := 2;
     MAX_CHUNK_SIZE := 4000 |}.

(** An entry of [active_jobs]. *)
Record Job := {
  job_id : str;
  filename : str;
  upload_path : str;
  status : str;
  progress : Q;
  message : str;
  error : option str;
  output_file : option str
}.

(** What the function does to the outside: socket events, blocking
    sleeps and synthesis calls, in order. *)
Inductive Event : Type :=
| ProgressUpdate (message : str) (progress : Q)
| ConversionComplete (output_filename : str)
| ConversionError (err : str)
| TimeSleep (seconds : Z)
| Synthesize (txt : str).

(** What [tts_manager.synthesize_speech] comes back with. *)
Inductive TTSOutcome : Type :=
| Responds (response : TTSServices.TTSResponse)
| Raises (msg : str).

(** The collaborators of one run.  [cancel_request k] tells that
    [cancel_job] has set the job's status right before the function
    reads it for the [k]-th time; [extract_text tries] is what
    [extract_text_from_pdf] does in the pipeline run that follows
    [tries] failed ones; [tts k] is the outcome of the [k]-th synthesis
    call; [export_error tries] the exception of [audio.export], if
    any. *)
Record Env := {
  cancel_request : nat -> bool;
  extract_text : Z -> result (list PageContent);
  count_matches : str -> str -> Z;
  toc_line : str -> bool;
  clean_section_content : str -> str;
  tts : nat -> TTSOutcome;
  mp3_ok : bytes -> bool;
  export_error : Z -> option str
}.

Record World := {
  job : Job;
  status_reads : nat;
  tts_calls : nat;
  trace : list Event
}.

Definition set_job (f : Job -> Job) : M World unit :=
  modify (fun w =>
    {| job := f (job w); status_reads := status_reads w;
       tts_calls := tts_calls w; trace := trace w |}).

Definition emit (e : Event) : M World unit :=
  modify (fun w =>
    {| job := job w; status_reads := status_reads w;
       tts_calls := tts_calls w; trace := trace w ++ [e] |}).

Definition set_status (st : str) (j : Job) : Job :=
  {| job_id := job_id j; filename := filename j;
     upload_path := upload_path j; status := st; progress := progress j;
     message := message j; error := error j;
     output_file := output_file j |}.

Definition cancelled : str := lit "cancelled".

Section Run.
Variable env : Env.
Variable config : AppConfig.

(** [job.get("status")]: the read sees a cancellation recorded in
    the meantime. *)
Definition read_status : M World str :=
  modify (fun w =>
    {| job := if cancel_request env (status_reads w)
              then set_status cancelled (job w) else job w;
       status_reads := S (status_reads w);
       tts_calls := tts_calls w; trace := trace w |}) ;;;
  w <- get ;;
  ret (status (job w)).

Definition update_progress (msg : str) (prog : Q) : M World unit :=
  set_job (fun j =>
    {| job_id := job_id j; filename := filename j;
       upload_path := upload_path j; status := status j;
       progress := prog; message := msg; error := error j;
       output_file := output_file j |}) ;;;
  emit (ProgressUpdate msg prog) ;;;
  st <- read_status ;;
  if str_eqb st cancelled then raise (lit "Job was cancelled by user")
  else ret tt.

(** The call of [tts_manager.synthesize_speech] through the event
    loop. *)
Definition call_tts (txt : str) : M World TTSServices.TTSResponse :=
  w <- get ;;
  modify (fun w =>
    {| job := job w; status_reads := status_reads w;
       tts_calls := S (tts_calls w);
       trace := trace w ++ [Synthesize txt] |}) ;;;
  match tts env (tts_calls w) with
  | Responds response => ret response
  | Raises e => raise e
  end.

Definition max_tts_retries : Z := 3.
Definition max_retries : Z := 3.

(** The body of the inner [try]. *)
Definition synthesize_once (chunk : str * str) : M World AudioChunk :=
  response <- call_tts (fst chunk) ;;
  if truthy_opt (TTSServices.error response) then
    raise (lit "TTS error: "
             ++ default [] (TTSServices.error response))
  else
    ret {| audio_data := TTSServices.audio_data response;
           chunk_text := fst chunk;
           chapter := Some (snd chunk);
           start_time := None; duration := None |}.

(** [while tts_retry_count < max_tts_retries].  Every round that
    does not leave the loop adds one to [tts_retry_count], so
    [fuel = max_tts_retries - tts_retry_count] rounds are all there
    can be: when [fuel] is used up the loop condition is false. *)
Fixpoint tts_while (fuel : nat) (tts_retry_count : Z)
    (chunk : str * str) (prog : Q) (audio_chunks : list AudioChunk)
  : M World (list AudioChunk) :=
  match fuel with
  | O => ret audio_chunks
  | S fuel' =>
      if tts_retry_count <? max_tts_retries then
        r <- try (synthesize_once chunk) ;;
        match r with
        | Ok audio_chunk => ret (audio_chunks ++ [audio_chunk])
        | Raise tts_error =>
            let tts_retry_count := tts_retry_count + 1 in
            if tts_retry_count >=? max_tts_retries then
              raise (lit "TTS failed after " ++ str_of_Z max_tts_retries
                       ++ lit " retries: " ++ tts_error)
            else
              let wait_time := 2 ^ tts_retry_count in
              update_progress
                (lit "TTS retry " ++ str_of_Z tts_retry_count ++ lit "/"
                   ++ str_of_Z max_tts_retries ++ lit " in "
                   ++ str_of_Z wait_time ++ lit "s...") prog ;;;
              emit (TimeSleep wait_time) ;;;
              tts_while fuel' tts_retry_count chunk prog audio_chunks
        end
      else ret audio_chunks
  end.

(** [for i, chunk in enumerate(all_chunks)]; [n] is
    [len(all_chunks)]. *)
Fixpoint synthesize_all (n : Z) (i : Z) (rest : list (str * str))
    (audio_chunks : list AudioChunk) : M World (list AudioChunk) :=
  match rest with
  | [] => ret audio_chunks
  | chunk :: rest' =>
      let prog := ((5 # 10) + inject_Z i / inject_Z n * (3 # 10))%Q in
      update_progress
        (lit "Synthesizing speech " ++ str_of_Z (i + 1) ++ lit "/"
           ++ str_of_Z n) prog ;;;
      audio_chunks <-
        tts_while (Z.to_nat max_tts_retries) 0 chunk prog audio_chunks ;;
      synthesize_all n (i + 1) rest' audio_chunks
  end.

(** [s.rsplit('.', 1)[0]] *)
Fixpoint drop_through_dot (s : str) : option str :=
  match s with
  | [] => None
  | c :: s' => if Ascii.eqb c "."%char then Some s'
               else drop_through_dot s'
  end.

Definition rsplit_dot_head (s : str) : str :=
  match drop_through_dot (rev s) with
  | Some r => rev r
  | None => s
  end.

(** The stages up to the chunk list. *)
Definition prepare_chunks (retry_count : Z) : M World (list (str * str)) :=
  update_progress (lit "Extracting text from PDF...") (1 # 10) ;;;
  pages <- lift (extract_text env retry_count) ;;
  update_progress (lit "Filtering content...") (2 # 10) ;;;
  let filtered_pages :=
    filter_pages (count_matches env) (toc_line env) pages
      (flags config) in
  update_progress (lit "Detecting chapters...") (3 # 10) ;;;
  let sections := detect_chapters filtered_pages in
  let filtered_sections :=
    filter_sections (clean_section_content env) sections
      (flags config) in
  update_progress (lit "Preparing text for speech synthesis...")
    (4 # 10) ;;;
  ret (flat_map
         (fun section =>
            map (fun chunk_text => (chunk_text, title section))
              (chunk_text_for_tts (content section)
                 (MAX_CHUNK_SIZE config)))
         filtered_sections).

(** The stages from the synthesized chunks on. *)
Definition finish (retry_count : Z) (audio_chunks : list AudioChunk)
  : M World unit :=
  update_progress (lit "Combining audio chunks...") (8 # 10) ;;;
  combined_audio <-
    combine_audio_chunks (mp3_ok env) audio_chunks
      (CHAPTER_PAUSE_DURATION config)
      (Some (fun msg prog =>
               update_progress msg ((8 # 10) + prog * (15 # 100)))) ;;
  update_progress (lit "Exporting final MP3...") (95 # 100) ;;;
  w <- get ;;
  let output_filename :=
    job_id (job w) ++ lit "_" ++ rsplit_dot_head (filename (job w))
      ++ lit ".mp3" in
  let output_path := OUTPUT_FOLDER config ++ lit "/" ++ output_filename in
  export_mp3 (export_error env retry_count) output_path
    (Some (fun msg prog =>
             update_progress msg ((95 # 100) + prog * (5 # 100)))) ;;;
  set_job (fun j =>
    {| job_id := job_id j; filename := filename j;
       upload_path := upload_path j; status := lit "completed";
       progress := 100;
       message := lit "Conversion completed successfully";
       error := error j; output_file := Some output_path |}) ;;;
  emit (ConversionComplete output_filename).

(** The body of the outer [try]: one run of the pipeline.  Both
    ways out of it without an exception are a [return].  The source
    indents the stages from the first progress update to the completion
    update one level less than the rest of the [try] body; they are
    read as part of it, the one reading under which the [except] clause
    has a [try] to belong to. *)
Definition run_pipeline (retry_count : Z) : M World unit :=
  st <- read_status ;;
  if str_eqb st cancelled then ret tt
  else
    all_chunks <- prepare_chunks retry_count ;;
    update_progress
      (lit "Converting " ++ str_of_Z (len_list all_chunks)
         ++ lit " text chunks to speech...") (5 # 10) ;;;
    audio_chunks <-
      synthesize_all (len_list all_chunks) 0 all_chunks [] ;;
    finish retry_count audio_chunks.

(** [while retry_count < max_retries], with [fuel] as in
    [tts_while]. *)
Fixpoint conversion_while (fuel : nat) (retry_count : Z) : M World unit :=
  match fuel with
  | O => ret tt
  | S fuel' =>
      if retry_count <? max_retries then
        r <- try (run_pipeline retry_count) ;;
        match r with
        | Ok _ => ret tt
        | Raise e =>
            let retry_count := retry_count + 1 in
            if retry_count >=? max_retries then
              set_job (fun j =>
                {| job_id := job_id j; filename := filename j;
                   upload_path := upload_path j;
                   status := lit "failed"; progress := progress j;
                   message :=
                     lit "Conversion failed after "
                       ++ str_of_Z max_retries ++ lit " attempts: " ++ e;
                   error := Some e; output_file := output_file j |}) ;;;
              emit (ConversionError e)
            else
              let wait_time := 5 * retry_count in
              let msg :=
                lit "Retrying conversion in " ++ str_of_Z wait_time
                  ++ lit "s (attempt " ++ str_of_Z (retry_count + 1)
                  ++ lit "/" ++ str_of_Z max_retries ++ lit ")" in
              set_job (fun j =>
                {| job_id := job_id j; filename := filename j;
                   upload_path := upload_path j; status := status j;
                   progress := 0; message := msg; error := error j;
                   output_file := output_file j |}) ;;;
              emit (ProgressUpdate msg 0) ;;;
              emit (TimeSleep wait_time) ;;;
              conversion_while fuel' retry_count
        end
      else ret tt
  end.

Definition process_conversion : M World unit :=
  conversion_while (Z.to_nat max_retries) 0.

End Run.

(** A job as [start_conversion] hands it over. *)
Definition new_job (id name path : str) : Job :=
  {| job_id := id; filename := name; upload_path := path;
     status := lit "processing"; progress := 0; message := [];
     error := None; output_file := None |}.

Definition start (j : Job) : World :=
  {| job := j; status_reads := 0; tts_calls := 0; trace := [] |}.

End App.

(* ===================================================================== *)
(** ** Concrete documents, jobs and collaborators *)
(* ===================================================================== *)

Module Scenarios.
Import PyStr Eff PdfProcessor ContentFilter AudioProcessor App.

Fixpoint words (n : nat) : str :=
  match n with
  | O => []
  | S k => lit "word " ++ words k
  end.

(** A document of one page: a chapter heading and 120 words. *)
Definition chapter_page : PageContent :=
  {| page_number := 1;
     text := lit "Chapter 1" ++ [newline] ++ words 120;
     word_count := 122; has_images := false; font_sizes := [] |}.

Definition short_page : PageContent :=
  {| page_number := 2;
     text := lit "Acknowledgments: thanks to everyone";
     word_count := 4; has_images := false; font_sizes := [] |}.

Definition audio_response : TTSOutcome :=
  Responds {| TTSServices.audio_data := [Byte.x01];
              TTSServices.format := lit "mp3";
              TTSServices.duration := None;
              TTSServices.error := None |}.

Definition error_response (e : str) : TTSOutcome :=
  Responds {| TTSServices.audio_data := [];
              TTSServices.format := lit "mp3";
              TTSServices.duration := None;
              TTSServices.error := Some e |}.

(** Collaborators that never fail; nobody cancels. *)
Definition calm : Env :=
  {| cancel_request := fun _ => false;
     extract_text := fun _ => Ok [chapter_page];
     count_matches := fun _ _ => 0;
     toc_line := fun _ => false;
     clean_section_content := fun s => s;
     tts := fun _ => audio_response;
     mp3_ok := fun _ => true;
     export_error := fun _ => None |}.

(** The backend fails twice and answers the third call. *)
Definition third_time_lucky : Env :=
  {| cancel_request := cancel_request calm;
     extract_text := extract_text calm;
     count_matches := count_matches calm;
     toc_line := toc_line calm;
     clean_section_content := clean_section_content calm;
     tts := fun k =>
              match k with
              | 0%nat => error_response (lit "timeout")
              | 1%nat => Raises (lit "connection reset")
              | _ => audio_response
              end;
     mp3_ok := mp3_ok calm;
     export_error := export_error calm |}.

(** The backend never answers. *)
Definition backend_down : Env :=
  {| cancel_request := cancel_request calm;
     extract_text := extract_text calm;
     count_matches := count_matches calm;
     toc_line := toc_line calm;
     clean_section_content := clean_section_content calm;
     tts := fun k => error_response (lit "timeout " ++ str_of_Z (Z.of_nat k));
     mp3_ok := mp3_ok calm;
     export_error := export_error calm |}.

(** The backend is down, so the first two pipeline runs fail after
    three synthesis attempts each (nine reads of the job's status per
    run); in the third run the user cancels while the pages are
    filtered: the cancellation is there when the status is read for the
    21st time, after that stage's progress update. *)
Definition cancel_in_third_run : Env :=
  {| cancel_request := fun k => (k =? 20)%nat;
     extract_text := extract_text calm;
     count_matches := count_matches calm;
     toc_line := toc_line calm;
     clean_section_content := clean_section_content calm;
     tts := tts backend_down;
     mp3_ok := mp3_ok calm;
     export_error := export_error calm |}.

(** The user cancels during the first pipeline run. *)
Definition cancel_in_first_run : Env :=
  {| cancel_request := fun k => (k =? 2)%nat;
     extract_text := extract_text calm;
     count_matches := count_matches calm;
     toc_line := toc_line calm;
     clean_section_content := clean_section_content calm;
     tts := tts calm;
     mp3_ok := mp3_ok calm;
     export_error := export_error calm |}.

Definition book_job : Job :=
  new_job (lit "j1") (lit "book.pdf") (lit "uploads/j1_book.pdf").

Definition final (env : Env) : World :=
  snd (process_conversion env Config (start book_job)).

(** The sleeps of a run, in order. *)
Definition sleeps (t : list Event) : list Z :=
  flat_map (fun e => match e with TimeSleep n => [n] | _ => [] end) t.

(** A client that calls a service [n] times, [pause] seconds apart. *)
Definition steady_client (n : nat) (pause : Q) (s : TTSServices.Service)
  : TTSServices.Service :=
  TTSServices.serve (repeat pause n) (Ok []) s.

End Scenarios.

(* ===================================================================== *)
(** ** backend/audio_processor.py: chapter markers *)
(* ===================================================================== *)

Module ChapterMarkers.
Import PyStr AudioProcessor.

(** An entry of the list [create_chapter_markers] returns. *)
Record Marker := {
  marker_title : str;
  marker_start : Q;
  marker_end : Q
}.

(** The seconds a chunk adds to [current_time]: its [duration] if
    that is set and not zero, else an estimate of 150 words per
    minute. *)
Definition chunk_seconds (chunk : AudioChunk) : Q :=
  let estimated_duration :=
    (inject_Z (len_words (chunk_text chunk)) / 150 * 60)%Q in
  match duration chunk with
  | Some d => if Qeq_bool d 0 then estimated_duration else d
  | None => estimated_duration
  end.

(** The loop state: [chapters], [current_time], [current_chapter]
    and [chapter_start]. *)
Record marker_state := {
  chapters : list Marker;
  current_time : Q;
  current_chapter : option str;
  chapter_start : Q
}.

Definition marker_step (st : marker_state) (chunk : AudioChunk)
  : marker_state :=
  let st1 :=
    if truthy_opt (chapter chunk)
       && opt_neb (chapter chunk) (current_chapter st)
    then
      {| chapters :=
           match current_chapter st with
           | Some title =>
               if truthy title
               then chapters st
                      ++ [{| marker_title := title;
                             marker_start := chapter_start st;
                             marker_end := current_time st |}]
               else chapters st
           | None => chapters st
           end;
         current_time := current_time st;
         current_chapter := chapter chunk;
         chapter_start := current_time st |}
    else st in
  {| chapters := chapters st1;
     current_time := (current_time st1 + chunk_seconds chunk)%Q;
     current_chapter := current_chapter st1;
     chapter_start := chapter_start st1 |}.

Definition create_chapter_markers (chunks : list AudioChunk) : list Marker :=
  let st :=
    fold_left marker_step chunks
      {| chapters := []; current_time := 0; current_chapter := None;
         chapter_start := 0 |} in
  match current_chapter st with
  | Some title =>
      if truthy title
      then chapters st
             ++ [{| marker_title := title;
                    marker_start := chapter_start st;
                    marker_end := current_time st |}]
      else chapters st
  | None => chapters st
  end.

End ChapterMarkers.

(* ===================================================================== *)
(** ** backend/tts_services.py: TTSManager *)
(* ===================================================================== *)

Module TTSManager.
Import PyStr Eff AudioProcessor.
#[local] Open Scope eff_scope.

Record TTSRequest := {
  text : str;
  voice : str;
  model : option str;
  speed : Q
}.

Section Manager.

(** The service objects. *)
Context {V : Type}.

(** [self.services], a [dict] in insertion order, and
    [self.default_service]. *)
Record Manager := {
  services : list (str * V);
  default_service : option str
}.

(** [TTSManager()] *)
Definition new : Manager := {| services := []; default_service := None |}.

(** [d[name] = service]: an existing key keeps its place. *)
Fixpoint dict_set (name : str) (service : V) (d : list (str * V))
  : list (str * V) :=
  match d with
  | [] => [(name, service)]
  | (k, v) :: d' =>
      if str_eqb k name then (k, service) :: d'
      else (k, v) :: dict_set name service d'
  end.

(** [d.get(name)] and [name in d] *)
Fixpoint dict_get (name : str) (d : list (str * V)) : option V :=
  match d with
  | [] => None
  | (k, v) :: d' => if str_eqb k name then Some v else dict_get name d'
  end.

Definition dict_in (name : str) (d : list (str * V)) : bool :=
  match dict_get name d with Some _ => true | None => false end.

Definition add_service (name : str) (service : V) : M Manager unit :=
  modify (fun m =>
    {| services := dict_set name service (services m);
       default_service :=
         match default_service m with
         | None => Some name
         | Some d => Some d
         end |}).

Definition set_default_service (name : str) : M Manager unit :=
  m <- get ;;
  if dict_in name (services m) then
    modify (fun m =>
      {| services := services m; default_service := Some name |})
  else raise (lit "Service '" ++ name ++ lit "' not found").

(** [a or b] on two optional strings, and [str(o)] in an f-string. *)
Definition py_or (a b : option str) : option str :=
  match a with
  | Some s => if truthy s then a else b
  | None => b
  end.

Definition py_str (o : option str) : str :=
  match o with Some s => s | None => lit "None" end.

(** [synthesize_speech]; [call service request] is what
    [service.synthesize_speech(request)] comes back with. *)
Definition synthesize_speech
    (call : V -> TTSRequest -> result TTSServices.TTSResponse)
    (text : str) (service_name voice : option str) (speed : Q)
  : M Manager TTSServices.TTSResponse :=
  m <- get ;;
  let service_name := py_or service_name (default_service m) in
  match match service_name with
        | Some name => dict_get name (services m)
        | None => None
        end with
  | None =>
      raise (lit "Service '" ++ py_str service_name ++ lit "' not found")
  | Some service =>
      let request :=
        {| text := text;
           voice := match voice with Some v => v | None => [] end;
           model := None; speed := speed |} in
      lift (call service request)
  end.

Definition get_available_services (m : Manager) : list str :=
  map fst (services m).

Definition validate_all_services (validate_config : V -> bool) (m : Manager)
  : list (str * bool) :=
  map (fun entry => (fst entry, validate_config (snd entry))) (services m).

(** [initialize_tts_services] of backend/app.py.  [openai] and
    [google] are what the constructors of the two services do, when
    they are called; [google_ready] tells that the credentials path is
    set and the file exists.  The validation at the end only logs its
    results. *)
Definition initialize_tts_services (openai_api_key : option str)
    (openai : result V) (google_ready : bool) (google : result V)
    (default_tts_service : str) : M Manager unit :=
  r <- try
         ((if truthy_opt openai_api_key
           then openai_service <- lift openai ;;
                add_service (lit "openai") openai_service
           else ret tt) ;;;
          (if google_ready
           then google_service <- lift google ;;
                add_service (lit "google") google_service
           else ret tt) ;;;
          set_default_service default_tts_service) ;;
  ret tt.

End Manager.

Arguments Manager V : clear implicits.

End TTSManager.

(* ===================================================================== *)
(** ** backend/app.py: the routes *)
(* ===================================================================== *)

Module Routes.
Import PyStr Eff App.
#[local] Open Scope eff_scope.

(** The JSON bodies of the routes, without the book metadata and the
    time stamps, and what a route returns: a body with a status code,
    or a file to send. *)
Inductive Body : Type :=
| ErrorBody (error : str)
| MessageBody (message : str)
| StartedBody (message job_id : str)
| UploadBody (job_id filename : str)
| StatusBody (job_id status : str) (progress : Q) (message : str)
    (error output_file : option str).

Inductive Response : Type :=
| Json (body : Body) (code : Z)
| SendFile (path download_name : str).

(** [active_jobs], and the worker threads started so far, by job. *)
Record Server := {
  active_jobs : gmap str Job;
  threads : list str
}.

Definition set_jobs (f : gmap str Job -> gmap str Job) : M Server unit :=
  modify (fun s =>
    {| active_jobs := f (active_jobs s); threads := threads s |}).

Definition job_not_found : Response :=
  Json (ErrorBody (lit "Job not found")) 404.

(** [s.endswith(suffix)] *)
Definition endswith (s suffix : str) : bool :=
  starts_with (rev suffix) (rev s).

(** [upload_file].  [file] is the name of the uploaded file, if the
    request has one; [job_id] is the fresh [uuid4]; [secure_filename]
    is werkzeug's; [save_error] is the exception of [file.save], if
    any. *)
Definition upload_file (upload_folder : str) (file : option str)
    (job_id : str) (secure_filename : str -> str)
    (save_error : option str) : M Server Response :=
  match file with
  | None => ret (Json (ErrorBody (lit "No file provided")) 400)
  | Some file_filename =>
      if negb (truthy file_filename) then
        ret (Json (ErrorBody (lit "No file selected")) 400)
      else if negb (endswith (lower file_filename) (lit ".pdf")) then
        ret (Json (ErrorBody (lit "Only PDF files are allowed")) 400)
      else
        let filename := secure_filename file_filename in
        let upload_path :=
          upload_folder ++ lit "/" ++ job_id ++ lit "_" ++ filename in
        match save_error with
        | Some e => ret (Json (ErrorBody e) 500)
        | None =>
            set_jobs
              <[job_id :=
                  {| App.job_id := job_id; App.filename := filename;
                     App.upload_path := upload_path;
                     status := lit "uploaded"; progress := 0;
                     message := []; error := None;
                     output_file := None |}]> ;;;
            ret (Json (UploadBody job_id filename) 200)
        end
  end.

(** [start_conversion]; [requested] is the ['job_id'] of the JSON
    body of the request, if it names one. *)
Definition start_conversion (requested : option str) : M Server Response :=
  s <- get ;;
  match match requested with
        | Some job_id => option_map (pair job_id) (active_jobs s !! job_id)
        | None => None
        end with
  | None => ret job_not_found
  | Some (job_id, job) =>
      set_jobs <[job_id := set_status (lit "processing") job]> ;;;
      modify (fun s =>
        {| active_jobs := active_jobs s;
           threads := threads s ++ [job_id] |}) ;;;
      ret (Json (StartedBody (lit "Conversion started") job_id) 200)
  end.

Definition get_job_status (job_id : str) : M Server Response :=
  s <- get ;;
  match active_jobs s !! job_id with
  | None => ret job_not_found
  | Some job =>
      ret (Json (StatusBody job_id (status job) (progress job)
                   (message job) (error job) (output_file job)) 200)
  end.

(** [download_file]; [exists] is [os.path.exists]. *)
Definition download_file (exists_ : str -> bool) (job_id : str)
  : M Server Response :=
  s <- get ;;
  match active_jobs s !! job_id with
  | None => ret job_not_found
  | Some job =>
      if negb (str_eqb (status job) (lit "completed")) then
        ret (Json (ErrorBody (lit "Conversion not completed")) 400)
      else
        match output_file job with
        | Some path =>
            if truthy path && exists_ path then
              ret (SendFile path
                     (rsplit_dot_head (filename job) ++ lit ".mp3"))
            else ret (Json (ErrorBody (lit "Output file not found")) 404)
        | None => ret (Json (ErrorBody (lit "Output file not found")) 404)
        end
  end.

Definition cancel_job (job_id : str) : M Server Response :=
  s <- get ;;
  match active_jobs s !! job_id with
  | Some job =>
      set_jobs <[job_id := set_status cancelled job]> ;;;
      ret (Json (MessageBody (lit "Job cancelled")) 200)
  | None => ret job_not_found
  end.

End Routes.

(* ===================================================================== *)
(** ** The cleaning functions of pdf_processor.py and content_filter.py *)
(* ===================================================================== *)

(** The fragment of [re] the cleaning functions use: a pattern is a
    sequence of character classes, each taken once or repeated, greedy
    or lazy. *)
Module Regex.
Import PyStr.

Inductive atom : Type :=
| One (cls : ascii -> bool)
| Star (greedy : bool) (cls : ascii -> bool).

(** [cls+] *)
Definition plus (cls : ascii -> bool) : list atom := [One cls; Star true cls].

Definition is_char (a c : ascii) : bool := Ascii.eqb c a.

(** A literal piece of a pattern. *)
Definition literal (s : string) : list atom :=
  map (fun a => One (is_char a)) (lit s).

(** The match of a pattern at the head of [s], found by backtracking
    in the order of [re]: a greedy repetition tries one more character
    before it tries to go on, a lazy one the other way round.  The
    result is what is left of [s] after the match. *)
Fixpoint matches (atoms : list atom) (s : str) : option str :=
  match atoms with
  | [] => Some s
  | One cls :: atoms' =>
      match s with
      | c :: s' => if cls c then matches atoms' s' else None
      | [] => None
      end
  | Star greedy cls :: atoms' =>
      (fix star (s : str) : option str :=
         let more :=
           match s with
           | c :: s' => if cls c then star s' else None
           | [] => None
           end in
         if greedy then
           match more with
           | Some r => Some r
           | None => matches atoms' s
           end
         else
           match matches atoms' s with
           | Some r => Some r
           | None => more
           end) s
  end.

(** [re.sub(pattern, repl, s)] for a pattern that matches no empty
    string: the leftmost match is replaced by [repl] of the matched
    text, and the scan goes on after it.  [skip] counts the characters
    of a match that are still to be passed over. *)
Fixpoint sub_go (atoms : list atom) (repl : str -> str) (skip : nat)
    (s : str) : str :=
  match s with
  | [] => []
  | c :: s' =>
      match skip with
      | S k => sub_go atoms repl k s'
      | O =>
          match matches atoms s with
          | Some r =>
              let n := (length s - length r)%nat in
              repl (firstn n s) ++ sub_go atoms repl (n - 1) s'
          | None => c :: sub_go atoms repl 0 s'
          end
      end
  end.

Definition sub (atoms : list atom) (repl : str -> str) (s : str) : str :=
  sub_go atoms repl 0 s.

End Regex.

Module Cleaning.
Import PyStr PdfProcessor Regex.

(** [.], without [re.DOTALL] *)
Definition dot (c : ascii) : bool := negb (Ascii.eqb c newline).

(** The patterns [\s+], [\n\s*\d+\s*\n], [\[.*?\]], [\(page \d+\)]
    and [([.!?])\s*([.!?])+]. *)
Definition whitespace_run : list atom := plus isspace.

Definition page_number_line : list atom :=
  [One (is_char newline); Star true isspace] ++ plus re_digit
    ++ [Star true isspace; One (is_char newline)].

Definition bracketed : list atom :=
  [One (is_char "["); Star false dot; One (is_char "]")].

Definition page_reference : list atom :=
  literal "(page " ++ plus re_digit ++ literal ")".

Definition repeated_punctuation : list atom :=
  [One is_terminator; Star true isspace] ++ plus is_terminator.

(** [PDFProcessor.clean_text] *)
Definition clean_text (text : str) : str :=
  let text := sub whitespace_run (fun _ => lit " ") text in
  let text := sub page_number_line (fun _ => [newline]) text in
  let lines := split_on newline text in
  let cleaned_lines :=
    List.filter (fun line => len line >? 3) (map strip lines) in
  join [newline] cleaned_lines.

(** [ContentFilter._clean_section_content]; the replacement [\1] is
    the first character of the match. *)
Definition clean_section_content (content : str) : str :=
  let content := sub whitespace_run (fun _ => lit " ") content in
  let content := sub page_number_line (fun _ => [newline]) content in
  let content := sub bracketed (fun _ => []) content in
  let content := sub page_reference (fun _ => []) content in
  let content := sub repeated_punctuation (firstn 1) content in
  strip content.

End Cleaning.

(* ===================================================================== *)
(** ** backend/app.py: the synthesis call of the worker *)
(* ===================================================================== *)

Module Worker.
Import PyStr Eff App.

(** The [settings] of a conversion request, as far as
    [process_conversion] reads them.  [None] is a key that is not
    there; the value of ['tts_service'] may be JSON's [null], the
    inner [None]; a speed, when there, is a number. *)
Record Settings := {
  tts_service : option (option str);
  voice : option str;
  speed : option Q
}.

Section Call.

Context {V : Type}.
Variable call : V -> TTSManager.TTSRequest -> result TTSServices.TTSResponse.
Variable config : AppConfig.
Variable settings : Settings.

(** [settings.get('tts_service', app.config['DEFAULT_TTS_SERVICE'])] *)
Definition service_name : option str :=
  match tts_service settings with
  | Some value => value
  | None => Some (DEFAULT_TTS_SERVICE config)
  end.

(** [settings.get('speed', 1.0)] *)
Definition speed_setting : Q :=
  match speed settings with
  | Some value => value
  | None => 1
  end.

(** [tts_manager.synthesize_speech(chunk['text'],
    service_name=service_name, voice=voice, speed=speed)] *)
Definition synthesize (chunk_text : str)
  : M (TTSManager.Manager V) TTSServices.TTSResponse :=
  TTSManager.synthesize_speech call chunk_text service_name
    (voice settings) speed_setting.

End Call.

End Worker.

(* ===================================================================== *)
(** * Vocabulary of the properties *)
(* ===================================================================== *)

Import PyStr Eff PdfProcessor ContentFilter AudioProcessor App Scenarios.

(** ** Chapter segmenter: page ranges and collected text *)

Definition ascending (pages : list PageContent) : Prop :=
  StronglySorted Z.lt (map page_number pages).

Definition range_ok (s : BookSection) : Prop := start_page s <= end_page s.

Definition precedes (a b : BookSection) : Prop := end_page a < start_page b.

(** The sections a loop state stands for: the closed ones, then the
    open one. *)
Definition state_sections (st : detect_state) : list BookSection :=
  fst st ++ match snd st with Some cur => [cur] | None => [] end.

Definition page_text (p : PageContent) : str := text p ++ [newline].

Definition no_heading (p : PageContent) : Prop :=
  heading_match (text p) = None.

(** The loop invariant of [detect_chapters] on ascending pages; [seen]
    is the list of pages read so far. *)
Definition detect_inv (seen : list PageContent) (st : detect_state) : Prop :=
  Forall range_ok (fst st)
  /\ StronglySorted precedes (fst st)
  /\ match snd st with
     | None => fst st = []
     | Some cur =>
         seen <> []
         /\ start_page cur <= last_page_number seen
         /\ Forall (fun s => precedes s cur) (fst st)
     end.

(** The text a loop state has collected. *)
Definition collected (st : detect_state) : str :=
  concat (map content (state_sections st)).

(** The pages from the first heading page on. *)
Fixpoint from_first_heading (pages : list PageContent) : list PageContent :=
  match pages with
  | [] => []
  | p :: rest =>
      match heading_match (text p) with
      | Some _ => pages
      | None => from_first_heading rest
      end
  end.

(** ** Text chunker: size bound and words *)

(** The bound of the spec on one chunk: within the limit, or a single
    word that is itself longer than the limit. *)
Definition within_limit (max_chunk_size : Z) (chunk : str) : Prop :=
  len chunk <= max_chunk_size
  \/ (split chunk = [chunk] /\ len chunk > max_chunk_size).

Definition is_separator (c : ascii) : bool := isspace c || is_terminator c.

(** The words of a text: the maximal runs of characters that are
    neither whitespace nor one of [. ! ?]. *)
Definition tokens (s : str) : list str := fields is_separator s.

(** The words a loop state of the chunker holds. *)
Definition state_tokens (st : chunk_state) : list str :=
  concat (map tokens (fst st)) ++ tokens (snd st).

(** ** Audio assembler: pauses and lengths *)

(** The code's test for a pause after [a], the chunk before [b]. *)
Definition chapter_break (a b : AudioChunk) : bool :=
  truthy_opt (chapter a) && truthy_opt (chapter b)
  && opt_neb (chapter a) (chapter b).

(** The claim's test: the two labels differ. *)
Definition label_change (a b : AudioChunk) : bool :=
  opt_neb (chapter a) (chapter b).

(** The number of adjacent pairs of chunks that pass [test]. *)
Fixpoint transitions (test : AudioChunk -> AudioChunk -> bool)
    (chunks : list AudioChunk) : Z :=
  match chunks with
  | a :: (b :: _) as rest =>
      (if test a b then 1 else 0) + transitions test rest
  | _ => 0
  end.

(** The payloads in input order, with a silence after every chunk that
    is followed by a chapter break. *)
Fixpoint assembled (pause_ms : Z) (chunks : list AudioChunk) : AudioSegment :=
  match chunks with
  | [] => []
  | a :: rest =>
      Clip (audio_data a)
        :: match rest with
           | b :: _ => if chapter_break a b then [Silence pause_ms] else []
           | [] => []
           end
        ++ assembled pause_ms rest
  end.

Definition payload_ms (clip_ms : bytes -> Z) (chunks : list AudioChunk) : Z :=
  fold_right (fun c acc => clip_ms (audio_data c) + acc) 0 chunks.

(** ** Job supervisor: worlds of a run *)

(** Nobody cancels. *)
Definition quiet (env : Env) : Prop :=
  forall k : nat, cancel_request env k = false.

Definition not_cancelled (w : World) : Prop :=
  str_eqb (status (job w)) cancelled = false.

(** The exception the inner [try] body ends with on a backend outcome. *)
Definition attempt_error (o : TTSOutcome) : option str :=
  match o with
  | Raises e => Some e
  | Responds r =>
      if truthy_opt (TTSServices.error r)
      then Some (lit "TTS error: " ++ default [] (TTSServices.error r))
      else None
  end.

(** The audio chunk appended on an outcome without error. *)
Definition audio_chunk_of (o : TTSOutcome) (chunk : str * str) : AudioChunk :=
  {| audio_data :=
       match o with
       | Responds r => TTSServices.audio_data r
       | Raises _ => []
       end;
     chunk_text := fst chunk; chapter := Some (snd chunk);
     start_time := None; duration := None |}.

(** The worlds after a progress update, a synthesis call and a sleep. *)
Definition progressed (msg : str) (prog : Q) (w : World) : World :=
  {| job := {| job_id := job_id (job w); filename := filename (job w);
               upload_path := upload_path (job w);
               status := status (job w); progress := prog; message := msg;
               error := error (job w);
               output_file := output_file (job w) |};
     status_reads := S (status_reads w);
     tts_calls := tts_calls w;
     trace := trace w ++ [ProgressUpdate msg prog] |}.

Definition called (txt : str) (w : World) : World :=
  {| job := job w; status_reads := status_reads w;
     tts_calls := S (tts_calls w);
     trace := trace w ++ [Synthesize txt] |}.

Definition slept (seconds : Z) (w : World) : World :=
  {| job := job w; status_reads := status_reads w;
     tts_calls := tts_calls w;
     trace := trace w ++ [TimeSleep seconds] |}.

(** The progress message before the [n]-th retry. *)
Definition retry_message (n wait_time : Z) : str :=
  lit "TTS retry " ++ str_of_Z n ++ lit "/" ++ str_of_Z max_tts_retries
    ++ lit " in " ++ str_of_Z wait_time ++ lit "s...".

(** The world after a failed attempt that is followed by a wait. *)
Definition backed_off (n : Z) (txt : str) (prog : Q) (w : World) : World :=
  slept (2 ^ n) (progressed (retry_message n (2 ^ n)) prog (called txt w)).

(** The error of the [k]-th synthesis call after [w], if it fails. *)
Definition error_after (env : Env) (w : World) (k : nat) : option str :=
  attempt_error (tts env (tts_calls w + k)%nat).

Definition audio_after (env : Env) (w : World) (k : nat) (chunk : str * str)
  : AudioChunk :=
  audio_chunk_of (tts env (tts_calls w + k)%nat) chunk.

(** The worlds in which the second and the third attempt start. *)
Definition after_first_failure (chunk : str * str) (prog : Q) (w : World)
  : World :=
  backed_off 1 (fst chunk) prog w.

Definition after_second_failure (chunk : str * str) (prog : Q) (w : World)
  : World :=
  backed_off 2 (fst chunk) prog (after_first_failure chunk prog w).

Definition retry_run (env : Env) (chunk : str * str) (prog : Q)
    (audio_chunks : list AudioChunk) (w : World)
  : result (list AudioChunk) * World :=
  tts_while env (Z.to_nat max_tts_retries) 0 chunk prog audio_chunks w.

(** The rounds of the retry loop as the spec words them: a failed
    attempt that is not the last is followed by a wait of [2^attempt]
    seconds, announced by a progress update; [waits] such rounds and
    then one more call. *)
Definition retry_events (waits : nat) (txt : str) (prog : Q) : list Event :=
  flat_map
    (fun attempt =>
       [Synthesize txt;
        ProgressUpdate (retry_message attempt (2 ^ attempt)) prog;
        TimeSleep (2 ^ attempt)])
    (map Z.of_nat (seq 1 waits))
  ++ [Synthesize txt].


Definition synthesizing_message (i n : Z) : str :=
  lit "Synthesizing speech " ++ str_of_Z (i + 1) ++ lit "/" ++ str_of_Z n.

Definition chunk_progress (i n : Z) : Q :=
  ((5 # 10) + inject_Z i / inject_Z n * (3 # 10))%Q.

(** The chunk list of a document, as [process_conversion] builds it. *)
Definition chunk_list (env : Env) (config : AppConfig)
    (pages : list PageContent) : list (str * str) :=
  flat_map
    (fun section =>
       map (fun chunk_text => (chunk_text, title section))
         (chunk_text_for_tts (content section) (MAX_CHUNK_SIZE config)))
    (filter_sections (clean_section_content env)
       (detect_chapters
          (filter_pages (count_matches env) (toc_line env) pages
             (flags config)))
       (flags config)).

Definition status_read (w : World) : World :=
  {| job := job w; status_reads := S (status_reads w);
     tts_calls := tts_calls w; trace := trace w |}.

(** The world when the synthesis loop starts. *)
Definition prepared (n : Z) (w : World) : World :=
  progressed
    (lit "Converting " ++ str_of_Z n ++ lit " text chunks to speech...")
    (5 # 10)
    (progressed (lit "Preparing text for speech synthesis...") (4 # 10)
       (progressed (lit "Detecting chapters...") (3 # 10)
          (progressed (lit "Filtering content...") (2 # 10)
             (progressed (lit "Extracting text from PDF...") (1 # 10)
                (status_read w))))).

(** The progress values a run sent out, and the test for a fraction. *)
Definition progress_updates (t : list Event) : list Q :=
  flat_map (fun e => match e with ProgressUpdate _ p => [p] | _ => [] end) t.

Definition is_fraction (p : Q) : bool := Qle_bool 0 p && Qle_bool p 1.

(** ** Worked documents and chunks *)

Definition page (n : Z) (t : str) : PageContent :=
  {| page_number := n; text := t; word_count := len_words t;
     has_images := false; font_sizes := [] |}.

(** A preface, a chapter over two pages, and a chapter on page 5 (page 4
    was filtered out). *)
Definition preface : list PageContent := [page 1 (lit "Preface")].

Definition chapters : list PageContent :=
  [page 2 (lit "Chapter 1" ++ [newline] ++ lit "It began");
   page 3 (lit "and went on");
   page 5 (lit "Chapter 2" ++ [newline] ++ lit "It ended")].

(** Pages whose numbers do not ascend: a preface numbered 5, then a
    chapter that starts on the page numbered 2 and runs to the page
    numbered 7. *)
Definition late_preface : list PageContent := [page 5 (lit "Preface")].

Definition early_chapter : list PageContent :=
  [page 2 (lit "Chapter 1" ++ [newline] ++ lit "It began");
   page 7 (lit "and went on")].

Definition labelled (data : bytes) (label : string) : AudioChunk :=
  {| audio_data := data; chunk_text := []; chapter := Some (lit label);
     start_time := None; duration := None |}.

(** A chunk without a chapter label, then a labelled one. *)
Definition two_chunks : list AudioChunk :=
  [ {| audio_data := [Byte.x01]; chunk_text := lit "Foreword";
       chapter := None; start_time := None; duration := None |};
    {| audio_data := [Byte.x02]; chunk_text := lit "It began";
       chapter := Some (lit "Chapter 1"); start_time := None;
       duration := None |} ].

Definition three_chunks : list AudioChunk :=
  [labelled [Byte.x01] "Chapter 1"; labelled [Byte.x02] "Chapter 1";
   labelled [Byte.x03] "Chapter 2"].

(** ** Further vocabulary *)

(** ** Chapter segmenter: section boundaries *)

Definition has_heading (p : PageContent) : bool :=
  match heading_match (text p) with Some _ => true | None => false end.

(** The page numbers of the pages that match a heading pattern. *)
Definition heading_pages (pages : list PageContent) : list Z :=
  map page_number (List.filter has_heading pages).

(** The end pages that go with a list of start pages: each section ends
    on the page before the next start, the last one on [last_page]. *)
Definition ends_for (starts : list Z) (last_page : Z) : list Z :=
  match starts with
  | [] => []
  | _ :: later => map (fun n => n - 1) later ++ [last_page]
  end.


(** [pages[0].page_number] *)
Definition first_page_number (pages : list PageContent) : Z :=
  match pages with
  | p :: _ => page_number p
  | [] => 0
  end.

(** A section as [detect_chapters] makes them: a non-empty title and
    the type "chapter". *)
Definition well_titled (s : BookSection) : Prop :=
  truthy (title s) = true /\ section_type s = lit "chapter".

(** ** Content filter: a book with short pages *)

(** A preface and a page of thanks of a few words each, which the page
    filter drops, around two chapters: one of 122 and 60 words on two
    pages, one of 122 words. *)
Definition two_chapter_book : list PageContent :=
  [page 1 (lit "Preface");
   page 2 (lit "Chapter 1" ++ [newline] ++ words 120);
   page 3 (words 60);
   page 4 (lit "Acknowledgments: thanks to everyone");
   page 5 (lit "Chapter 2" ++ [newline] ++ words 120)].

(** ** Text chunker: shape of the chunks *)

Definition starts_nonspace (s : str) : Prop :=
  exists c rest, s = c :: rest /\ isspace c = false.

Definition ends_nonspace (s : str) : Prop :=
  exists front c, s = front ++ [c] /\ isspace c = false.

(** A text that begins and ends with a character that is not
    whitespace. *)
Definition trimmed (s : str) : Prop := starts_nonspace s /\ ends_nonspace s.

(** The loop invariant of the chunker: closed chunks are trimmed, and
    so is [current_chunk] unless it is empty. *)
Definition chunk_inv (st : chunk_state) : Prop :=
  Forall trimmed (fst st) /\ (snd st = [] \/ trimmed (snd st)).

(** ** Audio assembler: payloads *)

(** The decoded payloads of an assembled segment, in order. *)
Definition clips (a : AudioSegment) : list bytes :=
  flat_map (fun p => match p with Clip data => [data] | Silence _ => [] end) a.

Definition has_label (c : AudioChunk) : Prop := truthy_opt (chapter c) = true.

(** ** Job supervisor: outcomes of a job *)

(** The world after a read of the job's status, with a cancellation
    that arrived in the meantime recorded. *)
Definition polled (env : Env) (w : World) : World :=
  {| job := if cancel_request env (status_reads w)
            then set_status cancelled (job w) else job w;
     status_reads := S (status_reads w);
     tts_calls := tts_calls w; trace := trace w |}.

Definition output_filename (j : Job) : str :=
  job_id j ++ lit "_" ++ rsplit_dot_head (filename j) ++ lit ".mp3".

Definition output_path (config : AppConfig) (j : Job) : str :=
  OUTPUT_FOLDER config ++ lit "/" ++ output_filename j.

(** The three ways a job can end. *)
Definition completed (config : AppConfig) (w : World) : Prop :=
  status (job w) = lit "completed"
  /\ progress (job w) = 100%Q
  /\ output_file (job w) = Some (output_path config (job w))
  /\ exists t, trace w = t ++ [ConversionComplete (output_filename (job w))].

Definition failed (w : World) : Prop :=
  status (job w) = lit "failed"
  /\ exists e t,
       error (job w) = Some e
       /\ message (job w) = lit "Conversion failed after 3 attempts: " ++ e
       /\ trace w = t ++ [ConversionError e].

Definition was_cancelled (w : World) : Prop := status (job w) = cancelled.

(** What a run never touches: the identity of the job and the events
    and counters already there. *)
Definition extends (w w' : World) : Prop :=
  job_id (job w') = job_id (job w)
  /\ filename (job w') = filename (job w)
  /\ upload_path (job w') = upload_path (job w)
  /\ (exists t, trace w' = trace w ++ t)
  /\ (status_reads w <= status_reads w')%nat
  /\ (tts_calls w <= tts_calls w')%nat.

Definition keeps {A} (m : M World A) : Prop :=
  forall w, extends w (snd (m w)).

(** The texts sent to the synthesis backend, in order. *)
Definition synthesized (t : list Event) : list str :=
  flat_map (fun e => match e with Synthesize txt => [txt] | _ => [] end) t.

(** The world after the announcement of the job-level retry [n]. *)
Definition retry_notice (n : Z) : str :=
  lit "Retrying conversion in " ++ str_of_Z (5 * n) ++ lit "s (attempt "
    ++ str_of_Z (n + 1) ++ lit "/" ++ str_of_Z max_retries ++ lit ")".

Definition retrying (n : Z) (w : World) : World :=
  slept (5 * n)
    {| job := {| job_id := job_id (job w); filename := filename (job w);
                 upload_path := upload_path (job w);
                 status := status (job w); progress := 0;
                 message := retry_notice n; error := error (job w);
                 output_file := output_file (job w) |};
       status_reads := status_reads w; tts_calls := tts_calls w;
       trace := trace w ++ [ProgressUpdate (retry_notice n) 0] |}.

(** The world after the third failed run. *)
Definition given_up (e : str) (w : World) : World :=
  {| job := {| job_id := job_id (job w); filename := filename (job w);
               upload_path := upload_path (job w);
               status := lit "failed"; progress := progress (job w);
               message := lit "Conversion failed after 3 attempts: " ++ e;
               error := Some e; output_file := output_file (job w) |};
     status_reads := status_reads w; tts_calls := tts_calls w;
     trace := trace w ++ [ConversionError e] |}.

(** The world after the first half of a progress update: the job and
    the socket have the message, the status is not read yet. *)
Definition announced (msg : str) (prog : Q) (w : World) : World :=
  {| job := {| job_id := job_id (job w); filename := filename (job w);
               upload_path := upload_path (job w);
               status := status (job w); progress := prog; message := msg;
               error := error (job w);
               output_file := output_file (job w) |};
     status_reads := status_reads w;
     tts_calls := tts_calls w;
     trace := trace w ++ [ProgressUpdate msg prog] |}.

(** What the backend sent back on an outcome. *)
Definition payload (o : TTSOutcome) : bytes :=
  match o with
  | Responds r => TTSServices.audio_data r
  | Raises _ => []
  end.

(** The [k]-th synthesis call answers with audio that decodes. *)
Definition answers (env : Env) (k : nat) : Prop :=
  attempt_error (tts env k) = None /\ mp3_ok env (payload (tts env k)) = true.

(** The audio chunks of [chunks] when the calls from the [first] on
    all answer. *)
Fixpoint audio_of (env : Env) (first : nat) (chunks : list (str * str))
  : list AudioChunk :=
  match chunks with
  | [] => []
  | c :: rest => audio_chunk_of (tts env first) c :: audio_of env (S first) rest
  end.

(** A stretch of a run that sent [texts] to the backend, one call
    each, did not sleep and left the job's status alone. *)
Definition run_step (texts : list str) (w w' : World) : Prop :=
  status (job w') = status (job w)
  /\ job_id (job w') = job_id (job w)
  /\ filename (job w') = filename (job w)
  /\ tts_calls w' = (tts_calls w + length texts)%nat
  /\ exists t, trace w' = trace w ++ t
               /\ synthesized t = texts /\ sleeps t = [].

(** The world after the completion update. *)
Definition finalised (config : AppConfig) (w : World) : World :=
  {| job := {| job_id := job_id (job w); filename := filename (job w);
               upload_path := upload_path (job w);
               status := lit "completed"; progress := 100;
               message := lit "Conversion completed successfully";
               error := error (job w);
               output_file := Some (output_path config (job w)) |};
     status_reads := status_reads w; tts_calls := tts_calls w;
     trace := trace w ++ [ConversionComplete (output_filename (job w))] |}.

(** ** Rate limiter *)

(** The request times of the last 60 seconds, as the limiter keeps
    them. *)
Definition recent (s : TTSServices.Service) : list Q :=
  List.filter (fun t => TTSServices.Qltb (TTSServices.clock s - t) 60)
    (TTSServices.request_times s).

(** ** Chapter markers *)

(** Each marker ends where the next one starts, under another title. *)
Fixpoint chained (ms : list ChapterMarkers.Marker) : Prop :=
  match ms with
  | a :: (b :: _) as rest =>
      ChapterMarkers.marker_end a = ChapterMarkers.marker_start b
      /\ ChapterMarkers.marker_title a <> ChapterMarkers.marker_title b
      /\ chained rest
  | _ => True
  end.

(** The running time of a list of chunks, as the marker loop adds it
    up. *)
Definition elapsed (chunks : list AudioChunk) : Q :=
  fold_left (fun t c => (t + ChapterMarkers.chunk_seconds c)%Q) chunks 0%Q.

Definition unlabelled (c : AudioChunk) : Prop :=
  truthy_opt (chapter c) = false.

(** The chunks before the first one that has a chapter label. *)
Fixpoint before_first_label (chunks : list AudioChunk) : list AudioChunk :=
  match chunks with
  | [] => []
  | c :: rest =>
      if truthy_opt (chapter c) then [] else c :: before_first_label rest
  end.

(** The markers a loop state stands for: the closed ones, then the
    open one. *)
Definition state_markers (st : ChapterMarkers.marker_state)
  : list ChapterMarkers.Marker :=
  ChapterMarkers.chapters st
  ++ match ChapterMarkers.current_chapter st with
     | Some title =>
         [{| ChapterMarkers.marker_title := title;
             ChapterMarkers.marker_start := ChapterMarkers.chapter_start st;
             ChapterMarkers.marker_end := ChapterMarkers.current_time st |}]
     | None => []
     end.

(** The loop invariant of [create_chapter_markers]; [done] is the
    list of chunks read so far. *)
Definition marker_inv (done : list AudioChunk)
    (st : ChapterMarkers.marker_state) : Prop :=
  ChapterMarkers.current_time st = elapsed done
  /\ match ChapterMarkers.current_chapter st with
     | None => ChapterMarkers.chapters st = [] /\ Forall unlabelled done
     | Some title => truthy title = true /\ ~ Forall unlabelled done
     end
  /\ chained (state_markers st)
  /\ Forall (fun m => truthy (ChapterMarkers.marker_title m) = true)
       (state_markers st)
  /\ (forall first rest,
         state_markers st = first :: rest ->
         ChapterMarkers.marker_start first
         = elapsed (before_first_label done)).

(** The state in which the marker loop ends. *)
Definition markers_run (chunks : list AudioChunk)
  : ChapterMarkers.marker_state :=
  fold_left ChapterMarkers.marker_step chunks
    {| ChapterMarkers.chapters := []; ChapterMarkers.current_time := 0;
       ChapterMarkers.current_chapter := None;
       ChapterMarkers.chapter_start := 0 |}.

(** ** Service manager *)

(** The calls that change a manager, for properties over every
    sequence of them. *)
Inductive ManagerCall (V : Type) : Type :=
| AddService (name : str) (service : V)
| SetDefaultService (name : str).
Arguments AddService {V} name service.
Arguments SetDefaultService {V} name.

Definition perform {V} (c : ManagerCall V) : M (TTSManager.Manager V) unit :=
  match c with
  | AddService name service => TTSManager.add_service name service
  | SetDefaultService name => TTSManager.set_default_service name
  end.

(** The manager after the calls, each caller carrying on after an
    exception. *)
Definition after_calls {V} (calls : list (ManagerCall V))
    (m : TTSManager.Manager V) : TTSManager.Manager V :=
  fold_left (fun m c => snd (perform c m)) calls m.

(** The default service, if there is one, is registered; there is one
    as soon as a service is registered; no name is registered twice. *)
Definition manager_ok {V} (m : TTSManager.Manager V) : Prop :=
  List.NoDup (TTSManager.get_available_services m)
  /\ match TTSManager.default_service m with
     | Some d => TTSManager.dict_in d (TTSManager.services m) = true
     | None => TTSManager.services m = []
     end.

(** The request the manager hands to a service. *)
Definition request_of (txt : str) (voice : option str) (speed : Q)
  : TTSManager.TTSRequest :=
  {| TTSManager.text := txt;
     TTSManager.voice := match voice with Some v => v | None => [] end;
     TTSManager.model := None; TTSManager.speed := speed |}.

Definition not_found (name : str) : str :=
  lit "Service '" ++ name ++ lit "' not found".

(** The services [initialize_tts_services] registers: OpenAI when a
    key is set, Google when the credentials are there, as long as no
    constructor raised before. *)
Definition configured {V} (openai_api_key : option str) (openai : result V)
    (google_ready : bool) (google : result V) : list (str * V) :=
  let with_google (d : list (str * V)) :=
    if google_ready
    then match google with
         | Ok service => d ++ [(lit "google", service)]
         | Raise _ => d
         end
    else d in
  if truthy_opt openai_api_key
  then match openai with
       | Ok service => with_google [(lit "openai", service)]
       | Raise _ => []
       end
  else with_google [].

(** ** Cleaning *)

(** A repetition of [cls] followed by what [k] matches, in the
    backtracking order of [Regex.matches]. *)
Fixpoint star_of (greedy : bool) (cls : ascii -> bool)
    (k : str -> option str) (s : str) : option str :=
  let more :=
    match s with
    | c :: s' => if cls c then star_of greedy cls k s' else None
    | [] => None
    end in
  if greedy then
    match more with
    | Some r => Some r
    | None => k s
    end
  else
    match k s with
    | Some r => Some r
    | None => more
    end.

(** The text with every run of whitespace replaced by one space. *)
Definition collapsed (s : str) : str :=
  Regex.sub Cleaning.whitespace_run (fun _ => lit " ") s.

(** The only whitespace is the space character. *)
Definition plain_spaces (s : str) : Prop :=
  Forall (fun c => isspace c = true -> c = " "%char) s.

(** No opening bracket is followed, anywhere later, by a closing
    one. *)
Fixpoint no_bracket_pair (s : str) : Prop :=
  match s with
  | [] => True
  | c :: s' =>
      (c = "["%char -> ~ In "]"%char s') /\ no_bracket_pair s'
  end.

(** What follows the first closing bracket. *)
Fixpoint after_close (s : str) : option str :=
  match s with
  | [] => None
  | c :: s' => if Regex.is_char "]" c then Some s' else after_close s'
  end.

Fixpoint ends_in_space (s : str) : bool :=
  match s with
  | [] => false
  | [c] => isspace c
  | _ :: s' => ends_in_space s'
  end.

(** The words [ws], each with a space before it. *)
Definition spaced (ws : list str) : str :=
  concat (map (fun w => " "%char :: w) ws).

(* ===================================================================== *)
(** * Properties *)
(* ===================================================================== *)

(** ** The string model on small inputs *)

Example re_split_inner_run :
  re_split_sentences (lit "a..b!") = [lit "a"; lit "b"; []].
Proof. reflexivity. Qed.

Example re_split_leading_run :
  re_split_sentences (lit ".a") = [[]; lit "a"].
Proof. reflexivity. Qed.

Example split_words : split (lit "  a b  c ") = [lit "a"; lit "b"; lit "c"].
Proof. reflexivity. Qed.

Example strip_both_ends : strip (lit "  a b ") = lit "a b".
Proof. reflexivity. Qed.

Example heading_on_second_line :
  heading_match (lit "intro" ++ [newline] ++ lit "Chapter  12 The End")
  = Some 6%nat.
Proof. reflexivity. Qed.

Example heading_needs_line_start :
  heading_match (lit "see 12. apples") = None
  /\ heading_match (lit "x" ++ [newline] ++ lit "12. apples") = Some 2%nat.
Proof. split; reflexivity. Qed.

Example title_of_heading :
  extract_chapter_title
    (lit "Chapter 1" ++ [newline] ++ lit " Foo " ++ [newline] ++ lit "12") 0
  = lit "Chapter 1 Foo".
Proof. reflexivity. Qed.

Example int_truncates : int_of_Q (-3 # 2) = -1 /\ int_of_Q (3 # 2) = 1.
Proof. split; reflexivity. Qed.

Example output_name : rsplit_dot_head (lit "a.b.pdf") = lit "a.b".
Proof. reflexivity. Qed.

(** ** Effects: inversion of a successful [bind] *)

Lemma bind_ok_inv {S A B} (m : M S A) (k : A -> M S B) (s s' : S) (b : B) :
  bind m k s = (Ok b, s') ->
  exists a s1, m s = (Ok a, s1) /\ k a s1 = (Ok b, s').
Proof.
  unfold bind. destruct (m s) as [[a | e] s1]; intros H.
  - exists a, s1. split; [reflexivity | exact H].
  - discriminate H.
Qed.

Lemma bind_ok {S A B} (m : M S A) (k : A -> M S B) (s s1 : S) (a : A) :
  m s = (Ok a, s1) -> bind m k s = k a s1.
Proof. unfold bind. intros ->. reflexivity. Qed.

Lemma bind_raise {S A B} (m : M S A) (k : A -> M S B) (s s1 : S) (e : str) :
  m s = (Raise e, s1) -> bind m k s = (Raise e, s1).
Proof. unfold bind. intros ->. reflexivity. Qed.

Lemma bind_assoc {S A B C} (m : M S A) (f : A -> M S B) (g : B -> M S C)
    (s : S) :
  bind (bind m f) g s = bind m (fun a => bind (f a) g) s.
Proof. unfold bind. destruct (m s) as [[a | e] s1]; reflexivity. Qed.


(** ** Page classifier *)

(** C9: a page whose [word_count] is below 50 is dropped with reason
    "Too few words" (the spec's "too few words", up to case) and
    confidence 0.9, whatever the filter configuration and whatever the
    scoring rules after it would compute: the answer does not depend
    on the regular-expression engine the later rules use. *)
Theorem analyze_page_too_few_words :
  forall (count_matches : str -> str -> Z) (toc_line : str -> bool)
         (page : PageContent) (config : gmap string bool),
    word_count page < 50 ->
    analyze_page count_matches toc_line page config
    = {| should_skip := true; reason := lit "Too few words";
         confidence := 9 # 10 |}
    /\ lower (reason (analyze_page count_matches toc_line page config))
       = lit "too few words".
Proof.
  intros cm tl page config Hwc.
  assert (E : analyze_page cm tl page config
              = {| should_skip := true; reason := lit "Too few words";
                   confidence := 9 # 10 |}).
  { unfold analyze_page.
    destruct (word_count page <? 50) eqn:Hlt; [reflexivity |].
    apply Z.ltb_ge in Hlt. lia. }
  split; [exact E | rewrite E; reflexivity].
Qed.

Lemma analyze_page_too_few_words_witness :
  word_count short_page < 50
  /\ analyze_page (fun _ _ => 7) (fun _ => true) short_page ∅
     = {| should_skip := true; reason := lit "Too few words";
          confidence := 9 # 10 |}.
Proof.
  split; [vm_compute; reflexivity |].
  apply (analyze_page_too_few_words (fun _ _ => 7) (fun _ => true)
           short_page ∅).
  vm_compute; reflexivity.
Defined.

(** ** Text chunker *)

(** C1: on the text "aaa.b" with a limit of 4 the chunker returns the
    one chunk "aaa. b": six characters, two words.  The test
    [len(current_chunk) + len(sentence) > max_chunk_size] leaves out
    the two characters of the separator that joins the sentences. *)
Theorem chunk_exceeds_limit :
  chunk_text_for_tts (lit "aaa.b") 4 = [lit "aaa. b"]
  /\ ~ Forall (within_limit 4) (chunk_text_for_tts (lit "aaa.b") 4).
Proof.
  split; [vm_compute; reflexivity |].
  intros H. apply Forall_inv in H. destruct H as [H | [H _]].
  - vm_compute in H. exact (H eq_refl).
  - vm_compute in H. discriminate H.
Qed.

(** *** What the chunks preserve *)

Section Fields.
Variable sep : ascii -> bool.

Lemma cons_run_app (w : str) (l m : list str) :
  cons_run w (l ++ m) = cons_run w l ++ m.
Proof. destruct w; reflexivity. Qed.

Lemma fields_cons_sep (c : ascii) (s : str) :
  sep c = true -> fields sep (c :: s) = fields sep s.
Proof.
  intros Hc. unfold fields. simpl.
  destruct (fields_aux sep s) as [w ws]. rewrite Hc. reflexivity.
Qed.

Lemma fields_aux_app_sep (a b : str) (c : ascii) :
  sep c = true ->
  fields_aux sep (a ++ c :: b)
  = (fst (fields_aux sep a), snd (fields_aux sep a) ++ fields sep b).
Proof.
  intros Hc. induction a as [| x a IH].
  - simpl. unfold fields. destruct (fields_aux sep b) as [w ws].
    rewrite Hc. reflexivity.
  - simpl. rewrite IH. destruct (fields_aux sep a) as [w ws]. simpl.
    destruct (sep x); simpl; [rewrite cons_run_app |]; reflexivity.
Qed.

Lemma fields_app_sep (a b : str) (c : ascii) :
  sep c = true ->
  fields sep (a ++ c :: b) = fields sep a ++ fields sep b.
Proof.
  intros Hc. unfold fields at 1 2. rewrite fields_aux_app_sep by exact Hc.
  destruct (fields_aux sep a) as [w ws]. simpl. apply cons_run_app.
Qed.

End Fields.

Lemma fields_as_aux (sep : ascii -> bool) (s : str) :
  fields sep s
  = cons_run (fst (fields_aux sep s)) (snd (fields_aux sep s)).
Proof. unfold fields. destruct (fields_aux sep s); reflexivity. Qed.

Lemma fields_aux_cons (sep : ascii -> bool) (c : ascii) (s : str) :
  fields_aux sep (c :: s)
  = if sep c then ([], fields sep s)
    else (c :: fst (fields_aux sep s), snd (fields_aux sep s)).
Proof.
  rewrite fields_as_aux. simpl.
  destruct (fields_aux sep s); reflexivity.
Qed.

Lemma concat_map_cons_run (sep : ascii -> bool) (w : str) (ws : list str) :
  concat (map (fields sep) (cons_run w ws))
  = fields sep w ++ concat (map (fields sep) ws).
Proof. destruct w; reflexivity. Qed.

Lemma fields_aux_refine (sep1 sep2 : ascii -> bool) (s : str) :
  (forall c, sep1 c = true -> sep2 c = true) ->
  fields_aux sep2 s
  = (fst (fields_aux sep2 (fst (fields_aux sep1 s))),
     snd (fields_aux sep2 (fst (fields_aux sep1 s)))
       ++ concat (map (fields sep2) (snd (fields_aux sep1 s)))).
Proof.
  intros Hsub. induction s as [| c s IH]; [reflexivity |].
  rewrite (fields_aux_cons sep1), (fields_aux_cons sep2).
  destruct (sep1 c) eqn:H1.
  - rewrite (Hsub c H1). cbn [fst snd fields_aux app].
    rewrite (fields_as_aux sep1), concat_map_cons_run.
    rewrite (fields_as_aux sep2 s), IH. cbn [fst snd].
    rewrite cons_run_app, <- fields_as_aux. reflexivity.
  - cbn [fst snd]. rewrite (fields_aux_cons sep2).
    destruct (sep2 c); cbn [fst snd app].
    + rewrite (fields_as_aux sep2 s), IH. cbn [fst snd].
      rewrite cons_run_app, <- fields_as_aux. reflexivity.
    + rewrite IH. reflexivity.
Qed.

(** Splitting on a coarser class first changes nothing. *)
Lemma fields_refine (sep1 sep2 : ascii -> bool) (s : str) :
  (forall c, sep1 c = true -> sep2 c = true) ->
  concat (map (fields sep2) (fields sep1 s)) = fields sep2 s.
Proof.
  intros Hsub.
  rewrite (fields_as_aux sep1), concat_map_cons_run.
  rewrite (fields_as_aux sep2 s), (fields_aux_refine sep1 sep2 s Hsub).
  cbn [fst snd]. rewrite cons_run_app, <- fields_as_aux. reflexivity.
Qed.

Lemma isspace_separator (c : ascii) : isspace c = true -> is_separator c = true.
Proof. unfold is_separator. intros ->. reflexivity. Qed.

Lemma terminator_separator (c : ascii) :
  is_terminator c = true -> is_separator c = true.
Proof. unfold is_separator. intros ->. apply orb_true_r. Qed.

Lemma tokens_split (s : str) : concat (map tokens (split s)) = tokens s.
Proof. apply fields_refine. exact isspace_separator. Qed.

Lemma tokens_lstrip (s : str) : tokens (lstrip s) = tokens s.
Proof.
  induction s as [| c s IH]; [reflexivity |]. simpl.
  destruct (isspace c) eqn:Hc; [| reflexivity].
  rewrite IH. symmetry. apply fields_cons_sep.
  apply isspace_separator. exact Hc.
Qed.

Lemma fields_aux_rstrip (s : str) :
  fields_aux is_separator (rstrip s) = fields_aux is_separator s.
Proof.
  induction s as [| c s IH]; [reflexivity |]. simpl.
  destruct (rstrip s) as [| x r].
  - rewrite <- IH. simpl.
    destruct (isspace c) eqn:Hc; simpl.
    + rewrite (isspace_separator c Hc). reflexivity.
    + reflexivity.
  - rewrite <- IH. reflexivity.
Qed.

Lemma tokens_strip (s : str) : tokens (strip s) = tokens s.
Proof.
  unfold strip, tokens, fields. rewrite fields_aux_rstrip.
  apply tokens_lstrip.
Qed.

(** The pieces of [re.split] hold the words of the text. *)
Lemma re_split_go_tokens (s : str) :
  (exists p ps,
      re_split_go false s = p :: ps
      /\ fields_aux is_separator s
         = (fst (fields_aux is_separator p),
            snd (fields_aux is_separator p) ++ concat (map tokens ps)))
  /\ concat (map tokens (re_split_go true s)) = tokens s.
Proof.
  induction s as [| c s [(p & ps & Ego & Eaux) IHt]].
  - split; [exists [], []; split; reflexivity | reflexivity].
  - simpl. destruct (is_terminator c) eqn:Hc.
    + pose proof (terminator_separator c Hc) as Hsep. split.
      * exists [], (re_split_go true s). split; [reflexivity |].
        rewrite Hsep. simpl. rewrite IHt. unfold tokens, fields.
        destruct (fields_aux is_separator s); reflexivity.
      * rewrite IHt. symmetry. apply fields_cons_sep. exact Hsep.
    + rewrite Ego.
      assert (E : fields_aux is_separator (c :: s)
                  = (fst (fields_aux is_separator (c :: p)),
                     snd (fields_aux is_separator (c :: p))
                       ++ concat (map tokens ps))).
      { simpl. rewrite Eaux.
        destruct (fields_aux is_separator p) as [w ws]. simpl.
        destruct (is_separator c); simpl;
          [rewrite cons_run_app |]; reflexivity. }
      split.
      * exists (c :: p), ps. split; [reflexivity | exact E].
      * cbn [map concat]. unfold tokens at 3. unfold fields. rewrite E.
        unfold tokens at 1. unfold fields.
        destruct (fields_aux is_separator (c :: p)) as [w ws].
        simpl. rewrite cons_run_app. reflexivity.
Qed.

Lemma re_split_tokens (s : str) :
  concat (map tokens (re_split_sentences s)) = tokens s.
Proof.
  destruct (re_split_go_tokens s) as [(p & ps & Ego & Eaux) _].
  unfold re_split_sentences. rewrite Ego. cbn [map concat].
  unfold tokens at 3. unfold fields. rewrite Eaux.
  unfold tokens at 1. unfold fields.
  destruct (fields_aux is_separator p) as [w ws].
  simpl. rewrite cons_run_app. reflexivity.
Qed.

Lemma state_tokens_close (chunks : list str) (cur next : str) :
  state_tokens (chunks ++ [strip cur], next)
  = state_tokens (chunks, cur) ++ tokens next.
Proof.
  unfold state_tokens. simpl. rewrite map_app, concat_app. simpl.
  rewrite tokens_strip, app_nil_r, <- app_assoc. reflexivity.
Qed.

Lemma truthy_false (s : str) : truthy s = false -> s = [].
Proof. destruct s; [reflexivity | discriminate]. Qed.

Lemma add_word_tokens (max_chunk_size : Z) (st : chunk_state) (word : str) :
  state_tokens (add_word max_chunk_size st word)
  = state_tokens st ++ tokens word.
Proof.
  destruct st as [chunks cur]. unfold add_word.
  destruct (len cur + len word >? max_chunk_size).
  - destruct (truthy cur) eqn:Hcur.
    + apply state_tokens_close.
    + apply truthy_false in Hcur. subst cur.
      unfold state_tokens. simpl. rewrite map_app, concat_app. simpl.
      rewrite !app_nil_r. reflexivity.
  - destruct (truthy cur) eqn:Hcur.
    + unfold state_tokens. simpl.
      change (cur ++ lit " " ++ word) with (cur ++ " "%char :: word).
      unfold tokens at 2. rewrite fields_app_sep by reflexivity.
      rewrite app_assoc. reflexivity.
    + apply truthy_false in Hcur. subst cur.
      unfold state_tokens. simpl. rewrite app_nil_r. reflexivity.
Qed.

Lemma add_words_tokens (max_chunk_size : Z) (ws : list str) :
  forall st : chunk_state,
    state_tokens (fold_left (add_word max_chunk_size) ws st)
    = state_tokens st ++ concat (map tokens ws).
Proof.
  induction ws as [| w ws IH]; intros st; cbn [fold_left map concat].
  - rewrite app_nil_r. reflexivity.
  - rewrite IH, add_word_tokens, <- app_assoc. reflexivity.
Qed.

Lemma add_sentence_tokens (max_chunk_size : Z) (st : chunk_state)
    (sentence : str) :
  state_tokens (add_sentence max_chunk_size st sentence)
  = state_tokens st ++ tokens sentence.
Proof.
  unfold add_sentence. rewrite <- (tokens_strip sentence).
  destruct (truthy (strip sentence)) eqn:Hs; simpl.
  2:{ apply truthy_false in Hs. rewrite Hs. simpl.
      rewrite app_nil_r. reflexivity. }
  destruct st as [chunks cur].
  destruct (len cur + len (strip sentence) >? max_chunk_size).
  - destruct (truthy cur) eqn:Hcur.
    + apply state_tokens_close.
    + rewrite add_words_tokens, tokens_split. reflexivity.
  - destruct (truthy cur) eqn:Hcur.
    + unfold state_tokens. simpl.
      change (cur ++ lit ". " ++ strip sentence)
        with (cur ++ "."%char :: " "%char :: strip sentence).
      unfold tokens at 2. rewrite fields_app_sep by reflexivity.
      rewrite (fields_cons_sep is_separator " "%char) by reflexivity.
      rewrite app_assoc. reflexivity.
    + apply truthy_false in Hcur. subst cur.
      unfold state_tokens. simpl. rewrite app_nil_r. reflexivity.
Qed.

Lemma add_sentences_tokens (max_chunk_size : Z) (ss : list str) :
  forall st : chunk_state,
    state_tokens (fold_left (add_sentence max_chunk_size) ss st)
    = state_tokens st ++ concat (map tokens ss).
Proof.
  induction ss as [| s ss IH]; intros st; cbn [fold_left map concat].
  - rewrite app_nil_r. reflexivity.
  - rewrite IH, add_sentence_tokens, <- app_assoc. reflexivity.
Qed.

(** C2, as amended: the chunks hold the words of the input text, each
    once and in input order.  Reading every chunk as its sequence of
    words (maximal runs of characters other than whitespace and the
    terminators [. ! ?]) and putting these sequences one after another
    gives the sequence of words of the text.  The terminators themselves
    are not kept: a run of them becomes ". " inside a chunk and nothing
    at the end of one. *)
Theorem chunks_preserve_words (text : str) (max_chunk_size : Z) :
  concat (map tokens (chunk_text_for_tts text max_chunk_size)) = tokens text.
Proof.
  unfold chunk_text_for_tts.
  pose proof (add_sentences_tokens max_chunk_size (re_split_sentences text)
                ([], [])) as H.
  destruct (fold_left (add_sentence max_chunk_size)
              (re_split_sentences text) ([], [])) as [chunks cur].
  rewrite re_split_tokens in H. simpl in H. rewrite <- H.
  unfold state_tokens. simpl.
  destruct (truthy cur) eqn:Hcur.
  - rewrite map_app, concat_app. simpl.
    rewrite tokens_strip, app_nil_r. reflexivity.
  - apply truthy_false in Hcur. subst cur. simpl.
    rewrite app_nil_r. reflexivity.
Qed.

(** C2, as stated, fails: "Stop! Go." comes back as the one chunk
    "Stop. Go", which differs from the input by more than whitespace. *)
Lemma chunks_lose_punctuation :
  chunk_text_for_tts (lit "Stop! Go.") 4000 = [lit "Stop. Go"]
  /\ normalize_ws (concat (chunk_text_for_tts (lit "Stop! Go.") 4000))
     <> normalize_ws (lit "Stop! Go.").
Proof.
  split; [vm_compute; reflexivity |]. vm_compute. discriminate.
Qed.

(** ** Chapter segmenter *)

Lemma strongly_sorted_snoc {A} (R : A -> A -> Prop) (l : list A) (x : A) :
  StronglySorted R (l ++ [x]) ->
  StronglySorted R l /\ Forall (fun y => R y x) l.
Proof.
  induction l as [| a l IH]; simpl; intros H.
  - split; constructor.
  - apply StronglySorted_inv in H. destruct H as [Hs Hf].
    destruct (IH Hs) as [Hl Hx].
    apply List.Forall_app in Hf. destruct Hf as [Hfl Hfx].
    split.
    + constructor; assumption.
    + constructor; [ exact (Forall_inv Hfx) | assumption ].
Qed.

Lemma strongly_sorted_snoc_intro {A} (R : A -> A -> Prop) (l : list A) (x : A) :
  StronglySorted R l -> Forall (fun y => R y x) l ->
  StronglySorted R (l ++ [x]).
Proof.
  induction l as [| a l IH]; simpl; intros Hs Hf.
  - constructor; constructor.
  - apply StronglySorted_inv in Hs. destruct Hs as [Hs Ha].
    constructor.
    + apply IH; [assumption | exact (Forall_inv_tail Hf)].
    + apply List.Forall_app. split; [assumption |].
      constructor; [exact (Forall_inv Hf) | constructor].
Qed.

Lemma last_page_number_snoc (pages : list PageContent) (p : PageContent) :
  last_page_number (pages ++ [p]) = page_number p.
Proof. unfold last_page_number. rewrite rev_unit. reflexivity. Qed.

Lemma last_page_number_in (pages : list PageContent) :
  pages <> [] ->
  In (last_page_number pages) (map page_number pages).
Proof.
  intros Hne. destruct (exists_last Hne) as [l [q ->]].
  rewrite last_page_number_snoc, map_app, in_app_iff.
  right; left; reflexivity.
Qed.

Lemma last_page_number_app (pre rest : list PageContent) :
  rest <> [] -> last_page_number (pre ++ rest) = last_page_number rest.
Proof.
  intros Hne. destruct (exists_last Hne) as [l [q ->]].
  rewrite app_assoc, !last_page_number_snoc. reflexivity.
Qed.

Lemma detect_step_inv (seen : list PageContent) (st : detect_state)
    (p : PageContent) :
  detect_inv seen st ->
  Forall (fun n => n < page_number p) (map page_number seen) ->
  detect_inv (seen ++ [p]) (detect_step st p).
Proof.
  intros (Hr & Hs & Hc) Hlt.
  destruct st as [sections current]. simpl in *.
  assert (Hne : seen ++ [p] <> []) by (destruct seen; discriminate).
  unfold detect_step, detect_inv.
  destruct (heading_match (text p)) as [start |].
  - destruct current as [cur |]; simpl.
    + destruct Hc as (Hseen & Hlo & Hbefore).
      assert (Hcur : start_page cur < page_number p).
      { pose proof (last_page_number_in seen Hseen) as Hin.
        rewrite List.Forall_forall in Hlt. specialize (Hlt _ Hin). lia. }
      repeat split.
      * apply List.Forall_app. split; [assumption |].
        constructor; [unfold range_ok; simpl; lia | constructor].
      * apply strongly_sorted_snoc_intro; [assumption |].
        eapply List.Forall_impl; [| exact Hbefore].
        intros a Ha. unfold precedes in *. simpl. exact Ha.
      * assumption.
      * rewrite last_page_number_snoc. lia.
      * apply List.Forall_app. split.
        -- eapply List.Forall_impl; [| exact Hbefore].
           intros a Ha. unfold precedes in *. simpl. lia.
        -- constructor; [unfold precedes; simpl; lia | constructor].
    + subst sections. simpl. repeat split; try constructor.
      * assumption.
      * rewrite last_page_number_snoc. lia.
  - destruct current as [cur |]; simpl.
    + destruct Hc as (Hseen & Hlo & Hbefore).
      repeat split; try assumption.
      * rewrite last_page_number_snoc.
        pose proof (last_page_number_in seen Hseen) as Hin.
        rewrite List.Forall_forall in Hlt. specialize (Hlt _ Hin). lia.
    + repeat split; assumption.
Qed.

Lemma detect_fold_inv (pages : list PageContent) :
  ascending pages ->
  detect_inv pages (fold_left detect_step pages ([], None)).
Proof.
  induction pages as [| p pages IH] using rev_ind; intros Hasc.
  - simpl. repeat split; constructor.
  - rewrite fold_left_app. simpl.
    unfold ascending in Hasc. rewrite map_app in Hasc. simpl in Hasc.
    apply strongly_sorted_snoc in Hasc. destruct Hasc as [Hasc Hlt].
    apply detect_step_inv; [apply IH; exact Hasc | exact Hlt].
Qed.

(** C7: on pages with strictly ascending page numbers the sections
    [detect_chapters] returns have [start_page <= end_page], every
    section ends before each later one starts, and the start pages are
    strictly ascending. *)
Theorem detect_chapters_ranges (pages : list PageContent) :
  ascending pages ->
  Forall range_ok (detect_chapters pages)
  /\ StronglySorted precedes (detect_chapters pages)
  /\ StronglySorted (fun a b => start_page a < start_page b)
       (detect_chapters pages).
Proof.
  intros Hasc.
  assert (H : Forall range_ok (detect_chapters pages)
              /\ StronglySorted precedes (detect_chapters pages)).
  { pose proof (detect_fold_inv pages Hasc) as Hinv.
    unfold detect_chapters.
    destruct (fold_left detect_step pages ([], None)) as [sections current].
    destruct Hinv as (Hr & Hs & Hc). simpl in *.
    destruct current as [cur |]; [| split; assumption].
    destruct Hc as (Hseen & Hlo & Hbefore). split.
    - apply List.Forall_app. split; [assumption |].
      constructor; [unfold range_ok; simpl; lia | constructor].
    - apply strongly_sorted_snoc_intro; [assumption |].
      eapply List.Forall_impl; [| exact Hbefore].
      intros a Ha. unfold precedes in *. simpl. exact Ha. }
  destruct H as [Hr Hs]. repeat split; try assumption.
  revert Hr. induction Hs as [| a l Hs IH Ha]; intros Hr.
  - constructor.
  - constructor.
    + apply IH. exact (Forall_inv_tail Hr).
    + apply Forall_inv in Hr. eapply List.Forall_impl; [| exact Ha].
      intros b Hb. unfold precedes, range_ok in *. lia.
Qed.

Lemma detect_chapters_ranges_witness :
  ascending (preface ++ chapters)
  /\ Forall range_ok (detect_chapters (preface ++ chapters))
  /\ StronglySorted precedes (detect_chapters (preface ++ chapters))
  /\ map (fun s => (start_page s, end_page s))
       (detect_chapters (preface ++ chapters)) = [(2, 4); (5, 5)].
Proof.
  assert (Hasc : ascending (preface ++ chapters)).
  { unfold ascending. simpl. repeat constructor. }
  destruct (detect_chapters_ranges (preface ++ chapters) Hasc)
    as (Hr & Hs & _).
  split; [exact Hasc |]. split; [exact Hr |]. split; [exact Hs |].
  vm_compute. reflexivity.
Defined.

(** *** Pages before the first heading *)

Lemma detect_step_no_heading (p : PageContent) :
  no_heading p -> detect_step ([], None) p = ([], None).
Proof. unfold no_heading, detect_step. intros ->. reflexivity. Qed.

Lemma detect_fold_no_heading (pre : list PageContent) :
  Forall no_heading pre ->
  fold_left detect_step pre ([], None) = ([], None).
Proof.
  induction 1 as [| p pre Hp _ IH]; cbn [fold_left]; [reflexivity |].
  rewrite detect_step_no_heading by exact Hp. exact IH.
Qed.

Lemma detect_chapters_skips (pre rest : list PageContent) :
  Forall no_heading pre ->
  detect_chapters (pre ++ rest) = detect_chapters rest.
Proof.
  intros Hpre. unfold detect_chapters.
  rewrite fold_left_app, detect_fold_no_heading by exact Hpre.
  destruct rest as [| q rest].
  - reflexivity.
  - rewrite last_page_number_app by discriminate. reflexivity.
Qed.

Lemma collected_open (sections : list BookSection) (cur : BookSection) :
  collected (sections, Some cur)
  = concat (map content sections) ++ content cur.
Proof.
  unfold collected, state_sections. simpl.
  rewrite map_app, concat_app. simpl. rewrite app_nil_r. reflexivity.
Qed.

Lemma detect_fold_collects (pages : list PageContent) :
  forall (sections : list BookSection) (cur : BookSection),
    collected (fold_left detect_step pages (sections, Some cur))
    = collected (sections, Some cur) ++ flat_map page_text pages.
Proof.
  induction pages as [| p pages IH]; intros sections cur; cbn [fold_left].
  - simpl. rewrite app_nil_r. reflexivity.
  - unfold detect_step at 2.
    destruct (heading_match (text p)) as [start |]; cbn [option_map];
      rewrite IH, !collected_open; unfold page_text; simpl.
    + rewrite map_app, concat_app. simpl.
      rewrite app_nil_r, <- !app_assoc. reflexivity.
    + rewrite <- !app_assoc. reflexivity.
Qed.

Lemma detect_fold_from_first_heading (pages : list PageContent) :
  collected (fold_left detect_step pages ([], None))
  = flat_map page_text (from_first_heading pages).
Proof.
  induction pages as [| p pages IH]; cbn [fold_left from_first_heading];
    [reflexivity |].
  unfold detect_step at 2.
  destruct (heading_match (text p)) as [start |] eqn:Hm; cbn [option_map].
  - rewrite detect_fold_collects, collected_open. reflexivity.
  - exact IH.
Qed.

Lemma detect_chapters_fields (pages : list PageContent) :
  map content (detect_chapters pages)
  = map content (state_sections (fold_left detect_step pages ([], None)))
  /\ map start_page (detect_chapters pages)
     = map start_page
         (state_sections (fold_left detect_step pages ([], None))).
Proof.
  unfold detect_chapters, state_sections.
  destruct (fold_left detect_step pages ([], None)) as [sections current].
  destruct current as [cur |]; simpl.
  - rewrite !map_app. split; reflexivity.
  - rewrite app_nil_r. split; reflexivity.
Qed.

Lemma detect_chapters_content (pages : list PageContent) :
  concat (map content (detect_chapters pages))
  = flat_map page_text (from_first_heading pages).
Proof.
  rewrite (proj1 (detect_chapters_fields pages)).
  apply detect_fold_from_first_heading.
Qed.

(** Every section starts on a page of the list. *)
Lemma detect_step_starts (seen : list PageContent) (st : detect_state)
    (p : PageContent) :
  Forall (fun s => In (start_page s) (map page_number seen))
    (state_sections st) ->
  Forall (fun s => In (start_page s) (map page_number (seen ++ [p])))
    (state_sections (detect_step st p)).
Proof.
  intros H.
  assert (Hw : Forall
                 (fun s => In (start_page s) (map page_number (seen ++ [p])))
                 (state_sections st)).
  { eapply List.Forall_impl; [| exact H]. intros s Hs.
    rewrite map_app, in_app_iff. left; exact Hs. }
  assert (Hp : In (page_number p) (map page_number (seen ++ [p]))).
  { rewrite map_app, in_app_iff. right; left; reflexivity. }
  clear H. destruct st as [sections current].
  unfold detect_step, state_sections in *. simpl in *.
  apply List.Forall_app in Hw. destruct Hw as [Hsec Hcur].
  destruct (heading_match (text p)) as [start |]; simpl.
  - apply List.Forall_app. split.
    + destruct current as [cur |]; [| assumption].
      apply List.Forall_app. split; [assumption |].
      constructor; [exact (Forall_inv Hcur) | constructor].
    + constructor; [exact Hp | constructor].
  - apply List.Forall_app. split; [assumption |].
    destruct current as [cur |]; simpl; [| constructor].
    constructor; [exact (Forall_inv Hcur) | constructor].
Qed.

Lemma detect_chapters_starts (pages : list PageContent) :
  Forall (fun s => In (start_page s) (map page_number pages))
    (detect_chapters pages).
Proof.
  assert (H : Forall (fun s => In (start_page s) (map page_number pages))
                (state_sections (fold_left detect_step pages ([], None)))).
  { induction pages as [| p pages IH] using rev_ind.
    - constructor.
    - rewrite fold_left_app. simpl. apply detect_step_starts. exact IH. }
  rewrite List.Forall_forall in *. intros s Hs.
  pose proof (proj2 (detect_chapters_fields pages)) as E.
  apply (in_map start_page) in Hs. rewrite E in Hs.
  apply in_map_iff in Hs. destruct Hs as (s' & Es & Hs').
  rewrite <- Es. apply H. exact Hs'.
Qed.

Lemma ascending_app (pre rest : list PageContent) :
  ascending (pre ++ rest) ->
  forall p q, In p pre -> In q (map page_number rest) -> page_number p < q.
Proof.
  unfold ascending. induction pre as [| a pre IH]; simpl; intros H p q Hp Hq.
  - contradiction.
  - apply StronglySorted_inv in H. destruct H as [Hs Ha].
    destruct Hp as [-> | Hp].
    + rewrite List.Forall_forall in Ha. apply Ha.
      rewrite map_app, in_app_iff. right; exact Hq.
    + apply (IH Hs p q Hp Hq).
Qed.

(** C10, as amended: pages before the first page that matches a
    heading pattern leave no mark on the sections' contents, and none
    on the page ranges when the page numbers ascend.  For every list
    of pages, the sections are those of the list without these pages;
    the contents of the sections, put together, are the full texts of
    the pages from the first heading page on (the text that stands
    before the heading on that page included); every section starts
    on one of those pages.  When the page numbers are strictly
    ascending, each skipped page lies before every section's start
    page, hence outside every page range. *)
Theorem detect_chapters_before_first_heading
    (pre rest : list PageContent) :
  Forall no_heading pre ->
  detect_chapters (pre ++ rest) = detect_chapters rest
  /\ concat (map content (detect_chapters (pre ++ rest)))
     = flat_map page_text (from_first_heading rest)
  /\ Forall (fun s => In (start_page s) (map page_number rest))
       (detect_chapters (pre ++ rest))
  /\ (ascending (pre ++ rest) ->
      forall p s, In p pre -> In s (detect_chapters (pre ++ rest)) ->
                  page_number p < start_page s).
Proof.
  intros Hpre.
  pose proof (detect_chapters_skips pre rest Hpre) as E.
  split; [exact E |]. split; [| split].
  - rewrite E. apply detect_chapters_content.
  - rewrite E. apply detect_chapters_starts.
  - intros Hasc p s Hp Hs. rewrite E in Hs.
    pose proof (detect_chapters_starts rest) as Hst.
    rewrite List.Forall_forall in Hst.
    apply (ascending_app pre rest Hasc p _ Hp (Hst s Hs)).
Qed.

Lemma detect_chapters_before_first_heading_witness :
  Forall no_heading preface
  /\ ascending (preface ++ chapters)
  /\ detect_chapters (preface ++ chapters) = detect_chapters chapters
  /\ forall s, In s (detect_chapters (preface ++ chapters)) ->
               1 < start_page s.
Proof.
  assert (Hpre : Forall no_heading preface).
  { constructor; [reflexivity | constructor]. }
  assert (Hasc : ascending (preface ++ chapters)).
  { unfold ascending. simpl. repeat constructor. }
  destruct (detect_chapters_before_first_heading preface chapters Hpre)
    as (E & _ & _ & Hlt).
  repeat split; try assumption.
  intros s Hs. apply (Hlt Hasc (page 1 (lit "Preface")) s); [| exact Hs].
  left; reflexivity.
Defined.

(** C10, as stated, fails: the claim is about every list of pages, and
    the end of a page range is computed from page numbers.  A page
    numbered 5 without a heading comes first, then a chapter that
    starts on the page numbered 2 and runs to the page numbered 7: the
    one section has the page range 2..7, and the number of the skipped
    page lies inside it. *)
Lemma detect_chapters_range_covers_skipped_page :
  Forall no_heading late_preface
  /\ map (fun s => (start_page s, end_page s))
       (detect_chapters (late_preface ++ early_chapter))
     = [(2, 7)]
  /\ ~ (forall p s,
          In p late_preface ->
          In s (detect_chapters (late_preface ++ early_chapter)) ->
          page_number p < start_page s \/ end_page s < page_number p).
Proof.
  split; [constructor; [reflexivity | constructor] |].
  split; [vm_compute; reflexivity |].
  intros H.
  assert (Hs : exists s,
             In s (detect_chapters (late_preface ++ early_chapter))
             /\ start_page s = 2 /\ end_page s = 7).
  { vm_compute. eexists. split; [left; reflexivity |].
    split; reflexivity. }
  destruct Hs as (s & Hin & Hstart & Hend).
  specialize (H (page 5 (lit "Preface")) s (or_introl eq_refl) Hin).
  rewrite Hstart, Hend in H. cbn in H. lia.
Qed.

(** ** Audio assembler *)

Lemma duration_ms_app (clip_ms : bytes -> Z) (a b : AudioSegment) :
  duration_ms clip_ms (a ++ b) = duration_ms clip_ms a + duration_ms clip_ms b.
Proof.
  induction a as [| p a IH]; simpl; [reflexivity |]. rewrite IH. lia.
Qed.

Lemma assembled_duration (clip_ms : bytes -> Z) (pause_ms : Z)
    (chunks : list AudioChunk) :
  duration_ms clip_ms (assembled pause_ms chunks)
  = payload_ms clip_ms chunks
    + Z.max 0 pause_ms * transitions chapter_break chunks.
Proof.
  induction chunks as [| a rest IH]; [simpl; lia |].
  cbn [assembled payload_ms fold_right transitions].
  change (fold_right (fun c acc => clip_ms (audio_data c) + acc) 0 rest)
    with (payload_ms clip_ms rest).
  change (duration_ms clip_ms (?x :: ?l))
    with (piece_ms clip_ms x + duration_ms clip_ms l).
  rewrite duration_ms_app, IH.
  destruct rest as [| b rest'].
  - simpl. lia.
  - destruct (chapter_break a b); simpl duration_ms; simpl piece_ms; lia.
Qed.

Section CombineFacts.
Context {S : Type}.
Variable mp3_ok : bytes -> bool.

Lemma combine_loop_ok (pause : Q) (cb : option (str -> Q -> M S unit))
    (total : Z) (rest : list AudioChunk) :
  forall (i : Z) (acc : AudioSegment) (w w' : S) (audio : AudioSegment),
    combine_loop mp3_ok total pause cb i rest acc w = (Ok audio, w') ->
    audio = acc ++ assembled (int_of_Q (pause * 1000)) rest.
Proof.
  induction rest as [| chunk rest IH]; intros i acc w w' audio H.
  - simpl in H. unfold ret in H. inversion H. rewrite app_nil_r. reflexivity.
  - cbn [combine_loop] in H.
    apply bind_ok_inv in H. destruct H as (u & w1 & _ & H).
    apply bind_ok_inv in H. destruct H as (seg & w2 & Hseg & H).
    unfold from_file in Hseg.
    destruct (mp3_ok (audio_data chunk)); [| discriminate Hseg].
    unfold ret in Hseg. inversion Hseg; subst seg w2. clear Hseg.
    apply IH in H. subst audio.
    cbn [assembled]. unfold chapter_break.
    destruct rest as [| next rest'].
    + simpl. rewrite <- app_assoc. reflexivity.
    + destruct (truthy_opt (chapter chunk) && truthy_opt (chapter next)
                && opt_neb (chapter chunk) (chapter next));
        unfold silent; rewrite <- !app_assoc; reflexivity.
Qed.

Lemma combine_loop_total (pause : Q) (total : Z) (rest : list AudioChunk) :
  Forall (fun c => mp3_ok (audio_data c) = true) rest ->
  forall (i : Z) (acc : AudioSegment) (w : S),
    combine_loop mp3_ok total pause None i rest acc w
    = (Ok (acc ++ assembled (int_of_Q (pause * 1000)) rest), w).
Proof.
  induction 1 as [| chunk rest Hc _ IH]; intros i acc w.
  - simpl. rewrite app_nil_r. reflexivity.
  - cbn [combine_loop]. unfold call_back, from_file. rewrite Hc.
    unfold bind at 1. unfold ret at 1. unfold bind at 1. unfold ret at 1.
    rewrite IH. cbn [assembled]. unfold chapter_break.
    destruct rest as [| next rest'].
    + simpl. rewrite <- app_assoc. reflexivity.
    + destruct (truthy_opt (chapter chunk) && truthy_opt (chapter next)
                && opt_neb (chapter chunk) (chapter next));
        unfold silent; rewrite <- !app_assoc; reflexivity.
Qed.

End CombineFacts.

(** C8, as amended: [combine_audio_chunks] appends the payloads in
    input order and puts a silence of [int(chapter_pause_duration *
    1000)] milliseconds after every chunk whose chapter label and the
    next chunk's label are both present, non-empty and different.
    Whenever it returns, it returns that sequence; it returns when
    every payload decodes and no callback raises; and the length of the
    result is the sum of the payload lengths plus the silence length (0
    if negative) times the number of such chapter breaks. *)
Theorem combine_audio_chunks_assembles :
  forall (S : Type) (mp3_ok : bytes -> bool) (clip_ms : bytes -> Z)
         (chunks : list AudioChunk) (pause : Q),
    let pause_ms := int_of_Q (pause * 1000) in
    (forall (cb : option (str -> Q -> M S unit)) (w w' : S)
            (audio : AudioSegment),
        combine_audio_chunks mp3_ok chunks pause cb w = (Ok audio, w') ->
        audio = assembled pause_ms chunks)
    /\ (Forall (fun c => mp3_ok (audio_data c) = true) chunks ->
        forall w : S,
          combine_audio_chunks mp3_ok chunks pause None w
          = (Ok (assembled pause_ms chunks), w))
    /\ duration_ms clip_ms (assembled pause_ms chunks)
       = payload_ms clip_ms chunks
         + Z.max 0 pause_ms * transitions chapter_break chunks.
Proof.
  intros S mp3_ok clip_ms chunks pause pause_ms. repeat split.
  - intros cb w w' audio H. unfold combine_audio_chunks in H.
    apply bind_ok_inv in H. destruct H as (a & w1 & Hloop & H).
    apply bind_ok_inv in H. destruct H as (u & w2 & _ & H).
    unfold ret in H. inversion H; subst a w2.
    apply combine_loop_ok in Hloop. exact Hloop.
  - intros Hok w. unfold combine_audio_chunks.
    rewrite (bind_ok _ _ _ _ _
               (combine_loop_total mp3_ok pause _ chunks Hok 0 empty w)).
    reflexivity.
  - apply assembled_duration.
Qed.

Lemma combine_audio_chunks_assembles_witness :
  Forall (fun c : AudioChunk => true = true) three_chunks
  /\ combine_audio_chunks (fun _ => true) three_chunks 2 None tt
     = (Ok [Clip [Byte.x01]; Clip [Byte.x02]; Silence 2000; Clip [Byte.x03]],
        tt)
  /\ duration_ms (fun _ => 1500) (assembled 2000 three_chunks)
     = 3 * 1500 + 2000 * 1.
Proof.
  assert (Hok : Forall (fun c : AudioChunk => true = true) three_chunks).
  { repeat constructor. }
  destruct (combine_audio_chunks_assembles unit (fun _ => true)
              (fun _ => 1500) three_chunks 2) as (Hsound & Htotal & Hms).
  pose proof (Htotal Hok tt) as Hrun.
  pose proof (Hsound None tt tt _ Hrun) as Heq.
  split; [exact Hok |]. split; [exact Hrun | exact Hms].
Defined.

(** C8, as stated, fails: a chunk without a label followed by a chunk
    labelled "Chapter 1" has a label that differs from the next one,
    yet no silence is inserted and the length is the sum of the two
    payloads alone. *)
Lemma combine_no_pause_without_label :
  transitions label_change two_chunks = 1
  /\ transitions chapter_break two_chunks = 0
  /\ combine_audio_chunks (fun _ => true) two_chunks 2 None tt
     = (Ok [Clip [Byte.x01]; Clip [Byte.x02]], tt)
  /\ duration_ms (fun _ => 1000) [Clip [Byte.x01]; Clip [Byte.x02]]
     <> payload_ms (fun _ => 1000) two_chunks
        + 2000 * transitions label_change two_chunks.
Proof.
  split; [reflexivity |]. split; [reflexivity |]. split; [reflexivity |].
  vm_compute. discriminate.
Qed.

(** ** Rate limiter *)

(** C6: a client calls the OpenAI service 101 times, one second apart
    (the Google service 201 times, half a second apart).  The call that
    finds the window full sleeps until the oldest request has aged out,
    but is recorded with the time at which it started to wait; the 60
    seconds that begin when its request is sent hold 51 requests (101
    for Google), one more than the cap. *)
Theorem rate_limit_exceeded :
  TTSServices.requests_in_window
    (steady_client 101 1 (TTSServices.OpenAITTSService 0)) 61 = 51
  /\ TTSServices.requests_per_minute
       (steady_client 101 1 (TTSServices.OpenAITTSService 0)) = 50
  /\ TTSServices.requests_in_window
       (steady_client 201 (1 # 2) (TTSServices.GoogleTTSService 0))
       (121 # 2) = 101
  /\ TTSServices.requests_per_minute
       (steady_client 201 (1 # 2) (TTSServices.GoogleTTSService 0)) = 100.
Proof. vm_compute. repeat split; reflexivity. Qed.

(** ** Synthesis orchestrator: the per-chunk retry loop *)

Lemma update_progress_quiet (env : Env) (msg : str) (prog : Q) (w : World) :
  quiet env -> not_cancelled w ->
  update_progress env msg prog w = (Ok tt, progressed msg prog w).
Proof.
  intros Hq Hn. unfold not_cancelled in Hn.
  unfold update_progress, read_status, set_job, emit, bind, get, modify, ret.
  cbn [job status_reads tts_calls trace]. rewrite Hq.
  cbn [job status]. rewrite Hn. reflexivity.
Qed.

Lemma synthesize_once_run (env : Env) (chunk : str * str) (w : World) :
  synthesize_once env chunk w
  = (match attempt_error (tts env (tts_calls w)) with
     | Some e => Raise e
     | None => Ok (audio_chunk_of (tts env (tts_calls w)) chunk)
     end,
     called (fst chunk) w).
Proof.
  unfold synthesize_once, call_tts, bind, get, modify, ret, raise. cbn.
  unfold attempt_error, audio_chunk_of.
  destruct (tts env (tts_calls w)) as [r | e]; [| reflexivity].
  destruct (truthy_opt (TTSServices.error r)); reflexivity.
Qed.

(** One round of the loop. *)
Lemma tts_while_round (env : Env) (fuel : nat) (n : Z) (chunk : str * str)
    (prog : Q) (audio_chunks : list AudioChunk) (w : World) :
  quiet env -> not_cancelled w -> 0 <= n < 3 ->
  tts_while env (S fuel) n chunk prog audio_chunks w
  = match attempt_error (tts env (tts_calls w)) with
    | None =>
        (Ok (audio_chunks ++ [audio_chunk_of (tts env (tts_calls w)) chunk]),
         called (fst chunk) w)
    | Some e =>
        if n + 1 >=? 3 then
          (Raise (lit "TTS failed after 3 retries: " ++ e),
           called (fst chunk) w)
        else
          tts_while env fuel (n + 1) chunk prog audio_chunks
            (backed_off (n + 1) (fst chunk) prog w)
    end.
Proof.
  intros Hq Hn Hr. cbn [tts_while].
  replace (n <? max_tts_retries) with true
    by (symmetry; apply Z.ltb_lt; unfold max_tts_retries; lia).
  unfold bind at 1. unfold try. rewrite synthesize_once_run.
  destruct (attempt_error (tts env (tts_calls w))) as [e |];
    [| reflexivity].
  change (n + 1 >=? max_tts_retries) with (n + 1 >=? 3).
  destruct (n + 1 >=? 3); [reflexivity |].
  rewrite (bind_ok _ _ _ _ _
             (update_progress_quiet env _ prog (called (fst chunk) w) Hq Hn)).
  reflexivity.
Qed.

Section Retry.
Variable env : Env.
Variable chunk : str * str.
Variable prog : Q.
Variable audio_chunks : list AudioChunk.
Variable w : World.
Hypothesis Hquiet : quiet env.
Hypothesis Hlive : not_cancelled w.

Lemma retry_first_try :
  error_after env w 0 = None ->
  retry_run env chunk prog audio_chunks w
  = (Ok (audio_chunks ++ [audio_after env w 0 chunk]), called (fst chunk) w).
Proof using Hquiet Hlive.
  unfold error_after, audio_after, retry_run. rewrite Nat.add_0_r.
  intros E. change (Z.to_nat max_tts_retries) with 3%nat.
  rewrite tts_while_round by (assumption || lia). rewrite E. reflexivity.
Qed.



Lemma retry_exhausted (e1 e2 e3 : str) :
  error_after env w 0 = Some e1 -> error_after env w 1 = Some e2 ->
  error_after env w 2 = Some e3 ->
  retry_run env chunk prog audio_chunks w
  = (Raise (lit "TTS failed after 3 retries: " ++ e3),
     called (fst chunk) (after_second_failure chunk prog w)).
Proof using Hquiet Hlive.
  unfold error_after, retry_run.
  rewrite Nat.add_0_r, Nat.add_1_r.
  replace (tts_calls w + 2)%nat with (S (S (tts_calls w))) by lia.
  intros E1 E2 E3. change (Z.to_nat max_tts_retries) with 3%nat.
  rewrite tts_while_round by (assumption || lia). rewrite E1.
  change (0 + 1 >=? 3) with false. cbv iota. change (0 + 1) with 1.
  fold (after_first_failure chunk prog w).
  rewrite tts_while_round by (assumption || lia).
  change (tts_calls (after_first_failure chunk prog w))
    with (S (tts_calls w)).
  rewrite E2.
  change (1 + 1 >=? 3) with false. cbv iota. change (1 + 1) with 2.
  fold (after_second_failure chunk prog w).
  rewrite tts_while_round by (assumption || lia).
  change (tts_calls (after_second_failure chunk prog w))
    with (S (S (tts_calls w))).
  rewrite E3. reflexivity.
Qed.


Lemma trace_after_second :
  trace (called (fst chunk) (after_second_failure chunk prog w))
  = trace w ++ retry_events 2 (fst chunk) prog.
Proof. cbn. rewrite <- !app_assoc. reflexivity. Qed.

End Retry.


(** *** The pipeline run around the loop *)

Lemma synthesize_all_cons (env : Env) (n i : Z) (chunk : str * str)
    (rest : list (str * str)) (audio_chunks : list AudioChunk) (w : World) :
  quiet env -> not_cancelled w ->
  synthesize_all env n i (chunk :: rest) audio_chunks w
  = bind (fun w' => retry_run env chunk (chunk_progress i n) audio_chunks w')
      (fun acc => synthesize_all env n (i + 1) rest acc)
      (progressed (synthesizing_message i n) (chunk_progress i n) w).
Proof.
  intros Hq Hn. cbn [synthesize_all].
  rewrite (bind_ok _ _ _ _ _
             (update_progress_quiet env (synthesizing_message i n)
                (chunk_progress i n) w Hq Hn)).
  reflexivity.
Qed.

Lemma read_status_quiet (env : Env) (w : World) :
  quiet env -> read_status env w = (Ok (status (job w)), status_read w).
Proof.
  intros Hq. unfold read_status, bind, modify, get, ret. cbn.
  rewrite Hq. reflexivity.
Qed.

Lemma run_pipeline_quiet (env : Env) (config : AppConfig) (retry_count : Z)
    (pages : list PageContent) (w : World) :
  quiet env -> not_cancelled w ->
  extract_text env retry_count = Ok pages ->
  let chunks := chunk_list env config pages in
  run_pipeline env config retry_count w
  = bind (synthesize_all env (len_list chunks) 0 chunks [])
      (finish env config retry_count) (prepared (len_list chunks) w).
Proof.
  intros Hq Hn Hx. cbv zeta. unfold run_pipeline.
  rewrite (bind_ok _ _ _ _ _ (read_status_quiet env w Hq)).
  unfold not_cancelled in Hn. rewrite Hn.
  unfold prepare_chunks. unfold bind at 1. unfold bind at 1.
  rewrite update_progress_quiet by assumption.
  unfold bind at 1. unfold lift at 1. rewrite Hx.
  unfold bind at 1. rewrite update_progress_quiet by assumption.
  unfold bind at 1. rewrite update_progress_quiet by assumption.
  unfold bind at 1. rewrite update_progress_quiet by assumption.
  unfold ret at 1.
  fold (chunk_list env config pages).
  unfold bind at 1. rewrite update_progress_quiet by assumption.
  reflexivity.
Qed.





(** ** Job supervisor: cancellation and progress *)

(** C3: the backend is down, two pipeline runs fail, and the user
    cancels during the third run.  The exception the progress callback
    raises on seeing the cancellation is counted as the third failure:
    the job ends failed, with the cancellation as its error, and a
    conversion error is sent.  Cancelled during the first run, the same
    job ends cancelled, after the 5 seconds of the job-level backoff. *)
Theorem cancellation_becomes_failure :
  status (job (final cancel_in_third_run)) = lit "failed"
  /\ error (job (final cancel_in_third_run))
     = Some (lit "Job was cancelled by user")
  /\ List.last (trace (final cancel_in_third_run)) (TimeSleep 0)
     = ConversionError (lit "Job was cancelled by user")
  /\ status (job (final cancel_in_first_run)) = lit "cancelled"
  /\ sleeps (trace (final cancel_in_first_run)) = [5].
Proof. vm_compute. repeat split; reflexivity. Qed.

(** C4: a run in which nothing fails ends with the job completed and
    its recorded progress at 100, outside [0,1]; every progress value
    the run recorded before that is a fraction. *)
Theorem completed_progress_not_fraction :
  status (job (final calm)) = lit "completed"
  /\ progress (job (final calm)) = 100%Q
  /\ is_fraction (progress (job (final calm))) = false
  /\ forallb is_fraction (progress_updates (trace (final calm))) = true.
Proof. vm_compute. repeat split; reflexivity. Qed.

(* ===================================================================== *)
(** * Further properties *)
(* ===================================================================== *)

(** ** Chapter segmenter: section boundaries *)

Lemma heading_pages_snoc (seen : list PageContent) (p : PageContent) :
  heading_pages (seen ++ [p])
  = heading_pages seen ++ (if has_heading p then [page_number p] else []).
Proof.
  unfold heading_pages. rewrite List.filter_app, map_app. simpl.
  destruct (has_heading p); reflexivity.
Qed.

(** The loop state of [detect_chapters] against the heading pages read
    so far. *)
Lemma detect_fold_boundaries (pages : list PageContent) :
  let st := fold_left detect_step pages ([], None) in
  map start_page (state_sections st) = heading_pages pages
  /\ map end_page (fst st)
     = map (fun n => n - 1) (tl (heading_pages pages))
  /\ (snd st = None -> heading_pages pages = []).
Proof.
  cbv zeta. induction pages as [| p pages IH] using rev_ind.
  - repeat split; reflexivity.
  - rewrite fold_left_app, heading_pages_snoc. cbn [fold_left].
    destruct (fold_left detect_step pages ([], None)) as [sections current].
    destruct IH as (Hs & He & Hn). unfold state_sections in *.
    cbn [fst snd] in *. unfold detect_step, has_heading.
    destruct (heading_match (text p)) as [start |].
    + destruct current as [cur |]; cbn [fst snd option_map].
      * rewrite !map_app in *. cbn [map] in *.
        repeat split.
        -- rewrite <- Hs. cbn. rewrite <- !app_assoc. reflexivity.
        -- rewrite He. cbn [start_page set_end_page end_page].
           destruct (heading_pages pages) as [| h hs].
           ++ destruct (map start_page sections); discriminate Hs.
           ++ cbn [tl app]. rewrite map_app. reflexivity.
        -- discriminate.
      * rewrite (Hn eq_refl) in *. rewrite app_nil_r in Hs.
        destruct sections; [| discriminate Hs].
        repeat split; try reflexivity. discriminate.
    + rewrite app_nil_r.
      destruct current as [cur |]; cbn [fst snd option_map].
      * rewrite !map_app in *. cbn [map] in *.
        repeat split; try assumption. discriminate.
      * repeat split; try assumption.
Qed.

Lemma detect_chapters_starts_ends (pages : list PageContent) :
  map start_page (detect_chapters pages) = heading_pages pages
  /\ map end_page (detect_chapters pages)
     = ends_for (heading_pages pages) (last_page_number pages).
Proof.
  pose proof (detect_fold_boundaries pages) as H. cbv zeta in H.
  unfold detect_chapters, state_sections in *.
  destruct (fold_left detect_step pages ([], None)) as [sections current].
  destruct H as (Hs & He & Hn). cbn [fst snd] in *.
  destruct current as [cur |].
  - rewrite !map_app in *. cbn [map] in *. split; [exact Hs |].
    rewrite He. cbn [set_end_page end_page]. unfold ends_for.
    destruct (heading_pages pages) as [| h hs]; [| reflexivity].
    destruct (map start_page sections); discriminate Hs.
  - rewrite (Hn eq_refl) in *. rewrite app_nil_r in Hs.
    destruct sections; [| discriminate Hs]. split; reflexivity.
Qed.

Lemma ascending_bounds (pages : list PageContent) :
  ascending pages ->
  forall n, In n (map page_number pages) ->
            first_page_number pages <= n <= last_page_number pages.
Proof.
  intros Hasc n Hn. split.
  - unfold ascending in Hasc. destruct pages as [| p pages]; [contradiction |].
    simpl in *. apply StronglySorted_inv in Hasc. destruct Hasc as [_ Hlt].
    destruct Hn as [<- | Hn]; [lia |].
    rewrite List.Forall_forall in Hlt. specialize (Hlt n Hn). lia.
  - destruct pages as [| p0 pages0]; [contradiction |].
    destruct (exists_last (l := p0 :: pages0)) as [l [q E]]; [discriminate |].
    rewrite E in *. rewrite last_page_number_snoc.
    unfold ascending in Hasc. rewrite map_app in Hasc, Hn. simpl in Hasc, Hn.
    apply strongly_sorted_snoc in Hasc. destruct Hasc as [_ Hlt].
    apply in_app_iff in Hn. destruct Hn as [Hn | [<- | []]]; [| lia].
    rewrite List.Forall_forall in Hlt. specialize (Hlt n Hn). lia.
Qed.

Lemma detect_chapters_in_document (pages : list PageContent) :
  ascending pages ->
  Forall (fun s => first_page_number pages <= start_page s
                   /\ end_page s <= last_page_number pages)
    (detect_chapters pages).
Proof.
  intros Hasc.
  destruct (detect_chapters_starts_ends pages) as (Hs & He).
  assert (Hin : forall n, In n (heading_pages pages) ->
                          first_page_number pages <= n
                          <= last_page_number pages).
  { intros n Hn. apply (ascending_bounds pages Hasc).
    unfold heading_pages in Hn. apply in_map_iff in Hn.
    destruct Hn as (p & <- & Hp). apply List.filter_In in Hp.
    apply in_map. tauto. }
  apply List.Forall_forall. intros s Hsec. split.
  - apply Hin. rewrite <- Hs. apply in_map. exact Hsec.
  - assert (Hend : In (end_page s) (map end_page (detect_chapters pages)))
      by (apply in_map; exact Hsec).
    rewrite He in Hend. unfold ends_for in Hend.
    destruct (heading_pages pages) as [| h later] eqn:Eh; [contradiction |].
    apply in_app_iff in Hend. destruct Hend as [Hend | [<- | []]]; [| lia].
    apply in_map_iff in Hend. destruct Hend as (n & <- & Hn).
    assert (Hb : first_page_number pages <= n <= last_page_number pages)
      by (apply Hin; right; exact Hn).
    lia.
Qed.

(** *** Section titles *)

Lemma title_lines_truthy (lines : list str) :
  forall acc, Forall (fun l => truthy l = true) acc ->
              Forall (fun l => truthy l = true) (title_lines_of lines acc).
Proof.
  induction lines as [| line lines IH]; intros acc Hacc; [exact Hacc |].
  cbn [title_lines_of].
  assert (Hacc' : Forall (fun l => truthy l = true)
                    (if truthy (strip line) && negb (isdigit (strip line))
                     then acc ++ [strip line] else acc)).
  { destruct (truthy (strip line)) eqn:Ht; [| exact Hacc].
    destruct (negb (isdigit (strip line))); [| exact Hacc].
    apply List.Forall_app. split; [exact Hacc |].
    constructor; [exact Ht | constructor]. }
  destruct (2 <=? length _)%nat; [exact Hacc' | apply IH; exact Hacc'].
Qed.

Lemma join_truthy (sep : str) (parts : list str) :
  Forall (fun l => truthy l = true) parts -> parts <> [] ->
  truthy (join sep parts) = true.
Proof.
  intros Hall Hne. destruct parts as [| p ps]; [contradiction |].
  apply Forall_inv in Hall. destruct p as [| c p]; [discriminate |].
  destruct ps; reflexivity.
Qed.

Lemma extract_chapter_title_truthy (s : str) (start_pos : nat) :
  truthy (extract_chapter_title s start_pos) = true.
Proof.
  unfold extract_chapter_title.
  pose proof (title_lines_truthy
                (firstn 3 (split_on newline (skipn start_pos s))) []
                (List.Forall_nil _)) as H.
  destruct (title_lines_of _ []) as [| l ls] eqn:E; [reflexivity |].
  apply join_truthy; [exact H | discriminate].
Qed.

Lemma detect_step_titles (st : detect_state) (p : PageContent) :
  Forall well_titled (state_sections st) ->
  Forall well_titled (state_sections (detect_step st p)).
Proof.
  destruct st as [sections current]. unfold state_sections, detect_step.
  cbn [fst snd]. intros H. apply List.Forall_app in H. destruct H as [Hs Hc].
  destruct (heading_match (text p)) as [start |]; cbn [fst snd option_map].
  - apply List.Forall_app. split.
    + destruct current as [cur |]; [| exact Hs].
      apply List.Forall_app. split; [exact Hs |].
      constructor; [exact (Forall_inv Hc) | constructor].
    + constructor; [| constructor].
      split; [apply extract_chapter_title_truthy | reflexivity].
  - apply List.Forall_app. split; [exact Hs |].
    destruct current as [cur |]; cbn [option_map]; [| constructor].
    constructor; [exact (Forall_inv Hc) | constructor].
Qed.

Lemma detect_chapters_titled (pages : list PageContent) :
  Forall well_titled (detect_chapters pages).
Proof.
  assert (H : Forall well_titled
                (state_sections (fold_left detect_step pages ([], None)))).
  { induction pages as [| p pages IH] using rev_ind; [constructor |].
    rewrite fold_left_app. apply detect_step_titles. exact IH. }
  unfold detect_chapters, state_sections in *.
  destruct (fold_left detect_step pages ([], None)) as [sections current].
  cbn [fst snd] in H. destruct current as [cur |].
  - apply List.Forall_app in H. destruct H as [Hs Hc].
    apply List.Forall_app. split; [exact Hs |].
    constructor; [exact (Forall_inv Hc) | constructor].
  - rewrite app_nil_r in H. exact H.
Qed.

(** X1: [detect_chapters] opens one section per page that has a
    heading.  The sections start on the heading pages, in order; each
    ends on the page before the next heading page and the last one on
    the last page given; every section has a non-empty title and the
    type "chapter"; and when the page numbers ascend, every section
    lies within the pages given. *)
Theorem detect_chapters_boundaries (pages : list PageContent) :
  map start_page (detect_chapters pages) = heading_pages pages
  /\ map end_page (detect_chapters pages)
     = ends_for (heading_pages pages) (last_page_number pages)
  /\ length (detect_chapters pages)
     = length (List.filter has_heading pages)
  /\ Forall well_titled (detect_chapters pages)
  /\ (ascending pages ->
      Forall (fun s => first_page_number pages <= start_page s
                       /\ end_page s <= last_page_number pages)
        (detect_chapters pages)).
Proof.
  destruct (detect_chapters_starts_ends pages) as [Hs He].
  split; [exact Hs |]. split; [exact He |]. split.
  - rewrite <- (length_map start_page), Hs. unfold heading_pages.
    apply length_map.
  - split; [apply detect_chapters_titled |].
    apply detect_chapters_in_document.
Qed.

Lemma detect_chapters_boundaries_witness :
  ascending (preface ++ chapters)
  /\ map start_page (detect_chapters (preface ++ chapters)) = [2; 5]
  /\ map end_page (detect_chapters (preface ++ chapters)) = [4; 5]
  /\ Forall (fun s => 1 <= start_page s /\ end_page s <= 5)
       (detect_chapters (preface ++ chapters)).
Proof.
  assert (Hasc : ascending (preface ++ chapters)).
  { unfold ascending. simpl. repeat constructor. }
  destruct (detect_chapters_boundaries (preface ++ chapters))
    as (Hs & He & _ & _ & Hin).
  split; [exact Hasc |]. split; [exact Hs |]. split; [exact He |].
  exact (Hin Hasc).
Defined.

(** X2: pages none of which has a heading give no section at all:
    their text reaches no chunk. *)
Theorem detect_chapters_no_heading (pages : list PageContent) :
  Forall no_heading pages -> detect_chapters pages = [].
Proof.
  intros H. rewrite <- (app_nil_r pages).
  rewrite (detect_chapters_skips pages [] H). reflexivity.
Qed.

Lemma detect_chapters_no_heading_witness :
  Forall no_heading (preface ++ [page 2 (lit "No headings here")])
  /\ detect_chapters (preface ++ [page 2 (lit "No headings here")]) = [].
Proof.
  assert (H : Forall no_heading (preface ++ [page 2 (lit "No headings here")])).
  { repeat constructor. }
  split; [exact H | exact (detect_chapters_no_heading _ H)].
Defined.

(** ** Text chunker: shape of the chunks *)

Lemma rstrip_snoc_nonspace (front : str) (c : ascii) :
  isspace c = false -> rstrip (front ++ [c]) = front ++ [c].
Proof.
  intros Hc. induction front as [| x front IH]; simpl.
  - rewrite Hc. reflexivity.
  - rewrite IH. destruct (front ++ [c]) eqn:E; [| reflexivity].
    destruct front; discriminate E.
Qed.

Lemma strip_trimmed (s : str) : trimmed s -> strip s = s.
Proof.
  intros [(c & rest & -> & Hc) (front & d & E & Hd)].
  unfold strip. cbn [lstrip]. rewrite Hc, E.
  apply rstrip_snoc_nonspace. exact Hd.
Qed.

Lemma trimmed_truthy (s : str) : trimmed s -> truthy s = true.
Proof. intros [(c & rest & -> & _) _]. reflexivity. Qed.

Lemma lstrip_starts (s : str) : lstrip s = [] \/ starts_nonspace (lstrip s).
Proof.
  induction s as [| c s IH]; [left; reflexivity |]. simpl.
  destruct (isspace c) eqn:Hc; [exact IH |].
  right. exists c, s. split; [reflexivity | exact Hc].
Qed.

Lemma rstrip_ends (s : str) : rstrip s = [] \/ ends_nonspace (rstrip s).
Proof.
  induction s as [| c s IH]; [left; reflexivity |]. simpl.
  destruct (rstrip s) as [| y r] eqn:E.
  - destruct (isspace c) eqn:Hc; [left; reflexivity |].
    right. exists [], c. split; [reflexivity | exact Hc].
  - right. destruct IH as [IH | (front & d & E' & Hd)]; [discriminate IH |].
    exists (c :: front), d. split; [| exact Hd].
    rewrite E'. reflexivity.
Qed.

Lemma rstrip_keeps_start (s : str) : starts_nonspace s -> starts_nonspace (rstrip s).
Proof.
  intros (c & rest & -> & Hc). simpl.
  destruct (rstrip rest) as [| y r].
  - rewrite Hc. exists c, []. split; [reflexivity | exact Hc].
  - exists c, (y :: r). split; [reflexivity | exact Hc].
Qed.

Lemma strip_result (s : str) : strip s = [] \/ trimmed (strip s).
Proof.
  unfold strip. destruct (lstrip_starts s) as [E | Hs].
  - left. rewrite E. reflexivity.
  - destruct (rstrip_ends (lstrip s)) as [E | He]; [left; exact E |].
    right. split; [apply rstrip_keeps_start; exact Hs | exact He].
Qed.

Lemma trimmed_join (a m b : str) : trimmed a -> trimmed b -> trimmed (a ++ m ++ b).
Proof.
  intros [(c & rest & -> & Hc) _] [_ (front & d & -> & Hd)]. split.
  - exists c, (rest ++ m ++ front ++ [d]). split; [reflexivity | exact Hc].
  - exists ((c :: rest) ++ m ++ front), d. split; [| exact Hd].
    rewrite <- !app_assoc. reflexivity.
Qed.

(** The runs [fields] returns are non-empty and free of separators. *)
Lemma fields_aux_runs (sep : ascii -> bool) (s : str) :
  Forall (fun c => sep c = false) (fst (fields_aux sep s))
  /\ Forall (fun w => w <> [] /\ Forall (fun c => sep c = false) w)
       (snd (fields_aux sep s)).
Proof.
  induction s as [| c s [IHw IHws]]; [split; constructor |].
  rewrite fields_aux_cons. destruct (sep c) eqn:Hc; cbn [fst snd].
  - split; [constructor |]. rewrite fields_as_aux.
    destruct (fst (fields_aux sep s)) as [| x w]; [exact IHws |].
    constructor; [split; [discriminate | exact IHw] | exact IHws].
  - split; [constructor; assumption | exact IHws].
Qed.

Lemma fields_runs (sep : ascii -> bool) (s : str) :
  Forall (fun w => w <> [] /\ Forall (fun c => sep c = false) w)
    (fields sep s).
Proof.
  destruct (fields_aux_runs sep s) as [Hw Hws]. rewrite fields_as_aux.
  destruct (fst (fields_aux sep s)) as [| x w]; [exact Hws |].
  constructor; [split; [discriminate | exact Hw] | exact Hws].
Qed.

Lemma split_words_trimmed (s : str) : Forall trimmed (split s).
Proof.
  eapply List.Forall_impl; [| apply (fields_runs isspace s)].
  intros w [Hne Hall]. split.
  - destruct w as [| c w]; [contradiction |].
    exists c, w. split; [reflexivity | exact (Forall_inv Hall)].
  - destruct (exists_last Hne) as (front & d & ->).
    exists front, d. split; [reflexivity |].
    apply List.Forall_app in Hall. exact (Forall_inv (proj2 Hall)).
Qed.

Lemma chunk_inv_close (chunks : list str) (cur next : str) :
  Forall trimmed chunks -> trimmed cur -> trimmed next ->
  chunk_inv (chunks ++ [strip cur], next).
Proof.
  intros Hc Hcur Hnext. split; [| right; exact Hnext].
  cbn [fst]. apply List.Forall_app. split; [exact Hc |].
  rewrite strip_trimmed by exact Hcur. constructor; [exact Hcur | constructor].
Qed.

Lemma add_word_inv (max_chunk_size : Z) (st : chunk_state) (word : str) :
  chunk_inv st -> trimmed word -> chunk_inv (add_word max_chunk_size st word).
Proof.
  destruct st as [chunks cur]. intros [Hc Hcur] Hw. cbn [fst snd] in *.
  unfold add_word. destruct (len cur + len word >? max_chunk_size).
  - destruct (truthy cur) eqn:Ht.
    + destruct Hcur as [-> | Hcur]; [discriminate Ht |].
      apply chunk_inv_close; assumption.
    + split; [| left; apply truthy_false; exact Ht].
      cbn [fst]. apply List.Forall_app. split; [exact Hc |].
      constructor; [exact Hw | constructor].
  - split; [exact Hc |]. right. cbn [snd].
    destruct (truthy cur) eqn:Ht.
    + destruct Hcur as [-> | Hcur]; [discriminate Ht |].
      apply trimmed_join; assumption.
    + apply truthy_false in Ht. subst cur. exact Hw.
Qed.

Lemma add_words_inv (max_chunk_size : Z) (ws : list str) :
  Forall trimmed ws ->
  forall st, chunk_inv st ->
             chunk_inv (fold_left (add_word max_chunk_size) ws st).
Proof.
  induction 1 as [| w ws Hw _ IH]; intros st Hst; [exact Hst |].
  cbn [fold_left]. apply IH. apply add_word_inv; assumption.
Qed.

Lemma add_sentence_inv (max_chunk_size : Z) (st : chunk_state)
    (sentence : str) :
  chunk_inv st -> chunk_inv (add_sentence max_chunk_size st sentence).
Proof.
  intros Hst. unfold add_sentence.
  destruct (strip_result sentence) as [E | Hs].
  - rewrite E. exact Hst.
  - rewrite (trimmed_truthy _ Hs). cbn [negb].
    destruct st as [chunks cur]. destruct Hst as [Hc Hcur].
    cbn [fst snd] in *.
    destruct (len cur + len (strip sentence) >? max_chunk_size).
    + destruct (truthy cur) eqn:Ht.
      * destruct Hcur as [-> | Hcur]; [discriminate Ht |].
        apply chunk_inv_close; assumption.
      * apply add_words_inv; [apply split_words_trimmed |].
        split; [exact Hc | exact Hcur].
    + split; [exact Hc |]. right. cbn [snd].
      destruct (truthy cur) eqn:Ht.
      * destruct Hcur as [-> | Hcur]; [discriminate Ht |].
        apply trimmed_join; assumption.
      * apply truthy_false in Ht. subst cur. exact Hs.
Qed.

Lemma add_sentences_inv (max_chunk_size : Z) (ss : list str) :
  forall st, chunk_inv st ->
             chunk_inv (fold_left (add_sentence max_chunk_size) ss st).
Proof.
  induction ss as [| s ss IH]; intros st Hst; [exact Hst |].
  cbn [fold_left]. apply IH. apply add_sentence_inv. exact Hst.
Qed.

(** X3: every chunk [chunk_text_for_tts] returns is non-empty and has
    no whitespace at either end, whatever the text and the limit. *)
Theorem chunks_are_trimmed (text : str) (max_chunk_size : Z) :
  Forall (fun chunk => chunk <> [] /\ strip chunk = chunk)
    (chunk_text_for_tts text max_chunk_size).
Proof.
  assert (H : Forall trimmed (chunk_text_for_tts text max_chunk_size)).
  { unfold chunk_text_for_tts.
    pose proof (add_sentences_inv max_chunk_size (re_split_sentences text)
                  ([], []) (conj (List.Forall_nil _) (or_introl eq_refl)))
      as Hinv.
    destruct (fold_left (add_sentence max_chunk_size)
                (re_split_sentences text) ([], [])) as [chunks cur].
    destruct Hinv as [Hc Hcur]. cbn [fst snd] in *.
    destruct (truthy cur) eqn:Ht; [| exact Hc].
    destruct Hcur as [-> | Hcur]; [discriminate Ht |].
    apply List.Forall_app. split; [exact Hc |].
    rewrite strip_trimmed by exact Hcur.
    constructor; [exact Hcur | constructor]. }
  eapply List.Forall_impl; [| exact H].
  intros chunk Ht. split; [| apply strip_trimmed; exact Ht].
  destruct Ht as [(c & rest & -> & _) _]. discriminate.
Qed.

(** Texts without a word. *)
Lemma fields_nil_iff (sep : ascii -> bool) (s : str) :
  fields sep s = [] <-> Forall (fun c => sep c = true) s.
Proof.
  induction s as [| c s IH]; [split; [constructor | reflexivity] |].
  rewrite fields_as_aux, fields_aux_cons.
  destruct (sep c) eqn:Hc; cbn [fst snd cons_run].
  - rewrite IH. split; intros H.
    + constructor; assumption.
    + exact (Forall_inv_tail H).
  - split; [discriminate |]. intros H. apply Forall_inv in H. congruence.
Qed.

Lemma re_split_go_blank (s : str) :
  Forall (fun c => is_separator c = true) s ->
  forall b, Forall (fun p => Forall (fun c => isspace c = true) p)
              (re_split_go b s).
Proof.
  induction 1 as [| c s Hc _ IH]; intros b.
  - repeat constructor.
  - cbn [re_split_go]. destruct (is_terminator c) eqn:Ht.
    + destruct b; [apply IH |]. constructor; [constructor | apply IH].
    + specialize (IH false).
      unfold is_separator in Hc. rewrite Ht, orb_false_r in Hc.
      destruct (re_split_go false s) as [| p ps];
        [repeat constructor; exact Hc |].
      apply Forall_inv in IH as Hp. apply Forall_inv_tail in IH.
      constructor; [constructor; assumption | exact IH].
Qed.

Lemma strip_blank (s : str) :
  Forall (fun c => isspace c = true) s -> strip s = [].
Proof.
  intros H. unfold strip.
  assert (E : lstrip s = []).
  { induction H as [| c s Hc _ IH]; [reflexivity |].
    simpl. rewrite Hc. exact IH. }
  rewrite E. reflexivity.
Qed.

Lemma add_blank_sentences (max_chunk_size : Z) (ss : list str) :
  Forall (fun p => Forall (fun c => isspace c = true) p) ss ->
  forall st, fold_left (add_sentence max_chunk_size) ss st = st.
Proof.
  induction 1 as [| s ss Hs _ IH]; intros st; [reflexivity |].
  cbn [fold_left]. unfold add_sentence at 2.
  rewrite (strip_blank s Hs). cbn [truthy negb]. apply IH.
Qed.

(** X4: [chunk_text_for_tts] returns no chunk exactly when the text
    has no word, that is, consists of whitespace and the characters
    [. ! ?] only. *)
Theorem no_chunks_iff_no_words (text : str) (max_chunk_size : Z) :
  chunk_text_for_tts text max_chunk_size = [] <-> tokens text = [].
Proof.
  split.
  - unfold chunk_text_for_tts.
    pose proof (add_sentences_tokens max_chunk_size
                  (re_split_sentences text) ([], [])) as Ht.
    rewrite re_split_tokens in Ht.
    destruct (fold_left (add_sentence max_chunk_size)
                (re_split_sentences text) ([], [])) as [chunks cur].
    unfold state_tokens in Ht. cbn [fst snd map concat app] in Ht.
    destruct (truthy cur) eqn:Hcur.
    + intros E. destruct chunks; discriminate E.
    + intros ->. apply truthy_false in Hcur. subst cur.
      cbn in Ht. symmetry. exact Ht.
  - intros Hno. apply fields_nil_iff in Hno.
    unfold chunk_text_for_tts, re_split_sentences.
    rewrite add_blank_sentences by (apply re_split_go_blank; exact Hno).
    reflexivity.
Qed.

Lemma no_chunks_iff_no_words_witness :
  tokens (lit " ... ?! ") = []
  /\ chunk_text_for_tts (lit " ... ?! ") 4000 = [].
Proof.
  assert (H : tokens (lit " ... ?! ") = []) by reflexivity.
  split; [exact H |].
  exact (proj2 (no_chunks_iff_no_words (lit " ... ?! ") 4000) H).
Defined.

(** ** Content filter *)

Lemma Qmin_le_r (a b : Q) : (Qmin a b <= b)%Q.
Proof.
  unfold Qmin. destruct (Qle_bool a b) eqn:E.
  - apply Qle_bool_iff. exact E.
  - apply Qle_refl.
Qed.

Lemma Qmin_le_l (a b : Q) : (Qmin a b <= a)%Q.
Proof.
  unfold Qmin. destruct (Qle_bool a b) eqn:E.
  - apply Qle_refl.
  - apply Qlt_le_weak, Qnot_le_lt. intros H.
    apply Qle_bool_iff in H. congruence.
Qed.

Lemma Qmin_glb (a b c : Q) : (c <= a)%Q -> (c <= b)%Q -> (c <= Qmin a b)%Q.
Proof. intros Ha Hb. unfold Qmin. destruct (Qle_bool a b); assumption. Qed.

Lemma Qmin_mono (a a' b : Q) : (a <= a')%Q -> (Qmin a b <= Qmin a' b)%Q.
Proof.
  intros H. apply Qmin_glb.
  - eapply Qle_trans; [apply Qmin_le_l | exact H].
  - apply Qmin_le_r.
Qed.

Lemma Qgtb_lt (a b : Q) : Qgtb a b = true -> (b < a)%Q.
Proof.
  unfold Qgtb. intros H. apply Qnot_le_lt. intros Hle.
  apply Qle_bool_iff in Hle. rewrite Hle in H. discriminate H.
Qed.

Section ScoringFacts.
Variable count_matches : str -> str -> Z.
Variable toc_line : str -> bool.

Lemma keyword_score_le_1 (txt : str) (keywords : list str) :
  (calculate_keyword_score count_matches txt keywords <= 1)%Q.
Proof.
  unfold calculate_keyword_score. destruct (len_words txt =? 0).
  - discriminate.
  - apply Qmin_le_r.
Qed.

Lemma toc_score_le_1 (txt : str) :
  (calculate_toc_score toc_line txt <= 1)%Q.
Proof.
  unfold calculate_toc_score. destruct (len_list _ >? 0).
  - apply Qmin_le_r.
  - discriminate.
Qed.

Lemma position_score_le_1 (page : PageContent) (txt : str) :
  (analyze_page_position count_matches page txt <= 1)%Q.
Proof.
  unfold analyze_page_position. destruct (page_number page <=? 5).
  - apply Qmin_le_r.
  - discriminate.
Qed.

(** X5: the verdict of [analyze_page] has a confidence between 0 and
    1.  A page is skipped only with a positive confidence; it is kept
    only with confidence 0, the reason "Main content" and at least 50
    words. *)
Theorem analyze_page_confidence (page : PageContent)
    (config : gmap string bool) :
  let r := analyze_page count_matches toc_line page config in
  (0 <= confidence r <= 1)%Q
  /\ (should_skip r = true -> (0 < confidence r)%Q)
  /\ (should_skip r = false ->
      confidence r = 0%Q /\ reason r = lit "Main content"
      /\ 50 <= word_count page).
Proof.
  cbv zeta. unfold analyze_page.
  destruct (word_count page <? 50) eqn:Hwc.
  { cbn. repeat split; try discriminate; try reflexivity. }
  apply Z.ltb_ge in Hwc.
  repeat
    match goal with
    | |- context [if ?b && Qgtb ?s ?t then _ else _] =>
        let Hb := fresh "Hb" in
        destruct (b && Qgtb s t) eqn:Hb;
        [ apply andb_prop in Hb; destruct Hb as [_ Hb];
          apply Qgtb_lt in Hb; cbn [confidence should_skip reason];
          repeat split; try discriminate;
          [ apply Qlt_le_weak; eapply Qle_lt_trans; [| exact Hb];
            discriminate
          | first [ apply keyword_score_le_1 | apply toc_score_le_1 ]
          | intros _; eapply Qle_lt_trans; [| exact Hb]; discriminate ]
        | clear Hb ]
    end.
  destruct (Qgtb _ (7 # 10)) eqn:Hb.
  - apply Qgtb_lt in Hb. cbn [confidence should_skip reason].
    repeat split; try discriminate.
    + apply Qlt_le_weak. eapply Qle_lt_trans; [| exact Hb]. discriminate.
    + apply position_score_le_1.
    + intros _. eapply Qle_lt_trans; [| exact Hb]. discriminate.
  - cbn [confidence should_skip reason].
    repeat split; try discriminate; try reflexivity; try assumption.
Qed.

Lemma analyze_page_keeps_long (page : PageContent)
    (config : gmap string bool) :
  should_skip (analyze_page count_matches toc_line page config) = false ->
  50 <= word_count page.
Proof.
  unfold analyze_page. destruct (word_count page <? 50) eqn:Hwc.
  - cbn. discriminate.
  - intros _. apply Z.ltb_ge. exact Hwc.
Qed.

Lemma filter_pages_keeps (pages : list PageContent)
    (config : gmap string bool) :
  Forall (fun p => In p pages /\ 50 <= word_count p)
    (filter_pages count_matches toc_line pages config)
  /\ (ascending pages ->
      ascending (filter_pages count_matches toc_line pages config)).
Proof.
  split.
  - apply List.Forall_forall. intros p Hp. unfold filter_pages in Hp.
    apply List.filter_In in Hp. destruct Hp as [Hin Hkeep]. split; [exact Hin |].
    apply negb_true_iff in Hkeep.
    exact (analyze_page_keeps_long p config Hkeep).
  - unfold ascending, filter_pages.
    induction pages as [| p pages IH]; intros Hasc; [constructor |].
    cbn [map] in Hasc. apply StronglySorted_inv in Hasc.
    destruct Hasc as [Hs Hlt]. cbn [List.filter].
    destruct (negb (should_skip (analyze_page count_matches toc_line p config))).
    + cbn [map]. constructor; [apply IH; exact Hs |].
      apply List.Forall_forall. intros n Hn. apply in_map_iff in Hn.
      destruct Hn as (q & <- & Hq). apply List.filter_In in Hq.
      rewrite List.Forall_forall in Hlt. apply Hlt. apply in_map. tauto.
    + apply IH. exact Hs.
Qed.

End ScoringFacts.

Lemma analyze_page_confidence_witness :
  should_skip (analyze_page (count_matches calm) (toc_line calm) short_page
                 (flags Config)) = true
  /\ (0 < confidence (analyze_page (count_matches calm) (toc_line calm)
                        short_page (flags Config)))%Q.
Proof.
  destruct (analyze_page_confidence (count_matches calm) (toc_line calm)
              short_page (flags Config)) as (_ & Hskip & _).
  assert (H : should_skip (analyze_page (count_matches calm) (toc_line calm)
                             short_page (flags Config)) = true)
    by reflexivity.
  split; [exact H | exact (Hskip H)].
Defined.

Lemma matches_mono (cm1 cm2 : str -> str -> Z) (txt : str)
    (keywords : list str) :
  (forall k, cm1 k txt <= cm2 k txt) ->
  forall a b, a <= b ->
    fold_left (fun m keyword => m + cm1 keyword txt) keywords a
    <= fold_left (fun m keyword => m + cm2 keyword txt) keywords b.
Proof.
  intros H. induction keywords as [| k ks IH]; intros a b Hab; [exact Hab |].
  cbn [fold_left]. apply IH. specialize (H k). lia.
Qed.

Lemma matches_nonneg (cm : str -> str -> Z) (txt : str) (keywords : list str) :
  (forall k, 0 <= cm k txt) ->
  forall a, 0 <= a ->
    0 <= fold_left (fun m keyword => m + cm keyword txt) keywords a.
Proof.
  intros H. induction keywords as [| k ks IH]; intros a Ha; [exact Ha |].
  cbn [fold_left]. apply IH. specialize (H k). lia.
Qed.

Lemma density_mono (a b wc : Z) :
  a <= b -> 0 < wc ->
  (inject_Z a / (inject_Z wc / 100) <= inject_Z b / (inject_Z wc / 100))%Q.
Proof.
  intros Hab Hwc. unfold Qdiv. apply Qmult_le_compat_r.
  - rewrite <- Zle_Qle. exact Hab.
  - apply Qlt_le_weak, Qinv_lt_0_compat.
    apply Qlt_shift_div_l; [reflexivity |].
    rewrite Qmult_0_l. replace 0%Q with (inject_Z 0) by reflexivity.
    rewrite <- Zlt_Qlt. exact Hwc.
Qed.

Lemma len_words_nonneg (txt : str) : 0 <= len_words txt.
Proof. unfold len_words. lia. Qed.

(** X6: the keyword score lies between 0 and 1 when no keyword is
    counted a negative number of times, and it does not fall when the
    keywords are found more often. *)
Theorem keyword_score_bounded_monotone (cm1 cm2 : str -> str -> Z)
    (txt : str) (keywords : list str) :
  (forall k, 0 <= cm1 k txt) ->
  (forall k, cm1 k txt <= cm2 k txt) ->
  (0 <= calculate_keyword_score cm1 txt keywords)%Q
  /\ (calculate_keyword_score cm1 txt keywords
      <= calculate_keyword_score cm2 txt keywords)%Q
  /\ (calculate_keyword_score cm2 txt keywords <= 1)%Q.
Proof.
  intros Hpos Hle. split; [| split; [| apply keyword_score_le_1]].
  - unfold calculate_keyword_score.
    destruct (len_words txt =? 0) eqn:Hwc; [apply Qle_refl |].
    apply Z.eqb_neq in Hwc. pose proof (len_words_nonneg txt) as Hn.
    apply Qmin_glb; [| discriminate].
    eapply Qle_trans; [| apply (density_mono 0); [| lia]].
    + unfold Qdiv. rewrite Qmult_0_l. apply Qle_refl.
    + apply matches_nonneg; [exact Hpos | lia].
  - unfold calculate_keyword_score.
    destruct (len_words txt =? 0) eqn:Hwc; [apply Qle_refl |].
    apply Z.eqb_neq in Hwc. pose proof (len_words_nonneg txt) as Hn.
    apply Qmin_mono. apply density_mono; [| lia].
    apply matches_mono; [exact Hle | lia].
Qed.

Lemma keyword_score_bounded_monotone_witness :
  (0 <= calculate_keyword_score (fun _ _ => 1%Z) (lit "one two three")
          copyright_keywords)%Q
  /\ (calculate_keyword_score (fun _ _ => 1%Z) (lit "one two three")
        copyright_keywords
      <= calculate_keyword_score (fun _ _ => 2%Z) (lit "one two three")
           copyright_keywords)%Q.
Proof.
  destruct (keyword_score_bounded_monotone (fun _ _ => 1%Z) (fun _ _ => 2%Z)
              (lit "one two three") copyright_keywords) as (H0 & Hm & _).
  - intros k. lia.
  - intros k. lia.
  - split; assumption.
Defined.

(** *** Sections that reach the chunker *)

Lemma detect_chapters_sorted (pages : list PageContent) :
  ascending pages ->
  Forall range_ok (detect_chapters pages)
  /\ StronglySorted precedes (detect_chapters pages).
Proof.
  intros Hasc. pose proof (detect_fold_inv pages Hasc) as Hinv.
  unfold detect_chapters.
  destruct (fold_left detect_step pages ([], None)) as [sections current].
  destruct Hinv as (Hr & Hs & Hc). cbn [fst snd] in *.
  destruct current as [cur |]; [| split; assumption].
  destruct Hc as (Hseen & Hlo & Hbefore). split.
  - apply List.Forall_app. split; [assumption |].
    constructor; [unfold range_ok; simpl; lia | constructor].
  - apply strongly_sorted_snoc_intro; [assumption |].
    eapply List.Forall_impl; [| exact Hbefore].
    intros a Ha. exact Ha.
Qed.

Lemma strongly_sorted_filter {A} (R : A -> A -> Prop) (f : A -> bool)
    (l : list A) :
  StronglySorted R l -> StronglySorted R (List.filter f l).
Proof.
  induction 1 as [| a l Hs IH Ha]; [constructor |].
  cbn [List.filter]. destruct (f a); [| exact IH].
  constructor; [exact IH |].
  apply List.Forall_forall. intros b Hb. apply List.filter_In in Hb.
  rewrite List.Forall_forall in Ha. apply Ha. tauto.
Qed.

Lemma strongly_sorted_map {A B} (R : A -> A -> Prop) (R' : B -> B -> Prop)
    (g : A -> B) (l : list A) :
  (forall a b, R a b -> R' (g a) (g b)) ->
  StronglySorted R l -> StronglySorted R' (map g l).
Proof.
  intros Hg. induction 1 as [| a l Hs IH Ha]; [constructor |].
  cbn [map]. constructor; [exact IH |].
  apply List.Forall_forall. intros b Hb. apply in_map_iff in Hb.
  destruct Hb as (x & <- & Hx). rewrite List.Forall_forall in Ha.
  apply Hg, Ha, Hx.
Qed.

Lemma filter_sections_keeps (clean : str -> str)
    (sections : list BookSection) (config : gmap string bool) :
  map (fun s => (title s, start_page s, end_page s, section_type s))
    (filter_sections clean sections config)
  = map (fun s => (title s, start_page s, end_page s, section_type s))
      (List.filter (fun s => should_keep_section s config) sections)
  /\ Forall (fun s => 100 <= len_words (content s))
       (List.filter (fun s => should_keep_section s config) sections)
  /\ (StronglySorted precedes sections ->
      StronglySorted precedes (filter_sections clean sections config)).
Proof.
  split; [| split].
  - unfold filter_sections. rewrite map_map. reflexivity.
  - apply List.Forall_forall. intros s Hs. apply List.filter_In in Hs.
    destruct Hs as [_ Hk]. unfold should_keep_section in Hk.
    destruct (existsb _ _); [discriminate |].
    destruct (len_words (content s) <? 100) eqn:E; [discriminate |].
    apply Z.ltb_ge in E. exact E.
  - intros Hs. unfold filter_sections.
    apply (strongly_sorted_map precedes precedes).
    + intros a b H. exact H.
    + apply strongly_sorted_filter. exact Hs.
Qed.

(** X7: filtering the pages, detecting the chapters and filtering the
    sections, as [process_conversion] chains them, yields on ascending
    page numbers sections whose page ranges are well-formed, follow
    one another without overlap, and lie within the pages of the
    document, each section under a non-empty title. *)
Theorem pipeline_sections_sorted (env : Env) (config : AppConfig)
    (pages : list PageContent) :
  ascending pages ->
  let sections :=
    filter_sections (clean_section_content env)
      (detect_chapters
         (filter_pages (count_matches env) (toc_line env) pages
            (flags config)))
      (flags config) in
  Forall range_ok sections
  /\ StronglySorted precedes sections
  /\ Forall (fun s => truthy (title s) = true
                      /\ first_page_number pages <= start_page s
                      /\ end_page s <= last_page_number pages)
       sections.
Proof.
  intros Hasc. cbv zeta.
  set (kept := filter_pages (count_matches env) (toc_line env) pages
                 (flags config)).
  destruct (filter_pages_keeps (count_matches env) (toc_line env) pages
              (flags config)) as [Hkept Hasc'].
  specialize (Hasc' Hasc). fold kept in Hkept, Hasc'.
  destruct (detect_chapters_sorted kept Hasc') as [Hr Hs].
  pose proof (detect_chapters_in_document kept Hasc') as Hin.
  pose proof (detect_chapters_titled kept) as Ht.
  assert (Hall : Forall (fun s => range_ok s /\ truthy (title s) = true
                           /\ first_page_number pages <= start_page s
                           /\ end_page s <= last_page_number pages)
                   (detect_chapters kept)).
  { apply List.Forall_forall. intros s Hsec.
    rewrite List.Forall_forall in Hr, Hin, Ht, Hkept.
    specialize (Hr s Hsec). destruct (Hin s Hsec) as [Hlo Hhi].
    destruct (Ht s Hsec) as [Htitle _].
    assert (Hne : kept <> []).
    { intros E. rewrite E in Hsec. exact Hsec. }
    assert (Hb : forall n, In n (map page_number kept) ->
                           first_page_number pages <= n
                           <= last_page_number pages).
    { intros n Hn. apply (ascending_bounds pages Hasc).
      apply in_map_iff in Hn. destruct Hn as (q & <- & Hq).
      apply in_map. exact (proj1 (Hkept q Hq)). }
    assert (Hfirst : In (first_page_number kept) (map page_number kept)).
    { destruct kept; [contradiction | left; reflexivity]. }
    pose proof (last_page_number_in kept Hne) as Hlast.
    apply Hb in Hfirst. apply Hb in Hlast.
    repeat split; try assumption; lia. }
  assert (Hout : forall P : BookSection -> Prop,
             (forall s t, P s -> P {| title := title s;
                                      start_page := start_page s;
                                      end_page := end_page s;
                                      content := t;
                                      section_type := section_type s |}) ->
             Forall P (detect_chapters kept) ->
             Forall P (filter_sections (clean_section_content env)
                         (detect_chapters kept) (flags config))).
  { intros P HP HF. unfold filter_sections.
    apply List.Forall_forall. intros s Hsec. apply in_map_iff in Hsec.
    destruct Hsec as (s0 & <- & Hs0). apply List.filter_In in Hs0.
    rewrite List.Forall_forall in HF. apply HP, HF. tauto. }
  split; [| split].
  - apply Hout; [intros s t H; exact H |].
    eapply List.Forall_impl; [| exact Hall]. intros s H. exact (proj1 H).
  - apply filter_sections_keeps. exact Hs.
  - apply Hout; [intros s t H; exact H |].
    eapply List.Forall_impl; [| exact Hall]. intros s H. exact (proj2 H).
Qed.

Lemma pipeline_sections_sorted_witness :
  let kept :=
    filter_pages (count_matches calm) (toc_line calm) two_chapter_book
      (flags Config) in
  let sections :=
    filter_sections (clean_section_content calm) (detect_chapters kept)
      (flags Config) in
  ascending two_chapter_book
  /\ map page_number kept = [2; 3; 5]
  /\ map (fun s => (start_page s, end_page s, len_words (content s)))
       sections
     = [(2, 4, 182); (5, 5, 122)]
  /\ Forall range_ok sections
  /\ StronglySorted precedes sections
  /\ Forall (fun s => truthy (title s) = true
                      /\ 1 <= start_page s /\ end_page s <= 5)
       sections.
Proof.
  intros kept sections.
  assert (Hasc : ascending two_chapter_book).
  { unfold ascending. vm_compute. repeat constructor. }
  split; [exact Hasc |].
  split; [vm_compute; reflexivity |].
  split; [vm_compute; reflexivity |].
  exact (pipeline_sections_sorted calm Config two_chapter_book Hasc).
Defined.

(** ** Audio assembler: payload order, decoding, labelled chunks *)

Lemma clips_app (a b : AudioSegment) : clips (a ++ b) = clips a ++ clips b.
Proof. unfold clips. apply flat_map_app. Qed.

Lemma clips_assembled (pause_ms : Z) (chunks : list AudioChunk) :
  clips (assembled pause_ms chunks) = map audio_data chunks.
Proof.
  induction chunks as [| a rest IH]; [reflexivity |].
  cbn [assembled map]. change (clips (?p :: ?l)) with (clips [p] ++ clips l).
  rewrite clips_app, IH. cbn [clips flat_map app].
  destruct rest as [| b rest']; [reflexivity |].
  destruct (chapter_break a b); reflexivity.
Qed.

Lemma combine_loop_decodes {S} (mp3_ok : bytes -> bool) (pause : Q)
    (cb : option (str -> Q -> M S unit)) (total : Z)
    (rest : list AudioChunk) :
  forall (i : Z) (acc : AudioSegment) (w w' : S) (audio : AudioSegment),
    combine_loop mp3_ok total pause cb i rest acc w = (Ok audio, w') ->
    Forall (fun c => mp3_ok (audio_data c) = true) rest.
Proof.
  induction rest as [| chunk rest IH]; intros i acc w w' audio H;
    [constructor |].
  cbn [combine_loop] in H.
  apply bind_ok_inv in H. destruct H as (u & w1 & _ & H).
  apply bind_ok_inv in H. destruct H as (seg & w2 & Hseg & H).
  unfold from_file in Hseg.
  destruct (mp3_ok (audio_data chunk)) eqn:Hok; [| discriminate Hseg].
  constructor; [exact Hok |]. eapply IH. exact H.
Qed.

(** X8: whenever [combine_audio_chunks] returns, every payload was
    decoded, and the decoded payloads make up the result in the order
    of the chunks, none left out and none twice. *)
Theorem combine_keeps_payloads :
  forall (S : Type) (mp3_ok : bytes -> bool) (chunks : list AudioChunk)
         (pause : Q) (cb : option (str -> Q -> M S unit)) (w w' : S)
         (audio : AudioSegment),
    combine_audio_chunks mp3_ok chunks pause cb w = (Ok audio, w') ->
    clips audio = map audio_data chunks
    /\ Forall (fun c => mp3_ok (audio_data c) = true) chunks.
Proof.
  intros S mp3_ok chunks pause cb w w' audio H.
  unfold combine_audio_chunks in H.
  apply bind_ok_inv in H. destruct H as (a & w1 & Hloop & H).
  apply bind_ok_inv in H. destruct H as (u & w2 & _ & H).
  unfold ret in H. inversion H; subst a w2. split.
  - apply combine_loop_ok in Hloop. rewrite Hloop. apply clips_assembled.
  - eapply combine_loop_decodes. exact Hloop.
Qed.

Lemma combine_keeps_payloads_witness :
  clips [Clip [Byte.x01]; Clip [Byte.x02]; Silence 2000; Clip [Byte.x03]]
  = map audio_data three_chunks.
Proof.
  refine (proj1 (combine_keeps_payloads unit (fun _ => true) three_chunks 2
                   None tt tt _ _)).
  reflexivity.
Defined.

Lemma labelled_transitions (chunks : list AudioChunk) :
  Forall has_label chunks ->
  transitions chapter_break chunks = transitions label_change chunks.
Proof.
  induction chunks as [| a rest IH]; intros H; [reflexivity |].
  destruct rest as [| b rest']; [reflexivity |].
  inversion H as [| ? ? Ha Hrest]; subst.
  change (transitions chapter_break (a :: b :: rest'))
    with ((if chapter_break a b then 1 else 0)
          + transitions chapter_break (b :: rest')).
  change (transitions label_change (a :: b :: rest'))
    with ((if label_change a b then 1 else 0)
          + transitions label_change (b :: rest')).
  rewrite (IH Hrest). unfold chapter_break, label_change.
  unfold has_label in Ha. rewrite Ha.
  apply Forall_inv in Hrest. unfold has_label in Hrest. rewrite Hrest.
  reflexivity.
Qed.

(** X9: when every chunk has a non-empty chapter label, as the
    chunks the worker builds have, the combined audio is as long as
    the payloads and one pause for every change of label between
    neighbouring chunks. *)
Theorem combine_labelled_pauses :
  forall (S : Type) (mp3_ok : bytes -> bool) (clip_ms : bytes -> Z)
         (chunks : list AudioChunk) (pause : Q)
         (cb : option (str -> Q -> M S unit)) (w w' : S)
         (audio : AudioSegment),
    Forall has_label chunks ->
    combine_audio_chunks mp3_ok chunks pause cb w = (Ok audio, w') ->
    duration_ms clip_ms audio
    = payload_ms clip_ms chunks
      + Z.max 0 (int_of_Q (pause * 1000)) * transitions label_change chunks.
Proof.
  intros S mp3_ok clip_ms chunks pause cb w w' audio Hl H.
  unfold combine_audio_chunks in H.
  apply bind_ok_inv in H. destruct H as (a & w1 & Hloop & H).
  apply bind_ok_inv in H. destruct H as (u & w2 & _ & H).
  unfold ret in H. inversion H; subst a w2.
  apply combine_loop_ok in Hloop. rewrite Hloop. unfold empty. cbn [app].
  rewrite assembled_duration, labelled_transitions by exact Hl.
  reflexivity.
Qed.

Lemma combine_labelled_pauses_witness :
  Forall has_label three_chunks
  /\ duration_ms (fun _ => 1500)
       [Clip [Byte.x01]; Clip [Byte.x02]; Silence 2000; Clip [Byte.x03]]
     = 4500 + 2000 * transitions label_change three_chunks.
Proof.
  assert (Hl : Forall has_label three_chunks) by (repeat constructor).
  split; [exact Hl |].
  exact (combine_labelled_pauses unit (fun _ => true) (fun _ => 1500)
           three_chunks 2 None tt tt _ Hl eq_refl).
Defined.

(** ** Job supervisor: frame and outcomes *)

Lemma str_eqb_eq (a b : str) : str_eqb a b = true <-> a = b.
Proof.
  revert b. induction a as [| x a IH]; intros [| y b]; cbn; split;
    try congruence; try reflexivity.
  - intros H. apply andb_true_iff in H. destruct H as [Hx Hr].
    apply Ascii.eqb_eq in Hx. apply IH in Hr. congruence.
  - intros H. inversion H; subst. rewrite Ascii.eqb_refl. cbn.
    apply IH. reflexivity.
Qed.

Lemma read_status_run (env : Env) (w : World) :
  read_status env w = (Ok (status (job (polled env w))), polled env w).
Proof. reflexivity. Qed.

Lemma polled_cancelled (env : Env) (w : World) :
  status (job w) = cancelled \/ cancel_request env (status_reads w) = true ->
  status (job (polled env w)) = cancelled.
Proof.
  intros [H | H]; unfold polled; cbn [job].
  - destruct (cancel_request env (status_reads w)); [reflexivity | exact H].
  - rewrite H. reflexivity.
Qed.

Lemma extends_refl (w : World) : extends w w.
Proof.
  unfold extends. repeat split; try reflexivity.
  exists []. rewrite app_nil_r. reflexivity.
Qed.

Lemma extends_trans (a b c : World) :
  extends a b -> extends b c -> extends a c.
Proof.
  intros (H1 & H2 & H3 & (t & H4) & H5 & H6)
         (G1 & G2 & G3 & (u & G4) & G5 & G6).
  unfold extends. repeat split; try congruence; try lia.
  exists (t ++ u). rewrite G4, H4, app_assoc. reflexivity.
Qed.

Lemma keeps_ret {A} (a : A) : keeps (ret a).
Proof. intros w. apply extends_refl. Qed.

Lemma keeps_raise {A} (e : str) : keeps (@raise World A e).
Proof. intros w. apply extends_refl. Qed.

Lemma keeps_lift {A} (r : result A) : keeps (lift r).
Proof. intros w. apply extends_refl. Qed.

Lemma keeps_get : keeps (@get World).
Proof. intros w. apply extends_refl. Qed.

Lemma keeps_bind {A B} (m : M World A) (k : A -> M World B) :
  keeps m -> (forall a, keeps (k a)) -> keeps (bind m k).
Proof.
  intros Hm Hk w. unfold bind. specialize (Hm w).
  destruct (m w) as [[a | e] w1]; cbn [snd] in *.
  - eapply extends_trans; [exact Hm | apply Hk].
  - exact Hm.
Qed.

Lemma keeps_try {A} (m : M World A) : keeps m -> keeps (try m).
Proof.
  intros Hm w. unfold try. specialize (Hm w).
  destruct (m w) as [r w1]. exact Hm.
Qed.

Lemma keeps_set_job (f : Job -> Job) :
  (forall j, job_id (f j) = job_id j /\ filename (f j) = filename j
             /\ upload_path (f j) = upload_path j) ->
  keeps (set_job f).
Proof.
  intros Hf w. destruct (Hf (job w)) as (H1 & H2 & H3).
  unfold set_job, modify, extends. cbn. repeat split; try assumption; try lia.
  exists []. rewrite app_nil_r. reflexivity.
Qed.

Lemma keeps_emit (e : Event) : keeps (emit e).
Proof.
  intros w. unfold emit, modify, extends. cbn.
  repeat split; try lia. exists [e]. reflexivity.
Qed.

Lemma keeps_read_status (env : Env) : keeps (read_status env).
Proof.
  intros w. rewrite read_status_run. unfold polled, extends. cbn.
  repeat split; try lia;
    try (destruct (cancel_request env (status_reads w)); reflexivity).
  exists []. rewrite app_nil_r. reflexivity.
Qed.

Create HintDb frame.

#[local] Hint Resolve keeps_ret keeps_raise keeps_lift keeps_get keeps_try
  keeps_emit keeps_read_status : frame.

Ltac frame_step :=
  first [ solve [auto with frame]
        | apply keeps_set_job; intros ?; cbn; repeat split; reflexivity
        | apply keeps_bind; [| intros ?]
        | match goal with
          | |- keeps (if ?b then _ else _) => destruct b
          | |- keeps (match ?r with Ok _ => _ | Raise _ => _ end) =>
              destruct r
          | |- keeps (match ?o with Some _ => _ | None => _ end) =>
              destruct o
          | |- keeps (match ?o with Responds _ => _ | Raises _ => _ end) =>
              destruct o
          end ].

Lemma keeps_update_progress (env : Env) (msg : str) (prog : Q) :
  keeps (update_progress env msg prog).
Proof. unfold update_progress. repeat frame_step. Qed.

Lemma keeps_synthesize_once (env : Env) (chunk : str * str) :
  keeps (synthesize_once env chunk).
Proof.
  intros w. rewrite synthesize_once_run. unfold called, extends. cbn.
  repeat split; try lia. exists [Synthesize (fst chunk)]. reflexivity.
Qed.

#[local] Hint Resolve keeps_update_progress keeps_synthesize_once : frame.

Lemma keeps_tts_while (env : Env) (chunk : str * str) (prog : Q)
    (audio_chunks : list AudioChunk) (fuel : nat) :
  forall n : Z, keeps (tts_while env fuel n chunk prog audio_chunks).
Proof.
  induction fuel as [| fuel IH]; intros n; cbn [tts_while];
    repeat frame_step; try apply IH.
Qed.

#[local] Hint Resolve keeps_tts_while : frame.

Lemma keeps_synthesize_all (env : Env) (n : Z) (rest : list (str * str)) :
  forall (i : Z) (audio_chunks : list AudioChunk),
    keeps (synthesize_all env n i rest audio_chunks).
Proof.
  induction rest as [| chunk rest IH]; intros i audio_chunks;
    cbn [synthesize_all]; repeat frame_step; try apply IH.
Qed.

Lemma keeps_call_back (cb : option (str -> Q -> M World unit)) (msg : str)
    (prog : Q) :
  (forall f, cb = Some f -> forall m p, keeps (f m p)) ->
  keeps (call_back cb msg prog).
Proof.
  intros H. unfold call_back. destruct cb as [f |]; [| apply keeps_ret].
  apply (H f eq_refl).
Qed.

Lemma keeps_combine_loop (mp3_ok : bytes -> bool) (total : Z) (pause : Q)
    (cb : option (str -> Q -> M World unit)) (rest : list AudioChunk) :
  (forall f, cb = Some f -> forall m p, keeps (f m p)) ->
  forall (i : Z) (acc : AudioSegment),
    keeps (combine_loop mp3_ok total pause cb i rest acc).
Proof.
  intros H. induction rest as [| chunk rest IH]; intros i acc;
    cbn [combine_loop]; [apply keeps_ret |].
  apply keeps_bind; [apply keeps_call_back; exact H | intros _].
  apply keeps_bind; [| intros seg; apply IH].
  unfold from_file. destruct (mp3_ok (audio_data chunk));
    [apply keeps_ret | apply keeps_raise].
Qed.

Lemma keeps_combine_audio_chunks (mp3_ok : bytes -> bool)
    (chunks : list AudioChunk) (pause : Q)
    (cb : option (str -> Q -> M World unit)) :
  (forall f, cb = Some f -> forall m p, keeps (f m p)) ->
  keeps (combine_audio_chunks mp3_ok chunks pause cb).
Proof.
  intros H. unfold combine_audio_chunks.
  apply keeps_bind; [apply keeps_combine_loop; exact H | intros a].
  apply keeps_bind; [apply keeps_call_back; exact H | intros _].
  apply keeps_ret.
Qed.

Lemma keeps_export_mp3 (export_error : option str) (path : str)
    (cb : option (str -> Q -> M World unit)) :
  (forall f, cb = Some f -> forall m p, keeps (f m p)) ->
  keeps (export_mp3 export_error path cb).
Proof.
  intros H. unfold export_mp3.
  repeat (apply keeps_bind;
          [first [apply keeps_call_back; exact H
                 | destruct export_error; [apply keeps_raise | apply keeps_ret]]
          | intros _]).
  apply keeps_ret.
Qed.

Lemma keeps_prepare_chunks (env : Env) (config : AppConfig) (k : Z) :
  keeps (prepare_chunks env config k).
Proof. unfold prepare_chunks. repeat frame_step. Qed.

Lemma keeps_finish (env : Env) (config : AppConfig) (k : Z)
    (audio_chunks : list AudioChunk) :
  keeps (finish env config k audio_chunks).
Proof.
  unfold finish.
  apply keeps_bind; [apply keeps_update_progress | intros _].
  apply keeps_bind.
  { apply keeps_combine_audio_chunks. intros f Hf m p.
    inversion Hf; subst f. apply keeps_update_progress. }
  intros audio.
  apply keeps_bind; [apply keeps_update_progress | intros _].
  apply keeps_bind; [apply keeps_get | intros w0].
  apply keeps_bind.
  { apply keeps_export_mp3. intros f Hf m p.
    inversion Hf; subst f. apply keeps_update_progress. }
  intros _. repeat frame_step.
Qed.

Lemma keeps_run_pipeline (env : Env) (config : AppConfig) (k : Z) :
  keeps (run_pipeline env config k).
Proof.
  unfold run_pipeline.
  apply keeps_bind; [apply keeps_read_status | intros st].
  destruct (str_eqb st cancelled); [apply keeps_ret |].
  apply keeps_bind; [apply keeps_prepare_chunks | intros chunks].
  apply keeps_bind; [apply keeps_update_progress | intros _].
  apply keeps_bind; [apply keeps_synthesize_all | intros audio].
  apply keeps_finish.
Qed.

Lemma keeps_conversion_while (env : Env) (config : AppConfig) (fuel : nat) :
  forall k : Z, keeps (conversion_while env config fuel k).
Proof.
  induction fuel as [| fuel IH]; intros k; cbn [conversion_while];
    [apply keeps_ret |].
  destruct (k <? max_retries); [| apply keeps_ret].
  apply keeps_bind; [apply keeps_try, keeps_run_pipeline | intros r].
  destruct r as [u | e]; [apply keeps_ret |].
  destruct (k + 1 >=? max_retries).
  - repeat frame_step.
  - apply keeps_bind; [repeat frame_step | intros _].
    apply keeps_bind; [apply keeps_emit | intros _].
    apply keeps_bind; [apply keeps_emit | intros _].
    apply IH.
Qed.

Lemma update_progress_run (env : Env) (msg : str) (prog : Q) (w : World) :
  update_progress env msg prog w
  = (if str_eqb (status (job (polled env (announced msg prog w)))) cancelled
     then Raise (lit "Job was cancelled by user") else Ok tt,
     polled env (announced msg prog w)).
Proof.
  unfold update_progress, read_status, set_job, emit, bind, get, modify, ret,
    raise. cbn [job status_reads tts_calls trace].
  unfold polled, announced. cbn [job status_reads tts_calls trace].
  destruct (cancel_request env (status_reads w)); cbn [job status];
    [reflexivity |].
  destruct (str_eqb (status (job w)) cancelled); reflexivity.
Qed.

Lemma finish_ok (env : Env) (config : AppConfig) (k : Z)
    (audio_chunks : list AudioChunk) (w w' : World) (u : unit) :
  finish env config k audio_chunks w = (Ok u, w') -> completed config w'.
Proof.
  unfold finish. intros H.
  apply bind_ok_inv in H. destruct H as (u1 & w1 & _ & H).
  apply bind_ok_inv in H. destruct H as (a & w2 & _ & H).
  apply bind_ok_inv in H. destruct H as (u3 & w3 & _ & H).
  apply bind_ok_inv in H. destruct H as (w0 & w4 & Hget & H).
  unfold get in Hget. inversion Hget; subst w0 w4. clear Hget.
  apply bind_ok_inv in H. destruct H as (p & w5 & Hexp & H).
  apply bind_ok_inv in H. destruct H as (u6 & w6 & Hset & H).
  unfold set_job, modify in Hset. inversion Hset; subst w6. clear Hset.
  unfold emit, modify in H. inversion H; subst w'. clear H.
  match type of Hexp with
  | export_mp3 ?x ?path ?cb w3 = _ =>
      assert (Hk : extends w3 (snd (export_mp3 x path cb w3)))
  end.
  { apply keeps_export_mp3. intros f Hf m q.
    inversion Hf; subst f. apply keeps_update_progress. }
  rewrite Hexp in Hk. cbn [snd] in Hk. destruct Hk as (Hid & Hfn & _).
  unfold completed, output_path, output_filename.
  cbn [job status progress output_file job_id filename trace].
  rewrite Hid, Hfn. repeat split. eexists. reflexivity.
Qed.

Lemma run_pipeline_ok (env : Env) (config : AppConfig) (k : Z)
    (w w' : World) (u : unit) :
  run_pipeline env config k w = (Ok u, w') ->
  (w' = polled env w /\ was_cancelled w') \/ completed config w'.
Proof.
  unfold run_pipeline. rewrite (bind_ok _ _ _ _ _ (read_status_run env w)).
  destruct (str_eqb (status (job (polled env w))) cancelled) eqn:Hc.
  - unfold ret. intros H. inversion H; subst w'. left.
    split; [reflexivity |]. apply str_eqb_eq. exact Hc.
  - intros H.
    apply bind_ok_inv in H. destruct H as (chunks & w1 & _ & H).
    apply bind_ok_inv in H. destruct H as (u2 & w2 & _ & H).
    apply bind_ok_inv in H. destruct H as (audio & w3 & _ & H).
    right. eapply finish_ok. exact H.
Qed.

Lemma given_up_failed (e : str) (w : World) : failed (given_up e w).
Proof.
  unfold failed, given_up. cbn. split; [reflexivity |].
  exists e, (trace w). repeat split.
Qed.

Lemma conversion_while_outcome (env : Env) (config : AppConfig)
    (fuel : nat) :
  forall (k : Z) (w : World),
    Z.of_nat fuel = 3 - k -> (0 < fuel)%nat ->
    exists w',
      conversion_while env config fuel k w = (Ok tt, w')
      /\ (completed config w' \/ failed w' \/ was_cancelled w').
Proof.
  induction fuel as [| fuel IH]; intros k w Hk Hpos; [lia |].
  cbn [conversion_while].
  replace (k <? max_retries) with true
    by (symmetry; apply Z.ltb_lt; unfold max_retries; lia).
  unfold bind at 1. unfold try.
  destruct (run_pipeline env config k w) as [[u | e] w1] eqn:Hrun.
  - exists w1. destruct u. split; [reflexivity |].
    destruct (run_pipeline_ok env config k w w1 tt Hrun) as [[_ H] | H];
      [right; right; exact H | left; exact H].
  - change (k + 1 >=? max_retries) with (k + 1 >=? 3).
    destruct (k + 1 >=? 3) eqn:Hlast.
    + exists (given_up e w1). split; [reflexivity |].
      right; left. apply given_up_failed.
    + assert (Hk' : k + 1 < 3) by (rewrite Z.geb_leb in Hlast; apply Z.leb_gt in Hlast; lia).
      destruct (IH (k + 1) (retrying (k + 1) w1)) as (w' & Hrest & Hout);
        [lia | lia |].
      exists w'. split; [| exact Hout]. exact Hrest.
Qed.

(** X10: whatever the collaborators do, [process_conversion] returns
    without an exception, and the job it leaves is completed (progress
    100, the output file recorded, a completion event last), failed
    (the error recorded, a conversion error event last) or cancelled;
    the job keeps its id, file name and upload path, and the events
    sent before are still there, in order. *)
Theorem process_conversion_outcome :
  forall (env : Env) (config : AppConfig) (w : World),
    exists w',
      process_conversion env config w = (Ok tt, w')
      /\ extends w w'
      /\ (completed config w' \/ failed w' \/ was_cancelled w').
Proof.
  intros env config w.
  destruct (conversion_while_outcome env config 3 0 w) as (w' & Hrun & Hout);
    [reflexivity | lia |].
  exists w'. split; [exact Hrun |]. split; [| exact Hout].
  pose proof (keeps_conversion_while env config 3 0 w) as Hk.
  unfold process_conversion. change (Z.to_nat max_retries) with 3%nat.
  rewrite Hrun in Hk. exact Hk.
Qed.

(** X11: a job that is cancelled when the worker first looks at it, before
    the run or by a request that arrives just then, is left alone: the
    function returns at once, no event is sent and no synthesis call is
    made. *)
Theorem cancelled_job_is_left_alone :
  forall (env : Env) (config : AppConfig) (w : World),
    status (job w) = cancelled
    \/ cancel_request env (status_reads w) = true ->
    process_conversion env config w = (Ok tt, polled env w)
    /\ was_cancelled (polled env w)
    /\ trace (polled env w) = trace w
    /\ tts_calls (polled env w) = tts_calls w.
Proof.
  intros env config w H. pose proof (polled_cancelled env w H) as Hc.
  split; [| split; [exact Hc | split; reflexivity]].
  unfold process_conversion. change (Z.to_nat max_retries) with 3%nat.
  cbn [conversion_while]. change (0 <? max_retries) with true. cbv iota.
  unfold bind at 1. unfold try. unfold run_pipeline.
  rewrite (bind_ok _ _ _ _ _ (read_status_run env w)).
  rewrite Hc. reflexivity.
Qed.

Lemma cancelled_job_is_left_alone_witness :
  process_conversion cancel_in_first_run Config
    (start (set_status cancelled book_job))
  = (Ok tt, polled cancel_in_first_run (start (set_status cancelled book_job))).
Proof.
  refine (proj1 (cancelled_job_is_left_alone cancel_in_first_run Config
                   (start (set_status cancelled book_job)) _)).
  left. reflexivity.
Defined.

Lemma polled_stays_cancelled (env : Env) (w : World) :
  was_cancelled w -> was_cancelled (polled env w).
Proof. intros H. apply polled_cancelled. left. exact H. Qed.

(** X12: a cancellation is seen by the next progress update, which raises
    "Job was cancelled by user"; the supervisor treats that exception
    like any other failure of the run.  After the first or the second
    run the job-level backoff is announced and slept through, and only
    then the next run finds the job cancelled and returns; after the
    third run the job is marked failed, with the exception as its
    error. *)
Theorem cancellation_is_retried :
  forall (env : Env) (config : AppConfig) (k : Z) (w w1 : World) (e : str),
    run_pipeline env config k w = (Raise e, w1) ->
    was_cancelled w1 ->
    (forall (msg : str) (prog : Q),
        update_progress env msg prog w1
        = (Raise (lit "Job was cancelled by user"),
           polled env (announced msg prog w1)))
    /\ (k = 0 \/ k = 1 ->
        conversion_while env config (Z.to_nat (3 - k)) k w
        = (Ok tt, polled env (retrying (k + 1) w1))
        /\ was_cancelled (polled env (retrying (k + 1) w1))
        /\ sleeps (trace (polled env (retrying (k + 1) w1)))
           = sleeps (trace w1) ++ [5 * (k + 1)])
    /\ (k = 2 ->
        conversion_while env config 1 2 w = (Ok tt, given_up e w1)
        /\ failed (given_up e w1)
        /\ error (job (given_up e w1)) = Some e).
Proof.
  intros env config k w w1 e Hrun Hc. split; [| split].
  - intros msg prog. rewrite update_progress_run.
    assert (H : was_cancelled (polled env (announced msg prog w1))).
    { apply polled_stays_cancelled. exact Hc. }
    unfold was_cancelled in H. rewrite H. reflexivity.
  - intros Hk.
    assert (H : was_cancelled (polled env (retrying (k + 1) w1))).
    { apply polled_stays_cancelled. exact Hc. }
    split; [| split; [exact H |]].
    + assert (Hnext : forall fuel,
                 conversion_while env config (S fuel) (k + 1)
                   (retrying (k + 1) w1)
                 = (Ok tt, polled env (retrying (k + 1) w1))).
      { intros fuel. cbn [conversion_while].
        replace (k + 1 <? max_retries) with true
          by (destruct Hk; subst k; reflexivity).
        unfold bind at 1. unfold try. unfold run_pipeline.
        rewrite (bind_ok _ _ _ _ _
                   (read_status_run env (retrying (k + 1) w1))).
        unfold was_cancelled in H. rewrite H. reflexivity. }
      destruct Hk; subst k.
      * change (Z.to_nat (3 - 0)) with 3%nat. cbn [conversion_while].
        change (0 <? max_retries) with true. cbv iota.
        unfold bind at 1. unfold try. rewrite Hrun.
        change (0 + 1 >=? max_retries) with false. cbv iota.
        exact (Hnext 1%nat).
      * change (Z.to_nat (3 - 1)) with 2%nat. cbn [conversion_while].
        change (1 <? max_retries) with true. cbv iota.
        unfold bind at 1. unfold try. rewrite Hrun.
        change (1 + 1 >=? max_retries) with false. cbv iota.
        exact (Hnext 0%nat).
    + unfold polled, retrying, slept. cbn [trace]. unfold sleeps.
      rewrite !flat_map_app. cbn. rewrite app_nil_r. reflexivity.
  - intros ->. split; [| split; [apply given_up_failed | reflexivity]].
    cbn [conversion_while]. change (2 <? max_retries) with true. cbv iota.
    unfold bind at 1. unfold try. rewrite Hrun. reflexivity.
Qed.

Lemma cancellation_is_retried_witness :
  sleeps (trace (snd (process_conversion cancel_in_first_run Config
                        (start book_job))))
  = [5]
  /\ was_cancelled (snd (process_conversion cancel_in_first_run Config
                           (start book_job))).
Proof.
  pose (r := run_pipeline cancel_in_first_run Config 0 (start book_job)).
  assert (Hr : r = (Raise (lit "Job was cancelled by user"), snd r))
    by (vm_compute; reflexivity).
  assert (Hc : was_cancelled (snd r)) by (vm_compute; reflexivity).
  destruct (cancellation_is_retried cancel_in_first_run Config 0
              (start book_job) (snd r) _ Hr Hc) as (_ & H & _).
  destruct (H (or_introl eq_refl)) as (Hrun & Hcan & Hsl).
  unfold process_conversion. change (Z.to_nat max_retries) with 3%nat.
  change (Z.to_nat (3 - 0)) with 3%nat in Hrun. rewrite Hrun. cbn [snd].
  split; [| exact Hcan]. rewrite Hsl. vm_compute. reflexivity.
Defined.

(** ** Synthesis orchestrator: one audio chunk per text chunk *)

Lemma update_progress_calls (env : Env) (msg : str) (prog : Q)
    (w w' : World) (r : result unit) :
  update_progress env msg prog w = (r, w') -> tts_calls w' = tts_calls w.
Proof.
  rewrite update_progress_run. intros H. inversion H. reflexivity.
Qed.

Lemma tts_while_ok (env : Env) (chunk : str * str) (prog : Q) (fuel : nat) :
  forall (n : Z) (acc out : list AudioChunk) (w w' : World),
    Z.of_nat fuel = 3 - n -> (0 < fuel)%nat ->
    tts_while env fuel n chunk prog acc w = (Ok out, w') ->
    exists c,
      out = acc ++ [c]
      /\ chunk_text c = fst chunk
      /\ chapter c = Some (snd chunk)
      /\ (tts_calls w < tts_calls w' <= tts_calls w + fuel)%nat.
Proof.
  induction fuel as [| fuel IH]; intros n acc out w w' Hn Hpos H; [lia |].
  cbn [tts_while] in H.
  replace (n <? max_tts_retries) with true in H
    by (symmetry; apply Z.ltb_lt; unfold max_tts_retries; lia).
  unfold bind at 1 in H. unfold try in H. rewrite synthesize_once_run in H.
  destruct (attempt_error (tts env (tts_calls w))) as [e |].
  - change (n + 1 >=? max_tts_retries) with (n + 1 >=? 3) in H.
    destruct (n + 1 >=? 3) eqn:Hlast; [discriminate H |].
    rewrite Z.geb_leb in Hlast. apply Z.leb_gt in Hlast.
    apply bind_ok_inv in H. destruct H as (u1 & w1 & Hup & H).
    apply bind_ok_inv in H. destruct H as (u2 & w2 & Hem & H).
    apply update_progress_calls in Hup. cbn [called tts_calls] in Hup.
    unfold emit, modify in Hem. inversion Hem; subst w2. clear Hem.
    apply IH in H; [| lia | lia].
    destruct H as (c & Hout & Ht & Hc & Hcalls).
    exists c. repeat split; try assumption;
      cbn [tts_calls] in Hcalls; lia.
  - unfold ret in H. inversion H; subst out w'.
    exists (audio_chunk_of (tts env (tts_calls w)) chunk).
    repeat split; cbn [called tts_calls]; lia.
Qed.

(** X13: whenever the synthesis loop gets through the chunk list, it has
    appended exactly one audio chunk per text chunk, in order, each
    with the text and the chapter label of its chunk, and it has called
    the backend at least once and at most three times per chunk;
    whether or not calls failed on the way. *)
Theorem synthesize_all_one_per_chunk (env : Env) (n : Z)
    (rest : list (str * str)) :
  forall (i : Z) (acc out : list AudioChunk) (w w' : World),
    synthesize_all env n i rest acc w = (Ok out, w') ->
    exists new,
      out = acc ++ new
      /\ map chunk_text new = map fst rest
      /\ map chapter new = map (fun c => Some (snd c)) rest
      /\ (tts_calls w + length rest <= tts_calls w'
          <= tts_calls w + 3 * length rest)%nat.
Proof.
  induction rest as [| chunk rest IH]; intros i acc out w w' H.
  - cbn in H. unfold ret in H. inversion H; subst out w'.
    exists []. rewrite app_nil_r. repeat split; cbn; lia.
  - cbn [synthesize_all] in H.
    apply bind_ok_inv in H. destruct H as (u1 & w1 & Hup & H).
    apply bind_ok_inv in H. destruct H as (mid & w2 & Hone & H).
    apply update_progress_calls in Hup.
    change (Z.to_nat max_tts_retries) with 3%nat in Hone.
    apply tts_while_ok in Hone; [| reflexivity | lia].
    destruct Hone as (c & Hmid & Ht & Hc & Hcalls).
    apply IH in H. destruct H as (new & Hout & Hts & Hcs & Hcalls').
    exists (c :: new). subst mid. rewrite <- app_assoc in Hout.
    split; [exact Hout |]. cbn [map length]. rewrite Ht, Hc, Hts, Hcs.
    repeat split; lia.
Qed.

Lemma synthesize_all_one_per_chunk_witness :
  exists new,
    fst (synthesize_all third_time_lucky 1 0
           [(lit "It began", lit "Chapter 1")] [] (start book_job))
    = Ok ([] ++ new)
    /\ map chunk_text new = [lit "It began"]
    /\ map chapter new = [Some (lit "Chapter 1")].
Proof.
  pose (r := synthesize_all third_time_lucky 1 0
               [(lit "It began", lit "Chapter 1")] [] (start book_job)).
  assert (Hr : r = (Ok [audio_chunk_of audio_response
                          (lit "It began", lit "Chapter 1")], snd r))
    by (vm_compute; reflexivity).
  destruct (synthesize_all_one_per_chunk third_time_lucky 1 _ 0 [] _
              (start book_job) (snd r) Hr) as (new & Hout & Ht & Hc & _).
  exists new. fold r. rewrite Hr. cbn [fst]. rewrite Hout.
  split; [reflexivity |]. split; [exact Ht | exact Hc].
Defined.

(** ** Job supervisor: the run in which nothing fails *)

Lemma sleeps_app (a b : list Event) : sleeps (a ++ b) = sleeps a ++ sleeps b.
Proof. unfold sleeps. apply flat_map_app. Qed.

Lemma synthesized_app (a b : list Event) :
  synthesized (a ++ b) = synthesized a ++ synthesized b.
Proof. unfold synthesized. apply flat_map_app. Qed.

Lemma run_step_refl (w : World) : run_step [] w w.
Proof.
  unfold run_step. repeat split; cbn [length]; try lia.
  exists []. rewrite app_nil_r. repeat split.
Qed.

Lemma run_step_trans (a b : list str) (w w1 w2 : World) :
  run_step a w w1 -> run_step b w1 w2 -> run_step (a ++ b) w w2.
Proof.
  intros (H1 & H2 & H3 & H4 & t & H5 & H6 & H7)
         (G1 & G2 & G3 & G4 & u & G5 & G6 & G7).
  unfold run_step. rewrite length_app.
  repeat split; try congruence; try lia.
  exists (t ++ u). rewrite G5, H5, app_assoc, synthesized_app, sleeps_app.
  rewrite H6, G6, H7, G7. repeat split.
Qed.

Lemma run_step_quiet (w w1 w2 : World) (texts : list str) :
  run_step [] w w1 -> run_step texts w1 w2 -> run_step texts w w2.
Proof. intros H1 H2. exact (run_step_trans [] texts w w1 w2 H1 H2). Qed.

Lemma run_step_then_quiet (w w1 w2 : World) (texts : list str) :
  run_step texts w w1 -> run_step [] w1 w2 -> run_step texts w w2.
Proof.
  intros H1 H2. rewrite <- (app_nil_r texts).
  exact (run_step_trans texts [] w w1 w2 H1 H2).
Qed.

Lemma run_step_progressed (msg : str) (prog : Q) (w : World) :
  run_step [] w (progressed msg prog w).
Proof.
  unfold run_step, progressed. cbn. repeat split; try lia.
  exists [ProgressUpdate msg prog]. repeat split.
Qed.

Lemma run_step_status_read (w : World) : run_step [] w (status_read w).
Proof.
  unfold run_step, status_read. cbn. repeat split; try lia.
  exists []. rewrite app_nil_r. repeat split.
Qed.

Lemma run_step_called (txt : str) (w : World) :
  run_step [txt] w (called txt w).
Proof.
  unfold run_step, called. cbn. repeat split; try lia.
  exists [Synthesize txt]. repeat split.
Qed.

Lemma run_step_live (texts : list str) (w w' : World) :
  run_step texts w w' -> not_cancelled w -> not_cancelled w'.
Proof. intros (H & _) Hn. unfold not_cancelled in *. rewrite H. exact Hn. Qed.

Lemma run_step_prepared (n : Z) (w : World) : run_step [] w (prepared n w).
Proof.
  unfold prepared.
  repeat (eapply run_step_quiet; [| apply run_step_progressed]).
  apply run_step_status_read.
Qed.

Lemma synthesize_all_answers (env : Env) (n : Z) (rest : list (str * str)) :
  quiet env ->
  forall (i : Z) (acc : list AudioChunk) (w : World),
    not_cancelled w ->
    (forall k, (tts_calls w <= k < tts_calls w + length rest)%nat ->
               attempt_error (tts env k) = None) ->
    exists w',
      synthesize_all env n i rest acc w
      = (Ok (acc ++ audio_of env (tts_calls w) rest), w')
      /\ run_step (map fst rest) w w'.
Proof.
  intros Hq. induction rest as [| chunk rest IH]; intros i acc w Hn Hans.
  - exists w. cbn. rewrite app_nil_r. split; [reflexivity |].
    apply run_step_refl.
  - rewrite synthesize_all_cons by assumption.
    set (w0 := progressed (synthesizing_message i n) (chunk_progress i n) w).
    assert (Hn0 : not_cancelled w0) by exact Hn.
    assert (E : error_after env w0 0 = None).
    { unfold error_after. rewrite Nat.add_0_r. apply Hans.
      cbn [length]. change (tts_calls w0) with (tts_calls w). lia. }
    rewrite (bind_ok _ _ _ _ _
               (retry_first_try env chunk (chunk_progress i n) acc w0
                  Hq Hn0 E)).
    destruct (IH (i + 1) (acc ++ [audio_after env w0 0 chunk])
                (called (fst chunk) w0)) as (w' & Hrun & Hstep).
    { exact Hn. }
    { intros k Hk. apply Hans. cbn [length].
      change (tts_calls (called (fst chunk) w0)) with (S (tts_calls w)) in Hk.
      lia. }
    exists w'. split.
    + rewrite Hrun. unfold audio_after. rewrite Nat.add_0_r.
      rewrite <- app_assoc. reflexivity.
    + change (map fst (chunk :: rest)) with ([fst chunk] ++ map fst rest).
      eapply run_step_trans; [| exact Hstep].
      eapply run_step_quiet; [apply run_step_progressed |].
      apply run_step_called.
Qed.

Lemma audio_of_decodes (env : Env) (chunks : list (str * str)) :
  forall first : nat,
    (forall k, (first <= k < first + length chunks)%nat ->
               mp3_ok env (payload (tts env k)) = true) ->
    Forall (fun c => mp3_ok env (audio_data c) = true)
      (audio_of env first chunks).
Proof.
  induction chunks as [| c rest IH]; intros first H; cbn [audio_of];
    constructor.
  - apply (H first). cbn [length]. lia.
  - apply IH. intros k Hk. apply H. cbn [length]. lia.
Qed.

Lemma combine_loop_quiet (env : Env) (f : Q -> Q) (total : Z) (pause : Q)
    (rest : list AudioChunk) :
  quiet env ->
  Forall (fun c => mp3_ok env (audio_data c) = true) rest ->
  forall (i : Z) (acc : AudioSegment) (w : World),
    not_cancelled w ->
    exists w',
      combine_loop (mp3_ok env) total pause
        (Some (fun msg prog => update_progress env msg (f prog))) i rest acc w
      = (Ok (acc ++ assembled (int_of_Q (pause * 1000)) rest), w')
      /\ run_step [] w w'.
Proof.
  intros Hq. induction 1 as [| chunk rest Hc _ IH]; intros i acc w Hn.
  - exists w. cbn. rewrite app_nil_r. split; [reflexivity |].
    apply run_step_refl.
  - cbn [combine_loop]. unfold call_back at 1.
    rewrite (bind_ok _ _ _ _ _
               (update_progress_quiet env _ _ w Hq Hn)).
    unfold from_file. rewrite Hc. unfold bind at 1. unfold ret at 1.
    match goal with
    | |- exists w', combine_loop _ _ _ _ _ _ ?acc' ?w0 = _ /\ _ =>
        destruct (IH (i + 1) acc' w0 Hn) as (w' & Hrun & Hstep)
    end.
    exists w'. split.
    + rewrite Hrun. cbn [assembled]. unfold chapter_break.
      destruct rest as [| next rest'].
      * simpl. rewrite <- app_assoc. reflexivity.
      * destruct (truthy_opt (chapter chunk) && truthy_opt (chapter next)
                  && opt_neb (chapter chunk) (chapter next));
          unfold silent; rewrite <- !app_assoc; reflexivity.
    + eapply run_step_quiet; [apply run_step_progressed | exact Hstep].
Qed.

Lemma finish_quiet (env : Env) (config : AppConfig) (k : Z)
    (audio_chunks : list AudioChunk) (w : World) :
  quiet env -> not_cancelled w ->
  Forall (fun c => mp3_ok env (audio_data c) = true) audio_chunks ->
  export_error env k = None ->
  exists w1,
    run_step [] w w1
    /\ finish env config k audio_chunks w = (Ok tt, finalised config w1).
Proof.
  intros Hq Hn Hok Hx. unfold finish.
  rewrite (bind_ok _ _ _ _ _ (update_progress_quiet env _ _ w Hq Hn)).
  set (w0 := progressed (lit "Combining audio chunks...") (8 # 10) w).
  destruct (combine_loop_quiet env (fun prog => (8 # 10) + prog * (15 # 100))%Q
              (len_list audio_chunks) (CHAPTER_PAUSE_DURATION config)
              audio_chunks Hq Hok 0 empty w0 Hn) as (w1 & Hloop & Hstep1).
  assert (Hn1 : not_cancelled w1) by (eapply run_step_live; eassumption).
  unfold combine_audio_chunks.
  rewrite bind_assoc, (bind_ok _ _ _ _ _ Hloop).
  unfold call_back at 1.
  rewrite bind_assoc,
    (bind_ok _ _ _ _ _ (update_progress_quiet env _ _ w1 Hq Hn1)).
  unfold bind at 1. unfold ret at 1.
  set (w2 := progressed (lit "Audio combination complete")
               ((8 # 10) + (8 # 10) * (15 # 100)) w1).
  rewrite (bind_ok _ _ _ _ _ (update_progress_quiet env _ _ w2 Hq Hn1)).
  set (w3 := progressed (lit "Exporting final MP3...") (95 # 100) w2).
  unfold bind at 1. unfold get at 1.
  unfold export_mp3. rewrite Hx. unfold call_back.
  rewrite !bind_assoc.
  rewrite (bind_ok _ _ _ _ _ (update_progress_quiet env _ _ w3 Hq Hn1)).
  rewrite !bind_assoc. unfold bind at 1. unfold ret at 1.
  rewrite !bind_assoc.
  match goal with
  | |- context [progressed ?m ?p w3] => set (w4 := progressed m p w3)
  end.
  rewrite (bind_ok _ _ _ _ _ (update_progress_quiet env _ _ w4 Hq Hn1)).
  rewrite !bind_assoc.
  match goal with
  | |- context [progressed ?m ?p w4] => set (w5 := progressed m p w4)
  end.
  rewrite (bind_ok _ _ _ _ _ (update_progress_quiet env _ _ w5 Hq Hn1)).
  match goal with
  | |- context [progressed ?m ?p w5] => set (w6 := progressed m p w5)
  end.
  exists w6. split.
  - eapply run_step_quiet; [apply run_step_progressed |].
    eapply run_step_quiet; [exact Hstep1 |].
    subst w6 w5 w4 w3 w2.
    repeat (eapply run_step_then_quiet; [| apply run_step_progressed]).
    apply run_step_refl.
  - reflexivity.
Qed.

Lemma run_pipeline_answers (env : Env) (config : AppConfig) (k : Z)
    (pages : list PageContent) (w : World) :
  quiet env -> not_cancelled w ->
  extract_text env k = Ok pages ->
  (forall i, (tts_calls w <= i
              < tts_calls w + length (chunk_list env config pages))%nat ->
             answers env i) ->
  export_error env k = None ->
  exists w1,
    run_step (map fst (chunk_list env config pages)) w w1
    /\ run_pipeline env config k w = (Ok tt, finalised config w1).
Proof.
  intros Hq Hn Hx Hans He.
  rewrite (run_pipeline_quiet env config k pages w Hq Hn Hx). cbv zeta.
  set (chunks := chunk_list env config pages) in *.
  set (w0 := prepared (len_list chunks) w).
  assert (H0 : run_step [] w w0) by apply run_step_prepared.
  assert (Hn0 : not_cancelled w0) by (eapply run_step_live; eassumption).
  assert (Hc0 : tts_calls w0 = tts_calls w) by reflexivity.
  destruct (synthesize_all_answers env (len_list chunks) chunks Hq 0 [] w0
              Hn0) as (w1 & Hrun & H1).
  { intros i Hi. apply Hans. lia. }
  assert (Hn1 : not_cancelled w1) by (eapply run_step_live; eassumption).
  rewrite (bind_ok _ _ _ _ _ Hrun). cbn [app].
  destruct (finish_quiet env config k (audio_of env (tts_calls w0) chunks) w1
              Hq Hn1) as (w2 & H2 & Hfin).
  { apply audio_of_decodes. intros i Hi. apply Hans. lia. }
  { exact He. }
  exists w2. split; [| exact Hfin].
  eapply run_step_quiet; [exact H0 |].
  eapply run_step_then_quiet; eassumption.
Qed.

Lemma finalised_completed (config : AppConfig) (w : World) :
  completed config (finalised config w).
Proof.
  unfold completed, finalised. cbn. repeat split. eexists. reflexivity.
Qed.

Lemma process_conversion_first_run (env : Env) (config : AppConfig)
    (w w' : World) :
  run_pipeline env config 0 w = (Ok tt, w') ->
  process_conversion env config w = (Ok tt, w').
Proof.
  intros H. unfold process_conversion.
  change (Z.to_nat max_retries) with 3%nat. cbn [conversion_while].
  change (0 <? max_retries) with true. cbv iota.
  unfold bind at 1. unfold try. rewrite H. reflexivity.
Qed.

(** X14: when nobody cancels, the text is extracted, every synthesis call
    of the run answers with audio that decodes and the export works,
    the job completes in the first run: the backend is called exactly
    once per text chunk, with the chunk texts in document order, and
    the worker never sleeps. *)
Theorem conversion_completes :
  forall (env : Env) (config : AppConfig) (pages : list PageContent)
         (w : World),
    quiet env -> not_cancelled w ->
    extract_text env 0 = Ok pages ->
    (forall i, (tts_calls w <= i
                < tts_calls w + length (chunk_list env config pages))%nat ->
               answers env i) ->
    export_error env 0 = None ->
    exists w',
      process_conversion env config w = (Ok tt, w')
      /\ completed config w'
      /\ tts_calls w'
         = (tts_calls w + length (chunk_list env config pages))%nat
      /\ synthesized (trace w')
         = synthesized (trace w) ++ map fst (chunk_list env config pages)
      /\ sleeps (trace w') = sleeps (trace w).
Proof.
  intros env config pages w Hq Hn Hx Hans He.
  destruct (run_pipeline_answers env config 0 pages w Hq Hn Hx Hans He)
    as (w1 & Hstep & Hrun).
  exists (finalised config w1).
  split; [apply process_conversion_first_run; exact Hrun |].
  split; [apply finalised_completed |].
  destruct Hstep as (_ & _ & _ & Hcalls & t & Ht & Hsyn & Hsl).
  cbn [finalised tts_calls trace]. rewrite length_map in Hcalls.
  split; [exact Hcalls |].
  rewrite Ht, !synthesized_app, !sleeps_app, Hsyn, Hsl. cbn.
  rewrite !app_nil_r. split; reflexivity.
Qed.

Lemma conversion_completes_witness :
  exists w',
    process_conversion calm Config (start book_job) = (Ok tt, w')
    /\ completed Config w'
    /\ tts_calls w' = 1%nat
    /\ length (synthesized (trace w')) = 1%nat
    /\ sleeps (trace w') = [].
Proof.
  assert (Hq : quiet calm) by (intros k; reflexivity).
  assert (Hn : not_cancelled (start book_job)) by reflexivity.
  assert (Hans : forall i,
             (tts_calls (start book_job) <= i
              < tts_calls (start book_job)
                + length (chunk_list calm Config [chapter_page]))%nat ->
             answers calm i) by (intros i _; split; reflexivity).
  destruct (conversion_completes calm Config [chapter_page] (start book_job)
              Hq Hn eq_refl Hans eq_refl)
    as (w' & Hrun & Hdone & Hcalls & Hsyn & Hsl).
  exists w'. split; [exact Hrun |]. split; [exact Hdone |].
  split; [rewrite Hcalls; vm_compute; reflexivity |].
  split; [rewrite Hsyn; vm_compute; reflexivity | exact Hsl].
Defined.

Lemma filter_pages_subset (count_matches : str -> str -> Z)
    (toc_line : str -> bool) (pages : list PageContent)
    (config : gmap string bool) (p : PageContent) :
  In p (filter_pages count_matches toc_line pages config) -> In p pages.
Proof.
  unfold filter_pages. intros H. apply List.filter_In in H. exact (proj1 H).
Qed.

Lemma filter_pages_no_heading (count_matches : str -> str -> Z)
    (toc_line : str -> bool) (pages : list PageContent)
    (config : gmap string bool) :
  Forall no_heading pages ->
  Forall no_heading (filter_pages count_matches toc_line pages config).
Proof.
  intros H. apply List.Forall_forall. intros p Hp.
  rewrite List.Forall_forall in H. apply H.
  eapply filter_pages_subset. exact Hp.
Qed.

(** X15: a document in which no page has a chapter heading yields no
    section and no text chunk; when nobody cancels and the export
    works, its job still completes, without a single synthesis call,
    and an output file is recorded. *)
Theorem headingless_document_completes :
  forall (env : Env) (config : AppConfig) (pages : list PageContent)
         (w : World),
    quiet env -> not_cancelled w ->
    extract_text env 0 = Ok pages ->
    Forall no_heading pages ->
    export_error env 0 = None ->
    chunk_list env config pages = []
    /\ exists w',
         process_conversion env config w = (Ok tt, w')
         /\ completed config w'
         /\ tts_calls w' = tts_calls w
         /\ synthesized (trace w') = synthesized (trace w).
Proof.
  intros env config pages w Hq Hn Hx Hnone He.
  assert (Hc : chunk_list env config pages = []).
  { unfold chunk_list.
    pose proof (detect_chapters_skips _ []
                  (filter_pages_no_heading (count_matches env) (toc_line env)
                     pages (flags config) Hnone)) as Hs.
    rewrite app_nil_r in Hs. rewrite Hs. reflexivity. }
  split; [exact Hc |].
  destruct (run_pipeline_answers env config 0 pages w Hq Hn Hx)
    as (w1 & Hstep & Hrun); [rewrite Hc; cbn; intros i Hi; lia | exact He |].
  exists (finalised config w1).
  split; [apply process_conversion_first_run; exact Hrun |].
  split; [apply finalised_completed |].
  destruct Hstep as (_ & _ & _ & Hcalls & t & Ht & Hsyn & _).
  rewrite Hc in Hcalls, Hsyn. cbn [finalised tts_calls trace].
  cbn in Hcalls. split; [lia |].
  rewrite Ht, !synthesized_app, Hsyn. cbn. rewrite !app_nil_r. reflexivity.
Qed.

Lemma headingless_document_completes_witness :
  chunk_list calm Config preface = []
  /\ exists w',
       process_conversion
         {| cancel_request := cancel_request calm;
            extract_text := fun _ => Ok preface;
            count_matches := count_matches calm;
            toc_line := toc_line calm;
            clean_section_content := clean_section_content calm;
            tts := tts backend_down;
            mp3_ok := mp3_ok calm;
            export_error := export_error calm |} Config (start book_job)
       = (Ok tt, w')
       /\ completed Config w'.
Proof.
  pose (env := {| cancel_request := cancel_request calm;
                  extract_text := fun _ => Ok preface;
                  count_matches := count_matches calm;
                  toc_line := toc_line calm;
                  clean_section_content := clean_section_content calm;
                  tts := tts backend_down;
                  mp3_ok := mp3_ok calm;
                  export_error := export_error calm |}).
  assert (Hq : quiet env) by (intros k; reflexivity).
  assert (Hn : not_cancelled (start book_job)) by reflexivity.
  assert (Hnone : Forall no_heading preface) by (repeat constructor).
  destruct (headingless_document_completes env Config preface
              (start book_job) Hq Hn eq_refl Hnone eq_refl)
    as (Hc & w' & Hrun & Hdone & _).
  split; [exact Hc |]. exists w'. split; [exact Hrun | exact Hdone].
Defined.

(** ** Rate limiter: how long a call waits *)

Lemma Qltb_lt (a b : Q) : TTSServices.Qltb a b = true <-> (a < b)%Q.
Proof.
  unfold TTSServices.Qltb. rewrite negb_true_iff. split.
  - intros H. apply Qnot_le_lt. intros Hle.
    apply Qle_bool_iff in Hle. congruence.
  - intros H. destruct (Qle_bool b a) eqn:E; [| reflexivity].
    apply Qle_bool_iff in E. exfalso. exact (Qlt_not_le _ _ H E).
Qed.

Lemma recent_head (s : TTSServices.Service) (oldest : Q) (rest : list Q) :
  recent s = oldest :: rest ->
  (0 < 60 - (TTSServices.clock s - oldest))%Q.
Proof.
  intros H.
  assert (Hin : In oldest (recent s)) by (rewrite H; left; reflexivity).
  unfold recent in Hin. apply List.filter_In in Hin. destruct Hin as [_ Hlt].
  apply Qltb_lt in Hlt.
  apply (Qplus_lt_l _ _ (TTSServices.clock s - oldest)).
  ring_simplify. ring_simplify in Hlt. exact Hlt.
Qed.

(** X17: a service with a cap of at least one request per minute never
    fails in the limiter.  The call goes through at once while fewer
    than the cap of requests were recorded in the last 60 seconds;
    otherwise it sleeps until 60 seconds after the oldest of them.  In
    both cases the time recorded for the call is the time at which it
    entered the limiter, not the time at which it left it. *)
Theorem wait_for_rate_limit_waits :
  forall s : TTSServices.Service,
    1 <= TTSServices.requests_per_minute s ->
    exists s',
      TTSServices.wait_for_rate_limit s = (Ok tt, s')
      /\ TTSServices.request_times s' = recent s ++ [TTSServices.clock s]
      /\ TTSServices.requests_per_minute s'
         = TTSServices.requests_per_minute s
      /\ TTSServices.api_requests s' = TTSServices.api_requests s
      /\ (len_list (recent s) < TTSServices.requests_per_minute s ->
          TTSServices.clock s' = TTSServices.clock s)
      /\ (TTSServices.requests_per_minute s <= len_list (recent s) ->
          exists oldest rest,
            recent s = oldest :: rest
            /\ (TTSServices.clock s' == oldest + 60)%Q
            /\ (TTSServices.clock s < TTSServices.clock s')%Q).
Proof.
  intros s Hcap.
  unfold TTSServices.wait_for_rate_limit, bind, get, modify, ret.
  cbn [TTSServices.clock TTSServices.request_times
       TTSServices.requests_per_minute TTSServices.set_request_times].
  fold (recent s).
  destruct (len_list (recent s) >=? TTSServices.requests_per_minute s) eqn:Hfull.
  - rewrite Z.geb_leb in Hfull. apply Z.leb_le in Hfull.
    destruct (recent s) as [| oldest rest] eqn:Hrec.
    { unfold len_list in Hfull. cbn in Hfull. lia. }
    pose proof (recent_head s oldest rest Hrec) as Hpos.
    assert (Hq : TTSServices.Qltb 0 (60 - (TTSServices.clock s - oldest))
                 = true) by (apply Qltb_lt; exact Hpos).
    rewrite Hq. unfold TTSServices.sleep, modify. cbn.
    eexists. split; [reflexivity |]. cbn.
    repeat split; try reflexivity.
    + intros Hlt. lia.
    + intros _. exists oldest, rest. split; [reflexivity |]. split.
      * ring.
      * rewrite <- (Qplus_0_r (TTSServices.clock s)) at 1.
        apply Qplus_lt_r. exact Hpos.
  - rewrite Z.geb_leb in Hfull. apply Z.leb_gt in Hfull.
    eexists. split; [reflexivity |]. cbn.
    repeat split; try reflexivity. intros Hge. lia.
Qed.

Lemma wait_for_rate_limit_waits_witness :
  exists s',
    TTSServices.wait_for_rate_limit
      (steady_client 50 1 (TTSServices.OpenAITTSService 0))
    = (Ok tt, s')
    /\ (TTSServices.clock s' == 61)%Q.
Proof.
  pose (s := steady_client 50 1 (TTSServices.OpenAITTSService 0)).
  assert (Hcap : 1 <= TTSServices.requests_per_minute s)
    by (vm_compute; discriminate).
  destruct (wait_for_rate_limit_waits s Hcap)
    as (s' & Hrun & _ & _ & _ & _ & Hfull).
  exists s'. split; [exact Hrun |].
  destruct Hfull as (oldest & rest & Hrec & Hclock & _).
  { vm_compute. discriminate. }
  rewrite Hclock.
  assert (Ho : oldest = 1%Q).
  { assert (H : hd 0%Q (recent s) = 1%Q) by (vm_compute; reflexivity).
    rewrite Hrec in H. exact H. }
  rewrite Ho. reflexivity.
Defined.

Lemma wait_for_rate_limit_passes (s : TTSServices.Service) :
  1 <= TTSServices.requests_per_minute s ->
  exists s0,
    TTSServices.wait_for_rate_limit s = (Ok tt, s0)
    /\ TTSServices.api_requests s0 = TTSServices.api_requests s.
Proof.
  intros Hcap.
  unfold TTSServices.wait_for_rate_limit, bind, get, modify, ret.
  cbn [TTSServices.clock TTSServices.request_times
       TTSServices.requests_per_minute TTSServices.set_request_times].
  fold (recent s).
  destruct (len_list (recent s) >=? TTSServices.requests_per_minute s) eqn:Hfull.
  - rewrite Z.geb_leb in Hfull. apply Z.leb_le in Hfull.
    destruct (recent s) as [| oldest rest] eqn:Hrec.
    { unfold len_list in Hfull. cbn in Hfull. lia. }
    destruct (TTSServices.Qltb 0 (60 - (TTSServices.clock s - oldest)));
      eexists; (split; [reflexivity |]); reflexivity.
  - eexists. split; reflexivity.
Qed.

(** X18: a service call never raises: what the remote API or the limiter
    raises comes back as a response with [error] set and no audio.
    With a cap of at least one the remote API is called exactly once,
    at the time the limiter lets the call through; with a cap of zero
    or less and no request in the last 60 seconds the limiter fails on
    the empty list, and the API is not called at all. *)
Theorem synthesize_speech_never_raises :
  forall (api : result bytes) (s : TTSServices.Service),
    exists r s',
      TTSServices.synthesize_speech api s = (Ok r, s')
      /\ TTSServices.format r = lit "mp3"
      /\ (1 <= TTSServices.requests_per_minute s ->
          TTSServices.error r
          = match api with Ok _ => None | Raise e => Some e end
          /\ TTSServices.audio_data r
             = match api with Ok data => data | Raise _ => [] end
          /\ TTSServices.api_requests s'
             = TTSServices.api_requests s ++ [TTSServices.clock s'])
      /\ (TTSServices.requests_per_minute s <= 0 -> recent s = [] ->
          TTSServices.error r = Some (lit "list index out of range")
          /\ TTSServices.audio_data r = []
          /\ TTSServices.api_requests s' = TTSServices.api_requests s).
Proof.
  intros api s. unfold TTSServices.synthesize_speech.
  unfold bind at 1. unfold try.
  destruct ((TTSServices.wait_for_rate_limit ;;; TTSServices.send api)%eff s)
    as [[data | e] s1] eqn:Hrun.
  - eexists. exists s1. split; [reflexivity |]. split; [reflexivity |]. split.
    + intros Hcap.
      destruct (wait_for_rate_limit_passes s Hcap) as (s0 & Hw & Happ).
      rewrite (bind_ok _ _ _ _ _ Hw) in Hrun.
      unfold TTSServices.send, bind, modify, lift in Hrun.
      destruct api as [d | e']; inversion Hrun; subst.
      cbn. rewrite Happ. repeat split.
    + intros Hcap Hrec. exfalso.
      unfold TTSServices.wait_for_rate_limit, bind, get, modify in Hrun.
      cbn [TTSServices.clock TTSServices.request_times
           TTSServices.requests_per_minute TTSServices.set_request_times]
        in Hrun.
      fold (recent s) in Hrun. rewrite Hrec in Hrun.
      replace (len_list [] >=? TTSServices.requests_per_minute s) with true
        in Hrun
        by (symmetry; rewrite Z.geb_leb; apply Z.leb_le;
            unfold len_list; cbn; lia).
      discriminate Hrun.
  - eexists. exists s1. split; [reflexivity |]. split; [reflexivity |]. split.
    + intros Hcap.
      destruct (wait_for_rate_limit_passes s Hcap) as (s0 & Hw & Happ).
      rewrite (bind_ok _ _ _ _ _ Hw) in Hrun.
      unfold TTSServices.send, bind, modify, lift in Hrun.
      destruct api as [d | e']; inversion Hrun; subst.
      cbn. rewrite Happ. repeat split.
    + intros Hcap Hrec.
      unfold TTSServices.wait_for_rate_limit, bind, get, modify in Hrun.
      cbn [TTSServices.clock TTSServices.request_times
           TTSServices.requests_per_minute TTSServices.set_request_times]
        in Hrun.
      fold (recent s) in Hrun. rewrite Hrec in Hrun.
      replace (len_list [] >=? TTSServices.requests_per_minute s) with true
        in Hrun
        by (symmetry; rewrite Z.geb_leb; apply Z.leb_le;
            unfold len_list; cbn; lia).
      unfold raise in Hrun. inversion Hrun; subst. cbn. repeat split.
Qed.

Lemma synthesize_speech_never_raises_witness :
  exists r s',
    TTSServices.synthesize_speech (Raise (lit "quota exceeded"))
      (TTSServices.OpenAITTSService 0)
    = (Ok r, s')
    /\ TTSServices.error r = Some (lit "quota exceeded")
    /\ TTSServices.api_requests s' = [TTSServices.clock s'].
Proof.
  destruct (synthesize_speech_never_raises (Raise (lit "quota exceeded"))
              (TTSServices.OpenAITTSService 0))
    as (r & s' & Hrun & _ & Hcap & _).
  destruct Hcap as (He & _ & Ha); [vm_compute; discriminate |].
  exists r, s'. split; [exact Hrun |]. split; [exact He | exact Ha].
Defined.

(** ** Chapter markers *)

Import ChapterMarkers.

Lemma chained_snoc (ms : list Marker) (a b : Marker) :
  chained (ms ++ [a]) ->
  marker_end a = marker_start b -> marker_title a <> marker_title b ->
  chained ((ms ++ [a]) ++ [b]).
Proof.
  induction ms as [| m ms IH]; intros H He Ht.
  - cbn. repeat split; assumption.
  - destruct ms as [| m' ms'].
    + cbn in *. destruct H as (H1 & H2 & _). repeat split; assumption.
    + cbn [app chained] in *. destruct H as (H1 & H2 & H3).
      repeat split; try assumption. apply IH; assumption.
Qed.

Lemma chained_last (ms : list Marker) (a b : Marker) :
  chained (ms ++ [a]) ->
  marker_start b = marker_start a -> marker_title b = marker_title a ->
  chained (ms ++ [b]).
Proof.
  induction ms as [| m ms IH]; intros H Hs Ht; [exact I |].
  destruct ms as [| m' ms'].
  - cbn in *. destruct H as (H1 & H2 & _). rewrite Hs, Ht.
    repeat split; assumption.
  - cbn [app chained] in *. destruct H as (H1 & H2 & H3).
    repeat split; try assumption. apply IH; assumption.
Qed.

Lemma elapsed_snoc (done : list AudioChunk) (c : AudioChunk) :
  elapsed (done ++ [c]) = (elapsed done + chunk_seconds c)%Q.
Proof. unfold elapsed. rewrite fold_left_app. reflexivity. Qed.

Lemma before_first_label_unlabelled (done : list AudioChunk) :
  Forall unlabelled done -> before_first_label done = done.
Proof.
  induction 1 as [| c rest Hc _ IH]; [reflexivity |].
  cbn. unfold unlabelled in Hc. rewrite Hc, IH. reflexivity.
Qed.

Lemma before_first_label_snoc (done : list AudioChunk) (c : AudioChunk) :
  ~ Forall unlabelled done ->
  before_first_label (done ++ [c]) = before_first_label done.
Proof.
  induction done as [| d done IH]; intros H.
  - exfalso. apply H. constructor.
  - cbn. destruct (truthy_opt (chapter d)) eqn:Hd; [reflexivity |].
    rewrite IH; [reflexivity |]. intros Hall. apply H.
    constructor; assumption.
Qed.

Lemma before_first_label_at (done : list AudioChunk) (c : AudioChunk) :
  Forall unlabelled done -> truthy_opt (chapter c) = true ->
  before_first_label (done ++ [c]) = done.
Proof.
  induction 1 as [| d rest Hd _ IH]; intros Hc.
  - cbn. rewrite Hc. reflexivity.
  - cbn. unfold unlabelled in Hd. rewrite Hd, IH by exact Hc. reflexivity.
Qed.

Lemma not_unlabelled_snoc (done : list AudioChunk) (c : AudioChunk) :
  ~ Forall unlabelled done -> ~ Forall unlabelled (done ++ [c]).
Proof.
  intros H Hall. apply H. apply List.Forall_app in Hall. exact (proj1 Hall).
Qed.

Lemma labelled_not_unlabelled (done : list AudioChunk) (c : AudioChunk) :
  truthy_opt (chapter c) = true -> ~ Forall unlabelled (done ++ [c]).
Proof.
  intros Hc Hall. apply List.Forall_app in Hall. destruct Hall as [_ Hl].
  apply Forall_inv in Hl. unfold unlabelled in Hl. congruence.
Qed.

Lemma marker_step_inv (done : list AudioChunk) (st : marker_state)
    (c : AudioChunk) :
  marker_inv done st -> marker_inv (done ++ [c]) (marker_step st c).
Proof.
  intros (Ht & Hcur & Hch & Htitles & Hfirst).
  unfold marker_step.
  destruct (truthy_opt (chapter c)) eqn:Hc; cbn [andb].
  - destruct (chapter c) as [label |] eqn:Hlabel; [| discriminate Hc].
    cbn [truthy_opt] in Hc.
    destruct (current_chapter st) as [title |] eqn:Hcc.
    + destruct Hcur as [Htitle Hsome]. cbn [opt_neb].
      destruct (str_eqb label title) eqn:Heq; cbn [negb].
      * (* the same chapter goes on *)
        unfold marker_inv, state_markers in *.
        cbn [chapters current_time current_chapter chapter_start].
        rewrite Hcc in *. rewrite elapsed_snoc, <- Ht.
        split; [reflexivity |].
        split; [split; [exact Htitle | apply not_unlabelled_snoc; exact Hsome] |].
        split; [eapply chained_last; [exact Hch | reflexivity | reflexivity] |].
        split.
        { apply List.Forall_app in Htitles. destruct Htitles as [Hc1 Hc2].
          apply List.Forall_app. split; [exact Hc1 |].
          constructor; [exact Htitle | constructor]. }
        intros first rest Hm. rewrite before_first_label_snoc by exact Hsome.
        destruct (chapters st) as [| m ms].
        { cbn in Hm. inversion Hm; subst first rest. cbn.
          apply (Hfirst _ [] eq_refl). }
        { cbn in Hm. inversion Hm; subst first rest.
          eapply Hfirst. cbn. reflexivity. }
      * (* another chapter starts *)
        unfold marker_inv, state_markers in *.
        cbn [chapters current_time current_chapter chapter_start].
        rewrite Hcc in *. rewrite Htitle. rewrite elapsed_snoc, <- Ht.
        split; [reflexivity |].
        split; [split; [exact Hc | apply not_unlabelled_snoc; exact Hsome] |].
        split.
        { apply chained_snoc; [exact Hch | reflexivity |].
          cbn. intros E. subst title.
          assert (str_eqb label label = true) by (apply str_eqb_eq; reflexivity).
          congruence. }
        split.
        { apply List.Forall_app. split; [exact Htitles |].
          constructor; [exact Hc | constructor]. }
        intros first rest Hm. rewrite before_first_label_snoc by exact Hsome.
        destruct (chapters st) as [| m ms].
        { cbn in Hm. inversion Hm; subst first rest. cbn.
          apply (Hfirst _ [] eq_refl). }
        { cbn in Hm. inversion Hm; subst first rest.
          eapply Hfirst. cbn. reflexivity. }
    + (* the first chapter starts *)
      destruct Hcur as [Hnil Hnone]. cbn [opt_neb].
      unfold marker_inv, state_markers in *.
      cbn [chapters current_time current_chapter chapter_start].
      rewrite Hnil. rewrite elapsed_snoc, <- Ht.
      split; [reflexivity |].
      split; [split; [exact Hc |] |].
      { apply labelled_not_unlabelled. rewrite Hlabel. exact Hc. }
      split; [exact I |].
      split; [constructor; [exact Hc | constructor] |].
      intros first rest Hm. cbn in Hm. inversion Hm; subst first rest. cbn.
      rewrite before_first_label_at; [exact Ht | exact Hnone |].
      rewrite Hlabel. exact Hc.
  - (* a chunk without a label *)
    unfold marker_inv, state_markers in *.
    cbn [chapters current_time current_chapter chapter_start].
    rewrite elapsed_snoc, <- Ht. split; [reflexivity |].
    destruct (current_chapter st) as [title |] eqn:Hcc.
    + destruct Hcur as [Htitle Hsome].
      split; [split; [exact Htitle | apply not_unlabelled_snoc; exact Hsome] |].
      split; [eapply chained_last; [exact Hch | reflexivity | reflexivity] |].
      split.
      { apply List.Forall_app in Htitles. destruct Htitles as [Hc1 Hc2].
        apply List.Forall_app. split; [exact Hc1 |].
        constructor; [exact Htitle | constructor]. }
      intros first rest Hm. rewrite before_first_label_snoc by exact Hsome.
      destruct (chapters st) as [| m ms].
      { cbn in Hm. inversion Hm; subst first rest. cbn.
        apply (Hfirst _ [] eq_refl). }
      { cbn in Hm. inversion Hm; subst first rest.
        eapply Hfirst. cbn. reflexivity. }
    + destruct Hcur as [Hnil Hnone].
      split; [split; [exact Hnil |] |].
      { apply List.Forall_app. split; [exact Hnone |].
        constructor; [exact Hc | constructor]. }
      rewrite Hnil. cbn. split; [exact I |]. split; [constructor |].
      intros first rest Hm. discriminate Hm.
Qed.

Lemma marker_fold_inv (chunks : list AudioChunk) :
  forall (done : list AudioChunk) (st : marker_state),
    marker_inv done st ->
    marker_inv (done ++ chunks) (fold_left marker_step chunks st).
Proof.
  induction chunks as [| c chunks IH]; intros done st H.
  - rewrite app_nil_r. exact H.
  - cbn [fold_left].
    replace (done ++ c :: chunks) with ((done ++ [c]) ++ chunks)
      by (rewrite <- app_assoc; reflexivity).
    apply IH. apply marker_step_inv. exact H.
Qed.

Lemma markers_run_inv (chunks : list AudioChunk) :
  marker_inv chunks (markers_run chunks).
Proof.
  change (marker_inv ([] ++ chunks) (markers_run chunks)).
  apply marker_fold_inv. unfold marker_inv, state_markers. cbn.
  repeat split; try constructor. intros first rest Hm. discriminate Hm.
Qed.

Lemma create_chapter_markers_run (chunks : list AudioChunk) :
  create_chapter_markers chunks = state_markers (markers_run chunks).
Proof.
  pose proof (markers_run_inv chunks) as (_ & Hcur & _).
  unfold create_chapter_markers, state_markers. fold (markers_run chunks).
  destruct (current_chapter (markers_run chunks)) as [title |];
    [| rewrite app_nil_r; reflexivity].
  destruct Hcur as [Htitle _]. rewrite Htitle. reflexivity.
Qed.

(** X19: the markers of [create_chapter_markers] tile the running time
    from the first labelled chunk on: every marker ends exactly where
    the next one starts, under a different, non-empty title; the first
    marker starts after the running time of the chunks that come before
    any label, the last one ends at the total running time; and there
    is no marker at all exactly when no chunk has a label. *)
Theorem create_chapter_markers_tile :
  forall chunks : list AudioChunk,
    chained (create_chapter_markers chunks)
    /\ Forall (fun m => truthy (marker_title m) = true)
         (create_chapter_markers chunks)
    /\ (forall first rest,
           create_chapter_markers chunks = first :: rest ->
           marker_start first = elapsed (before_first_label chunks))
    /\ (forall front final,
           create_chapter_markers chunks = front ++ [final] ->
           marker_end final = elapsed chunks)
    /\ (create_chapter_markers chunks = [] <-> Forall unlabelled chunks).
Proof.
  intros chunks.
  rewrite create_chapter_markers_run.
  destruct (markers_run_inv chunks) as (Ht & Hcur & Hch & Htitles & Hfirst).
  split; [exact Hch |]. split; [exact Htitles |].
  split; [exact Hfirst |]. unfold state_markers in *.
  destruct (current_chapter (markers_run chunks)) as [title |].
  - destruct Hcur as [_ Hsome]. split.
    + intros front final E. apply app_inj_tail in E. destruct E as [_ E].
      subst final. exact Ht.
    + split.
      * intros E. destruct (chapters (markers_run chunks)); discriminate E.
      * intros Hall. contradiction.
  - destruct Hcur as [Hnil Hnone]. rewrite Hnil. cbn. split.
    + intros front final E. destruct front; discriminate E.
    + split; [intros _; exact Hnone | reflexivity].
Qed.

Lemma create_chapter_markers_tile_witness :
  marker_end
    {| marker_title := lit "Chapter 2"; marker_start := 0 + 30 + 30;
       marker_end := 0 + 30 + 30 + 45 |}
  = elapsed
      [ {| audio_data := []; chunk_text := []; chapter := Some (lit "Chapter 1");
           start_time := None; duration := Some 30%Q |};
        {| audio_data := []; chunk_text := []; chapter := None;
           start_time := None; duration := Some 30%Q |};
        {| audio_data := []; chunk_text := []; chapter := Some (lit "Chapter 2");
           start_time := None; duration := Some 45%Q |} ].
Proof.
  refine (proj1 (proj2 (proj2 (proj2 (create_chapter_markers_tile _))))
            [{| marker_title := lit "Chapter 1"; marker_start := 0;
                marker_end := 0 + 30 + 30 |}] _ _).
  reflexivity.
Defined.

Lemma marker_step_ordered (st : marker_state) (c : AudioChunk) :
  (0 <= chunk_seconds c)%Q ->
  Forall (fun m => (marker_start m <= marker_end m)%Q) (state_markers st) ->
  Forall (fun m => (marker_start m <= marker_end m)%Q)
    (state_markers (marker_step st c)).
Proof.
  intros Hc H. unfold marker_step, state_markers in *.
  assert (Hgrow : forall t : Q, (t <= t + chunk_seconds c)%Q).
  { intros t. rewrite <- (Qplus_0_r t) at 1.
    apply Qplus_le_r. exact Hc. }
  destruct (truthy_opt (chapter c) && opt_neb (chapter c) (current_chapter st));
    cbn [chapters current_time current_chapter chapter_start].
  - assert (Hclosed :
              Forall (fun m => (marker_start m <= marker_end m)%Q)
                match current_chapter st with
                | Some title =>
                    if truthy title
                    then chapters st
                           ++ [{| marker_title := title;
                                  marker_start := chapter_start st;
                                  marker_end := current_time st |}]
                    else chapters st
                | None => chapters st
                end).
    { destruct (current_chapter st) as [title |].
      - destruct (truthy title); [exact H |].
        apply List.Forall_app in H. exact (proj1 H).
      - rewrite app_nil_r in H. exact H. }
    apply List.Forall_app. split; [exact Hclosed |].
    destruct (chapter c); constructor; try constructor. cbn. apply Hgrow.
  - destruct (current_chapter st) as [title |]; [| exact H].
    apply List.Forall_app in H. destruct H as [H1 H2].
    apply List.Forall_app. split; [exact H1 |].
    apply Forall_inv in H2. cbn in H2. constructor; [| constructor]. cbn.
    eapply Qle_trans; [exact H2 | apply Hgrow].
Qed.

Lemma marker_fold_ordered (chunks : list AudioChunk) :
  Forall (fun c => (0 <= chunk_seconds c)%Q) chunks ->
  forall st : marker_state,
    Forall (fun m => (marker_start m <= marker_end m)%Q) (state_markers st) ->
    Forall (fun m => (marker_start m <= marker_end m)%Q)
      (state_markers (fold_left marker_step chunks st)).
Proof.
  induction 1 as [| c chunks Hc _ IH]; intros st H; [exact H |].
  cbn [fold_left]. apply IH. apply marker_step_ordered; assumption.
Qed.

(** X20: when no chunk runs for a negative time, no marker ends before it
    starts. *)
Theorem create_chapter_markers_ordered :
  forall chunks : list AudioChunk,
    Forall (fun c => (0 <= chunk_seconds c)%Q) chunks ->
    Forall (fun m => (marker_start m <= marker_end m)%Q)
      (create_chapter_markers chunks).
Proof.
  intros chunks Hpos. rewrite create_chapter_markers_run.
  apply marker_fold_ordered; [exact Hpos | constructor].
Qed.

Lemma create_chapter_markers_ordered_witness :
  Forall (fun m => (marker_start m <= marker_end m)%Q)
    (create_chapter_markers three_chunks).
Proof.
  apply create_chapter_markers_ordered.
  repeat constructor; vm_compute; discriminate.
Defined.

(** ** Service manager *)

Section ManagerFacts.
Context {V : Type}.
Implicit Types (d : list (str * V)) (m : TTSManager.Manager V).

Lemma str_eqb_refl (a : str) : str_eqb a a = true.
Proof. apply str_eqb_eq. reflexivity. Qed.

Lemma str_eqb_neq (a b : str) : str_eqb a b = false <-> a <> b.
Proof.
  split.
  - intros H E. apply str_eqb_eq in E. congruence.
  - intros H. destruct (str_eqb a b) eqn:E; [| reflexivity].
    apply str_eqb_eq in E. contradiction.
Qed.

Lemma dict_in_keys (name : str) d :
  TTSManager.dict_in name d = true <-> In name (map fst d).
Proof.
  unfold TTSManager.dict_in. induction d as [| [k v] d IH]; cbn.
  - split; [discriminate | contradiction].
  - destruct (str_eqb k name) eqn:E.
    + apply str_eqb_eq in E. split; [intros _; left; exact E | reflexivity].
    + apply str_eqb_neq in E. rewrite IH. split.
      * intros H. right. exact H.
      * intros [H | H]; [contradiction | exact H].
Qed.

Lemma dict_set_keys (name : str) (service : V) d :
  map fst (TTSManager.dict_set name service d)
  = if TTSManager.dict_in name d then map fst d else map fst d ++ [name].
Proof.
  unfold TTSManager.dict_in. induction d as [| [k v] d IH]; cbn;
    [reflexivity |].
  destruct (str_eqb k name) eqn:E; cbn; [reflexivity |].
  rewrite IH. destruct (TTSManager.dict_get name d); reflexivity.
Qed.

Lemma dict_set_in (name other : str) (service : V) d :
  TTSManager.dict_in other (TTSManager.dict_set name service d)
  = str_eqb name other || TTSManager.dict_in other d.
Proof.
  apply eq_true_iff_eq. rewrite orb_true_iff, !dict_in_keys, dict_set_keys.
  rewrite str_eqb_eq.
  destruct (TTSManager.dict_in name d) eqn:E.
  - apply dict_in_keys in E. split; [intros H; right; exact H |].
    intros [H | H]; [subst other; exact E | exact H].
  - rewrite in_app_iff. cbn. tauto.
Qed.

Lemma dict_set_nodup (name : str) (service : V) d :
  List.NoDup (map fst d) ->
  List.NoDup (map fst (TTSManager.dict_set name service d)).
Proof.
  intros H. rewrite dict_set_keys.
  destruct (TTSManager.dict_in name d) eqn:E; [exact H |].
  apply List.NoDup_app; [exact H | repeat constructor; intros [] |].
  intros x Hx [Hn | []]. subst x. apply dict_in_keys in Hx. congruence.
Qed.

Lemma perform_ok (c : ManagerCall V) m :
  manager_ok m -> manager_ok (snd (perform c m)).
Proof.
  intros [Hnd Hdef]. destruct c as [name service | name]; cbn.
  - unfold manager_ok, TTSManager.get_available_services. cbn. split.
    + apply dict_set_nodup. exact Hnd.
    + destruct (TTSManager.default_service m) as [d |].
      * rewrite dict_set_in, Hdef. apply orb_true_r.
      * rewrite dict_set_in, str_eqb_refl. reflexivity.
  - unfold TTSManager.set_default_service, bind, get.
    destruct (TTSManager.dict_in name (TTSManager.services m)) eqn:E; cbn.
    + split; [exact Hnd | exact E].
    + split; [exact Hnd | exact Hdef].
Qed.

Lemma after_calls_ok (calls : list (ManagerCall V)) :
  forall m, manager_ok m -> manager_ok (after_calls calls m).
Proof.
  induction calls as [| c calls IH]; intros m H; [exact H |].
  cbn. apply IH. apply perform_ok. exact H.
Qed.

Lemma new_ok : manager_ok (@TTSManager.new V).
Proof. split; [constructor | reflexivity]. Qed.

Lemma dict_in_get (name : str) d :
  TTSManager.dict_in name d = true ->
  exists service, TTSManager.dict_get name d = Some service.
Proof.
  unfold TTSManager.dict_in.
  destruct (TTSManager.dict_get name d) as [service |]; [| discriminate].
  intros _. exists service. reflexivity.
Qed.

End ManagerFacts.

(** X21: whatever services are added and whichever defaults are set, in
    any order and also when a call raised, the manager stays
    consistent: no name is listed twice, and the default service is a
    registered one as soon as any service is registered.  A synthesis
    call that names no service then goes to the default service and
    cannot fail to find it; on a manager without services it raises
    "Service 'None' not found". *)
Theorem manager_default_is_registered :
  forall (V : Type) (calls : list (ManagerCall V))
         (call : V -> TTSManager.TTSRequest -> result TTSServices.TTSResponse)
         (txt : str) (voice : option str) (speed : Q),
    let m := after_calls calls TTSManager.new in
    manager_ok m
    /\ (TTSManager.services m <> [] ->
        exists name service,
          TTSManager.default_service m = Some name
          /\ TTSManager.dict_get name (TTSManager.services m) = Some service
          /\ TTSManager.synthesize_speech call txt None voice speed m
             = (call service (request_of txt voice speed), m))
    /\ (TTSManager.services m = [] ->
        TTSManager.synthesize_speech call txt None voice speed m
        = (Raise (not_found (lit "None")), m)).
Proof.
  intros V calls call txt voice speed m.
  assert (Hok : manager_ok m) by (apply after_calls_ok, new_ok).
  split; [exact Hok |]. destruct Hok as [_ Hdef]. split.
  - intros Hne.
    destruct (TTSManager.default_service m) as [name |] eqn:Hd;
      [| contradiction].
    destruct (dict_in_get name _ Hdef) as (service & Hget).
    exists name, service. split; [reflexivity |]. split; [exact Hget |].
    unfold TTSManager.synthesize_speech, bind, get. cbn [TTSManager.py_or].
    rewrite Hd, Hget. reflexivity.
  - intros Hnil.
    destruct (TTSManager.default_service m) as [name |] eqn:Hd.
    + rewrite Hnil in Hdef. discriminate Hdef.
    + unfold TTSManager.synthesize_speech, bind, get. cbn [TTSManager.py_or].
      rewrite Hd. reflexivity.
Qed.

Lemma manager_default_is_registered_witness :
  TTSManager.synthesize_speech (fun (v : nat) _ => Raise (str_of_Z (Z.of_nat v)))
    (lit "Hello") None None 1
    (after_calls [SetDefaultService (lit "openai");
                  AddService (lit "google") 7%nat;
                  AddService (lit "openai") 8%nat;
                  SetDefaultService (lit "azure")] TTSManager.new)
  = (Raise (lit "7"),
     after_calls [SetDefaultService (lit "openai");
                  AddService (lit "google") 7%nat;
                  AddService (lit "openai") 8%nat;
                  SetDefaultService (lit "azure")] TTSManager.new).
Proof.
  destruct (manager_default_is_registered nat
              [SetDefaultService (lit "openai");
               AddService (lit "google") 7%nat;
               AddService (lit "openai") 8%nat;
               SetDefaultService (lit "azure")]
              (fun v _ => Raise (str_of_Z (Z.of_nat v)))
              (lit "Hello") None 1) as (_ & H & _).
  destruct H as (name & service & Hd & Hget & Hrun);
    [vm_compute; discriminate |].
  rewrite Hrun. f_equal.
  assert (E : Some service = Some 7%nat).
  { rewrite <- Hget.
    assert (En : Some name = Some (lit "google"))
      by (rewrite <- Hd; reflexivity).
    inversion En; subst name. reflexivity. }
  inversion E; subst service. reflexivity.
Defined.

(** ** Job supervisor: a backend that is down *)

Lemma run_pipeline_down (env : Env) (config : AppConfig) (k : Z)
    (pages : list PageContent) (chunk : str * str) (rest : list (str * str))
    (w : World) (e1 e2 e3 : str) :
  quiet env -> not_cancelled w ->
  extract_text env k = Ok pages ->
  chunk_list env config pages = chunk :: rest ->
  error_after env w 0 = Some e1 ->
  error_after env w 1 = Some e2 ->
  error_after env w 2 = Some e3 ->
  exists w1,
    run_pipeline env config k w
    = (Raise (lit "TTS failed after 3 retries: " ++ e3), w1)
    /\ status (job w1) = status (job w)
    /\ tts_calls w1 = (tts_calls w + 3)%nat
    /\ exists t,
         trace w1 = trace w ++ t
         /\ sleeps t = [2; 4]
         /\ synthesized t = [fst chunk; fst chunk; fst chunk].
Proof.
  intros Hq Hn Hx Hc E1 E2 E3.
  rewrite (run_pipeline_quiet env config k pages w Hq Hn Hx). cbv zeta.
  rewrite Hc. set (n := len_list (chunk :: rest)).
  set (w0 := prepared n w).
  assert (H0 : run_step [] w w0) by apply run_step_prepared.
  assert (Hn0 : not_cancelled w0) by exact Hn.
  set (prog := chunk_progress 0 n).
  set (w1 := progressed (synthesizing_message 0 n) prog w0).
  assert (Hrun : synthesize_all env n 0 (chunk :: rest) [] w0
                 = (Raise (lit "TTS failed after 3 retries: " ++ e3),
                    called (fst chunk) (after_second_failure chunk prog w1))).
  { rewrite synthesize_all_cons by assumption. fold prog w1.
    apply bind_raise.
    apply (retry_exhausted env chunk prog [] w1 Hq Hn e1 e2 e3);
      assumption. }
  rewrite (bind_raise _ _ _ _ _ Hrun).
  eexists. split; [reflexivity |]. split; [reflexivity |].
  split; [cbn; lia |].
  rewrite trace_after_second.
  destruct H0 as (_ & _ & _ & _ & t0 & Ht0 & Hs0 & Hl0).
  exists (t0 ++ [ProgressUpdate (synthesizing_message 0 n) prog]
            ++ retry_events 2 (fst chunk) prog).
  split.
  - change (trace w1) with (trace w0 ++ [ProgressUpdate
                                           (synthesizing_message 0 n) prog]).
    rewrite Ht0, <- !app_assoc. reflexivity.
  - rewrite !sleeps_app, !synthesized_app, Hs0, Hl0. split; reflexivity.
Qed.

Lemma retrying_step (n : Z) (w : World) :
  status (job (retrying n w)) = status (job w)
  /\ tts_calls (retrying n w) = tts_calls w
  /\ sleeps (trace (retrying n w)) = sleeps (trace w) ++ [5 * n]
  /\ synthesized (trace (retrying n w)) = synthesized (trace w).
Proof.
  unfold retrying, slept. cbn [job status tts_calls trace].
  rewrite !sleeps_app, !synthesized_app. cbn. rewrite !app_nil_r.
  repeat split.
Qed.

Lemma conversion_while_retry (env : Env) (config : AppConfig) (fuel : nat)
    (k : Z) (w w1 : World) (e : str) :
  run_pipeline env config k w = (Raise e, w1) -> k + 1 < 3 ->
  conversion_while env config (S fuel) k w
  = conversion_while env config fuel (k + 1) (retrying (k + 1) w1).
Proof.
  intros Hrun Hk. cbn [conversion_while].
  replace (k <? max_retries) with true
    by (symmetry; apply Z.ltb_lt; unfold max_retries; lia).
  unfold bind at 1. unfold try. rewrite Hrun.
  replace (k + 1 >=? max_retries) with false
    by (symmetry; rewrite Z.geb_leb; apply Z.leb_gt; unfold max_retries; lia).
  reflexivity.
Qed.

Lemma conversion_while_give_up (env : Env) (config : AppConfig) (fuel : nat)
    (w w1 : World) (e : str) :
  run_pipeline env config 2 w = (Raise e, w1) ->
  conversion_while env config (S fuel) 2 w = (Ok tt, given_up e w1).
Proof.
  intros Hrun. cbn [conversion_while].
  change (2 <? max_retries) with true. cbv iota.
  unfold bind at 1. unfold try. rewrite Hrun. reflexivity.
Qed.

Lemma three_failed_runs :
  forall (env : Env) (config : AppConfig) (pages : list PageContent)
         (chunk : str * str) (rest : list (str * str)) (w : World)
         (cause : nat -> str),
    quiet env -> not_cancelled w ->
    (forall k, 0 <= k < 3 -> extract_text env k = Ok pages) ->
    chunk_list env config pages = chunk :: rest ->
    (forall i, (tts_calls w <= i < tts_calls w + 9)%nat ->
               attempt_error (tts env i) = Some (cause i)) ->
    exists w3,
      process_conversion env config w
      = (Ok tt,
         given_up (lit "TTS failed after 3 retries: "
                     ++ cause (tts_calls w + 8)%nat) w3)
      /\ tts_calls w3 = (tts_calls w + 9)%nat
      /\ synthesized (trace w3)
         = synthesized (trace w) ++ repeat (fst chunk) 9
      /\ sleeps (trace w3) = sleeps (trace w) ++ [2; 4; 5; 2; 4; 10; 2; 4].
Proof.
  intros env config pages chunk rest w cause Hq Hn Hx Hc Hdown.
  assert (Herr : forall (v : World) (i : nat),
             (tts_calls w <= tts_calls v + i < tts_calls w + 9)%nat ->
             error_after env v i = Some (cause (tts_calls v + i)%nat)).
  { intros v i Hi. unfold error_after. apply Hdown. exact Hi. }
  (* first run *)
  destruct (run_pipeline_down env config 0 pages chunk rest w _ _ _
              Hq Hn (Hx 0 ltac:(lia)) Hc
              (Herr w 0%nat ltac:(lia)) (Herr w 1%nat ltac:(lia))
              (Herr w 2%nat ltac:(lia)))
    as (w1 & Hrun1 & Hst1 & Hcalls1 & t1 & Ht1 & Hsl1 & Hsy1).
  destruct (retrying_step 1 w1) as (Hst1' & Hcalls1' & Hsl1' & Hsy1').
  set (v1 := retrying 1 w1) in *.
  assert (Hn1 : not_cancelled v1).
  { unfold not_cancelled in *. rewrite Hst1', Hst1. exact Hn. }
  (* second run *)
  destruct (run_pipeline_down env config 1 pages chunk rest v1 _ _ _
              Hq Hn1 (Hx 1 ltac:(lia)) Hc
              (Herr v1 0%nat ltac:(lia)) (Herr v1 1%nat ltac:(lia))
              (Herr v1 2%nat ltac:(lia)))
    as (w2 & Hrun2 & Hst2 & Hcalls2 & t2 & Ht2 & Hsl2 & Hsy2).
  destruct (retrying_step 2 w2) as (Hst2' & Hcalls2' & Hsl2' & Hsy2').
  set (v2 := retrying 2 w2) in *.
  assert (Hn2 : not_cancelled v2).
  { unfold not_cancelled in *. rewrite Hst2', Hst2. exact Hn1. }
  (* third run *)
  destruct (run_pipeline_down env config 2 pages chunk rest v2 _ _ _
              Hq Hn2 (Hx 2 ltac:(lia)) Hc
              (Herr v2 0%nat ltac:(lia)) (Herr v2 1%nat ltac:(lia))
              (Herr v2 2%nat ltac:(lia)))
    as (w3 & Hrun3 & Hst3 & Hcalls3 & t3 & Ht3 & Hsl3 & Hsy3).
  replace (tts_calls v2 + 2)%nat with (tts_calls w + 8)%nat in Hrun3 by lia.
  exists w3. split.
  { unfold process_conversion. change (Z.to_nat max_retries) with 3%nat.
    rewrite (conversion_while_retry env config 2 0 w w1 _ Hrun1) by lia.
    change (0 + 1) with 1. fold v1.
    rewrite (conversion_while_retry env config 1 1 v1 w2 _ Hrun2) by lia.
    change (1 + 1) with 2. fold v2.
    apply conversion_while_give_up. exact Hrun3. }
  split; [lia |].
  rewrite Ht3, synthesized_app, sleeps_app, Hsl3, Hsy3, Hsl2', Hsy2'.
  rewrite Ht2, synthesized_app, sleeps_app, Hsl2, Hsy2, Hsl1', Hsy1'.
  rewrite Ht1, synthesized_app, sleeps_app, Hsl1, Hsy1.
  cbn. rewrite <- !app_assoc. cbn. split; reflexivity.
Qed.

(** X16: a backend that fails every call makes the job fail, whatever the
    document, as long as it has a text chunk and nobody cancels: each
    of the three pipeline runs gives up on the first chunk after three
    calls, so the backend is called nine times with the same text, the
    worker sleeps 2 and 4 seconds in every run and 5 and 10 seconds
    between the runs, and the job's error is that of the ninth call. *)
Theorem backend_down_fails_job :
  forall (env : Env) (config : AppConfig) (pages : list PageContent)
         (chunk : str * str) (rest : list (str * str)) (w : World)
         (cause : nat -> str),
    quiet env -> not_cancelled w ->
    (forall k, 0 <= k < 3 -> extract_text env k = Ok pages) ->
    chunk_list env config pages = chunk :: rest ->
    (forall i, (tts_calls w <= i < tts_calls w + 9)%nat ->
               attempt_error (tts env i) = Some (cause i)) ->
    exists w',
      process_conversion env config w = (Ok tt, w')
      /\ failed w'
      /\ error (job w')
         = Some (lit "TTS failed after 3 retries: "
                   ++ cause (tts_calls w + 8)%nat)
      /\ tts_calls w' = (tts_calls w + 9)%nat
      /\ synthesized (trace w')
         = synthesized (trace w) ++ repeat (fst chunk) 9
      /\ sleeps (trace w') = sleeps (trace w) ++ [2; 4; 5; 2; 4; 10; 2; 4].
Proof.
  intros env config pages chunk rest w cause Hq Hn Hx Hc Hdown.
  destruct (three_failed_runs env config pages chunk rest w cause
              Hq Hn Hx Hc Hdown) as (w3 & Hrun & Hcalls & Hsyn & Hsl).
  eexists. split; [exact Hrun |].
  split; [apply given_up_failed |]. split; [reflexivity |].
  split; [exact Hcalls |]. cbn [given_up trace].
  rewrite synthesized_app, sleeps_app, Hsyn, Hsl. cbn.
  rewrite !app_nil_r. split; reflexivity.
Qed.

Lemma backend_down_fails_job_witness :
  exists w',
    process_conversion backend_down Config (start book_job) = (Ok tt, w')
    /\ failed w'
    /\ error (job w')
       = Some (lit "TTS failed after 3 retries: TTS error: timeout 8")
    /\ sleeps (trace w') = [2; 4; 5; 2; 4; 10; 2; 4].
Proof.
  pose (cl := chunk_list backend_down Config [chapter_page]).
  assert (Hcl : cl = hd ([], []) cl :: tl cl) by (vm_compute; reflexivity).
  assert (Hq : quiet backend_down) by (intros k; reflexivity).
  assert (Hn : not_cancelled (start book_job)) by reflexivity.
  destruct (backend_down_fails_job backend_down Config [chapter_page]
              (hd ([], []) cl) (tl cl) (start book_job)
              (fun i => lit "TTS error: "
                          ++ (lit "timeout " ++ str_of_Z (Z.of_nat i)))
              Hq Hn (fun k _ => eq_refl) Hcl (fun i _ => eq_refl))
    as (w' & Hrun & Hfail & Herr & _ & _ & Hsl).
  exists w'. split; [exact Hrun |]. split; [exact Hfail |].
  split; [exact Herr | exact Hsl].
Defined.

(** ** Service manager: start-up *)

Lemma set_default_service_run {V} (name : str) (m : TTSManager.Manager V) :
  TTSManager.set_default_service name m
  = (if TTSManager.dict_in name (TTSManager.services m)
     then Ok tt else Raise (not_found name),
     {| TTSManager.services := TTSManager.services m;
        TTSManager.default_service :=
          if TTSManager.dict_in name (TTSManager.services m)
          then Some name else TTSManager.default_service m |}).
Proof.
  unfold TTSManager.set_default_service, bind, get, modify, raise.
  destruct (TTSManager.dict_in name (TTSManager.services m)); [reflexivity |].
  destruct m. reflexivity.
Qed.

Lemma default_of_one {V} (name key : str) (service : V) :
  Some key
  = (if TTSManager.dict_in name [(key, service)]
     then Some name else Some key).
Proof.
  unfold TTSManager.dict_in. cbn [TTSManager.dict_get].
  destruct (str_eqb key name) eqn:E; [| reflexivity].
  apply str_eqb_eq in E. subst name. reflexivity.
Qed.

(** X22: [initialize_tts_services] never raises.  It registers the
    services whose constructors were reached and did not raise; the
    default service is the configured one if that is registered, and
    otherwise the first registered one, or none. *)
Theorem initialize_tts_services_default :
  forall (V : Type) (openai_api_key : option str) (openai google : result V)
         (google_ready : bool) (default_tts_service : str),
    exists m,
      TTSManager.initialize_tts_services openai_api_key openai google_ready
        google default_tts_service TTSManager.new
      = (Ok tt, m)
      /\ TTSManager.services m
         = configured openai_api_key openai google_ready google
      /\ TTSManager.default_service m
         = if TTSManager.dict_in default_tts_service (TTSManager.services m)
           then Some default_tts_service
           else hd_error (TTSManager.get_available_services m).
Proof.
  intros V key openai google ready name.
  unfold TTSManager.initialize_tts_services, configured.
  unfold bind at 1. unfold try.
  assert (Hkeys : str_eqb (lit "openai") (lit "google") = false)
    by reflexivity.
  destruct (truthy_opt key); destruct openai as [o | eo];
    destruct ready; destruct google as [g | eg];
    unfold bind, lift, ret, TTSManager.add_service, modify;
    cbn [TTSManager.services TTSManager.default_service TTSManager.new
         TTSManager.dict_set app];
    rewrite ?Hkeys; cbv iota;
    rewrite ?set_default_service_run;
    cbn [TTSManager.services TTSManager.default_service];
    try (destruct (TTSManager.dict_in name _) eqn:E);
    eexists; (split; [reflexivity |]);
    cbn [TTSManager.services TTSManager.default_service
         TTSManager.get_available_services map fst hd_error];
    (split; [reflexivity |]);
    rewrite ?E; try reflexivity; try apply default_of_one.
Qed.

Lemma synthesize_speech_unregistered {V} (m : TTSManager.Manager V)
    (call : V -> TTSManager.TTSRequest -> result TTSServices.TTSResponse)
    (name : str) (voice : option str) (speed : Q) (txt : str) :
  truthy name = true ->
  TTSManager.dict_in name (TTSManager.services m) = false ->
  TTSManager.synthesize_speech call txt (Some name) voice speed m
  = (Raise (not_found name), m).
Proof.
  intros Hn Hout. unfold TTSManager.synthesize_speech, bind, get.
  cbn [TTSManager.py_or]. rewrite Hn.
  unfold TTSManager.dict_in in Hout.
  destruct (TTSManager.dict_get name (TTSManager.services m));
    [discriminate Hout | reflexivity].
Qed.

(** X23: with no OpenAI key but Google credentials in place, start-up
    registers the Google service alone and makes it the manager's
    default.  The synthesis call of the worker, however, names the
    configured default service, "openai", whenever the settings of the
    request have no ['tts_service']: for every text the call raises
    "Service 'openai' not found" and reaches no service.  The same
    call is answered by the Google service when the settings name
    "google", or give [null] or the empty string as the service. *)
Theorem worker_call_names_unregistered_default :
  forall (V : Type) (openai_api_key : option str) (openai : result V)
         (google : V)
         (call : V -> TTSManager.TTSRequest -> result TTSServices.TTSResponse)
         (config : AppConfig) (settings : Worker.Settings) (txt : str),
    let m :=
      snd (TTSManager.initialize_tts_services openai_api_key openai true
             (Ok google) (DEFAULT_TTS_SERVICE config) TTSManager.new) in
    truthy_opt openai_api_key = false ->
    DEFAULT_TTS_SERVICE config = lit "openai" ->
    TTSManager.get_available_services m = [lit "google"]
    /\ TTSManager.default_service m = Some (lit "google")
    /\ (Worker.tts_service settings = None ->
        Worker.synthesize call config settings txt m
        = (Raise (lit "Service 'openai' not found"), m))
    /\ (Worker.tts_service settings = Some (Some (lit "google"))
        \/ Worker.tts_service settings = Some None
        \/ Worker.tts_service settings = Some (Some []) ->
        Worker.synthesize call config settings txt m
        = (call google
             (request_of txt (Worker.voice settings)
                (Worker.speed_setting settings)), m)).
Proof.
  intros V key openai google call config settings txt m Hkey Hdef.
  assert (Hm : m = {| TTSManager.services := [(lit "google", google)];
                      TTSManager.default_service := Some (lit "google") |}).
  { unfold m, TTSManager.initialize_tts_services. rewrite Hkey, Hdef.
    reflexivity. }
  split; [rewrite Hm; reflexivity |]. split; [rewrite Hm; reflexivity |].
  split.
  - intros Hs. unfold Worker.synthesize, Worker.service_name.
    rewrite Hs, Hdef.
    apply (synthesize_speech_unregistered m call (lit "openai"));
      [reflexivity | rewrite Hm; reflexivity].
  - intros Hs. unfold Worker.synthesize, Worker.service_name.
    rewrite Hm. destruct Hs as [Hs | [Hs | Hs]]; rewrite Hs; reflexivity.
Qed.

Lemma worker_call_names_unregistered_default_witness :
  let m :=
    {| TTSManager.services := [(lit "google", 7%nat)];
       TTSManager.default_service := Some (lit "google") |} in
  let settings :=
    {| Worker.tts_service := None; Worker.voice := Some (lit "alloy");
       Worker.speed := None |} in
  TTSManager.initialize_tts_services None (Raise (lit "no key")) true (Ok 7%nat)
    (DEFAULT_TTS_SERVICE Config) TTSManager.new
  = (Ok tt, m)
  /\ Worker.synthesize
       (fun (v : nat) _ => Raise (str_of_Z (Z.of_nat v)))
       Config settings (lit "It began") m
     = (Raise (lit "Service 'openai' not found"), m).
Proof.
  intros m settings. split; [reflexivity |].
  exact (proj1 (proj2 (proj2
    (worker_call_names_unregistered_default nat None (Raise (lit "no key"))
       7%nat (fun v _ => Raise (str_of_Z (Z.of_nat v))) Config settings
       (lit "It began") eq_refl eq_refl))) eq_refl).
Defined.

(** ** Routes *)

Import Routes.

Lemma truthy_app_cons (a b : str) (c : ascii) : truthy (a ++ c :: b) = true.
Proof. destruct a; reflexivity. Qed.

(** X24: cancelling a registered job marks it cancelled whatever state it
    was in, a completed one included, and touches neither the other
    jobs nor the workers.  From then on its download is refused with
    400 "Conversion not completed", although the status route still
    reports the output file. *)
Theorem cancel_blocks_download :
  forall (s : Server) (job_id : str) (job : Job) (exists_ : str -> bool),
    active_jobs s !! job_id = Some job ->
    exists s',
      cancel_job job_id s = (Ok (Json (MessageBody (lit "Job cancelled")) 200), s')
      /\ active_jobs s' !! job_id = Some (set_status cancelled job)
      /\ (forall other, other <> job_id ->
                        active_jobs s' !! other = active_jobs s !! other)
      /\ threads s' = threads s
      /\ download_file exists_ job_id s'
         = (Ok (Json (ErrorBody (lit "Conversion not completed")) 400), s')
      /\ get_job_status job_id s'
         = (Ok (Json (StatusBody job_id cancelled (progress job)
                        (message job) (error job) (output_file job)) 200),
            s').
Proof.
  intros s job_id job exists_ H.
  unfold cancel_job, bind, get, set_jobs, modify, ret. rewrite H.
  eexists. split; [reflexivity |]. cbn [active_jobs threads].
  split; [apply lookup_insert_eq |].
  split; [intros other Hne; apply lookup_insert_ne; congruence |].
  split; [reflexivity |].
  unfold download_file, get_job_status, bind, get, ret.
  cbn [active_jobs]. rewrite lookup_insert_eq. split; reflexivity.
Qed.

Lemma cancel_blocks_download_witness :
  exists s',
    cancel_job (lit "j1")
      {| active_jobs := {[ lit "j1" := job (final calm) ]}; threads := [] |}
    = (Ok (Json (MessageBody (lit "Job cancelled")) 200), s')
    /\ download_file (fun _ => true) (lit "j1") s'
       = (Ok (Json (ErrorBody (lit "Conversion not completed")) 400), s').
Proof.
  destruct (cancel_blocks_download
              {| active_jobs := {[ lit "j1" := job (final calm) ]};
                 threads := [] |}
              (lit "j1") (job (final calm)) (fun _ => true))
    as (s' & Hrun & _ & _ & _ & Hdl & _).
  { apply lookup_singleton_eq. }
  exists s'. split; [exact Hrun | exact Hdl].
Defined.

(** X25: the download route sends a file exactly when the job is
    registered, its status is "completed", and the output file it
    records exists; it sends that file, under the name of the uploaded
    file with the extension replaced by ".mp3", and changes nothing. *)
Theorem download_needs_completed :
  forall (s s' : Server) (job_id path name : str) (exists_ : str -> bool),
    download_file exists_ job_id s = (Ok (SendFile path name), s')
    <-> exists job,
          active_jobs s !! job_id = Some job
          /\ status job = lit "completed"
          /\ output_file job = Some path
          /\ truthy path = true
          /\ exists_ path = true
          /\ name = rsplit_dot_head (filename job) ++ lit ".mp3"
          /\ s' = s.
Proof.
  intros s s' job_id path name exists_.
  unfold download_file, bind, get, ret. split.
  - destruct (active_jobs s !! job_id) as [job |] eqn:Hj; [| discriminate].
    destruct (str_eqb (status job) (lit "completed")) eqn:Hst;
      cbn [negb]; [| discriminate].
    destruct (output_file job) as [out |] eqn:Hout; [| discriminate].
    destruct (truthy out) eqn:Ht; cbn [andb]; [| discriminate].
    destruct (exists_ out) eqn:Hex; [| discriminate].
    intros H. inversion H; subst. exists job.
    apply str_eqb_eq in Hst. repeat split; assumption.
  - intros (job & Hj & Hst & Hout & Ht & Hex & Hname & Hs). subst s' name.
    rewrite Hj, Hst, Hout, Ht, Hex. reflexivity.
Qed.

Lemma download_needs_completed_witness :
  download_file (fun _ => true) (lit "j1")
    {| active_jobs := {[ lit "j1" := job (final calm) ]}; threads := [] |}
  = (Ok (SendFile (lit "output/j1_book.mp3") (lit "book.mp3")),
     {| active_jobs := {[ lit "j1" := job (final calm) ]}; threads := [] |}).
Proof.
  apply (proj2 (download_needs_completed _ _ (lit "j1") _ _ (fun _ => true))).
  exists (job (final calm)).
  split; [apply lookup_singleton_eq |]. vm_compute. repeat split.
Defined.

Lemma download_found (s : Server) (id path : str) (job : Job)
    (exists_ : str -> bool) :
  active_jobs s !! id = Some job ->
  status job = lit "completed" ->
  output_file job = Some path ->
  truthy path = true -> exists_ path = true ->
  download_file exists_ id s
  = (Ok (SendFile path (rsplit_dot_head (filename job) ++ lit ".mp3")), s).
Proof.
  intros Hj Hst Hout Ht Hex. unfold download_file, bind, get, ret.
  rewrite Hj, Hst, Hout, Ht, Hex. reflexivity.
Qed.

(** X26: a job the worker left completed can be downloaded as long as its
    output file is on disk and the job is still registered as the
    worker left it: the route sends the file the worker recorded,
    OUTPUT_FOLDER/<job id>_<stem>.mp3, under the name <stem>.mp3, where
    <stem> is the uploaded file's name up to its last dot. *)
Theorem completed_job_is_downloadable :
  forall (env : Env) (config : AppConfig) (w w' : World) (s : Server)
         (id : str) (exists_ : str -> bool),
    process_conversion env config w = (Ok tt, w') ->
    status (job w') = lit "completed" ->
    active_jobs s !! id = Some (job w') ->
    exists_ (output_path config (job w)) = true ->
    download_file exists_ id s
    = (Ok (SendFile (output_path config (job w))
             (rsplit_dot_head (filename (job w)) ++ lit ".mp3")), s).
Proof.
  intros env config w w' s id exists_ Hrun Hst Hreg Hex.
  destruct (conversion_while_outcome env config 3 0 w) as (v & Hv & Hout);
    [reflexivity | lia |].
  pose proof (keeps_conversion_while env config 3 0 w) as Hk.
  unfold process_conversion in Hrun.
  change (Z.to_nat max_retries) with 3%nat in Hrun.
  rewrite Hrun in Hv, Hk. inversion Hv; subst v. cbn [snd] in Hk.
  destruct Hk as (Hid & Hfn & _).
  assert (Hdone : completed config w').
  { destruct Hout as [H | [H | H]]; [exact H | |].
    - destruct H as [H _]. rewrite Hst in H. discriminate H.
    - unfold was_cancelled in H. rewrite Hst in H. discriminate H. }
  destruct Hdone as (_ & _ & Hfile & _).
  assert (Hpath : output_path config (job w') = output_path config (job w)).
  { unfold output_path, output_filename. rewrite Hid, Hfn. reflexivity. }
  rewrite Hpath in Hfile.
  rewrite <- Hfn.
  apply download_found; try assumption.
  unfold output_path. apply truthy_app_cons.
Qed.

Lemma completed_job_is_downloadable_witness :
  download_file (fun _ => true) (lit "j1")
    {| active_jobs := {[ lit "j1" := job (final third_time_lucky) ]};
       threads := [lit "j1"] |}
  = (Ok (SendFile (lit "output/j1_book.mp3") (lit "book.mp3")),
     {| active_jobs := {[ lit "j1" := job (final third_time_lucky) ]};
        threads := [lit "j1"] |}).
Proof.
  apply (completed_job_is_downloadable third_time_lucky Config
           (start book_job) (final third_time_lucky)).
  - vm_compute. reflexivity.
  - vm_compute. reflexivity.
  - apply lookup_singleton_eq.
  - reflexivity.
Defined.

Lemma endswith_truthy (name suffix : str) :
  truthy suffix = true -> endswith (lower name) suffix = true ->
  truthy name = true.
Proof.
  intros Hs H. destruct name as [| c name]; [| reflexivity].
  unfold endswith in H. cbn in H.
  destruct (rev suffix) as [| x r] eqn:E; [| discriminate H].
  destruct suffix as [| y suffix]; [discriminate Hs |].
  cbn in E. destruct (rev suffix); discriminate E.
Qed.

(** X27: an upload whose file name ends in ".pdf", in any letter case, is
    registered under the fresh id; when the conversion of that id is
    then requested, the job handed to the worker is [new_job] of the
    id, the secured file name and the upload path, one worker is
    started for it, and no other job is touched.  A file name that
    does not end in ".pdf" is refused with a 400, and nothing is
    registered. *)
Theorem upload_then_convert_hands_over :
  forall (s : Server) (upload_folder name id : str)
         (secure_filename : str -> str),
    (endswith (lower name) (lit ".pdf") = true ->
     exists s1 s2,
       upload_file upload_folder (Some name) id secure_filename None s
       = (Ok (Json (UploadBody id (secure_filename name)) 200), s1)
       /\ start_conversion (Some id) s1
          = (Ok (Json (StartedBody (lit "Conversion started") id) 200), s2)
       /\ active_jobs s2 !! id
          = Some (new_job id (secure_filename name)
                    (upload_folder ++ lit "/" ++ id ++ lit "_"
                       ++ secure_filename name))
       /\ threads s2 = threads s ++ [id]
       /\ (forall other, other <> id ->
                         active_jobs s2 !! other = active_jobs s !! other))
    /\ (endswith (lower name) (lit ".pdf") = false ->
        exists e,
          upload_file upload_folder (Some name) id secure_filename None s
          = (Ok (Json (ErrorBody e) 400), s)).
Proof.
  intros s upload_folder name id secure_filename. split.
  - intros Hpdf.
    pose proof (endswith_truthy name (lit ".pdf") eq_refl Hpdf) as Hname.
    unfold upload_file. rewrite Hname, Hpdf. cbn [negb].
    unfold bind, set_jobs, modify, ret. eexists. eexists.
    split; [reflexivity |].
    unfold start_conversion, bind, get, set_jobs, modify, ret.
    cbn [active_jobs threads]. rewrite lookup_insert_eq. cbn [option_map].
    split; [reflexivity |]. cbn [active_jobs threads].
    split; [rewrite lookup_insert_eq; reflexivity |].
    split; [reflexivity |].
    intros other Hne. rewrite !lookup_insert_ne by congruence. reflexivity.
  - intros Hpdf. unfold upload_file. rewrite Hpdf. cbn [negb].
    destruct (truthy name); cbn [negb]; eexists; reflexivity.
Qed.

Lemma upload_then_convert_hands_over_witness :
  exists s1 s2,
    upload_file (lit "uploads") (Some (lit "Book.PDF")) (lit "j1")
      (fun n => n) None {| active_jobs := ∅; threads := [] |}
    = (Ok (Json (UploadBody (lit "j1") (lit "Book.PDF")) 200), s1)
    /\ start_conversion (Some (lit "j1")) s1
       = (Ok (Json (StartedBody (lit "Conversion started") (lit "j1")) 200),
          s2)
    /\ threads s2 = [lit "j1"].
Proof.
  destruct (upload_then_convert_hands_over
              {| active_jobs := ∅; threads := [] |} (lit "uploads")
              (lit "Book.PDF") (lit "j1") (fun n => n)) as [H _].
  destruct (H eq_refl) as (s1 & s2 & H1 & H2 & _ & H3 & _).
  exists s1, s2. split; [exact H1 |]. split; [exact H2 | exact H3].
Defined.

(** ** The regular expressions of the cleaning functions *)

Import Regex Cleaning.

Lemma matches_star (greedy : bool) (cls : ascii -> bool) (atoms : list atom)
    (s : str) :
  matches (Star greedy cls :: atoms) s = star_of greedy cls (matches atoms) s.
Proof.
  induction s as [| c s IH]; [reflexivity |].
  cbn [star_of]. rewrite <- IH. reflexivity.
Qed.

Lemma star_suffix (greedy : bool) (cls : ascii -> bool)
    (k : str -> option str) :
  (forall s r, k s = Some r -> exists m, s = m ++ r) ->
  forall s r, star_of greedy cls k s = Some r -> exists m, s = m ++ r.
Proof.
  intros Hk. induction s as [| c s IH]; intros r H; cbn [star_of] in H.
  - destruct greedy; destruct (k []) eqn:E; try discriminate H;
      inversion H; subst; eapply Hk; exact E.
  - assert (Hmore : forall r',
               (if cls c then star_of greedy cls k s else None) = Some r' ->
               exists m, c :: s = m ++ r').
    { intros r' H'. destruct (cls c); [| discriminate H'].
      destruct (IH r' H') as (m & ->). exists (c :: m). reflexivity. }
    destruct greedy.
    + destruct (if cls c then star_of true cls k s else None) as [r' |] eqn:E.
      * inversion H; subst. apply Hmore. reflexivity.
      * eapply Hk. exact H.
    + destruct (k (c :: s)) as [r' |] eqn:E.
      * inversion H; subst. eapply Hk. exact E.
      * apply Hmore. exact H.
Qed.

Lemma matches_suffix (atoms : list atom) :
  forall s r, matches atoms s = Some r -> exists m, s = m ++ r.
Proof.
  induction atoms as [| a atoms IH]; intros s r H.
  - cbn in H. inversion H. exists []. reflexivity.
  - destruct a as [cls | greedy cls].
    + cbn [matches] in H. destruct s as [| c s]; [discriminate H |].
      destruct (cls c); [| discriminate H].
      destruct (IH s r H) as (m & ->). exists (c :: m). reflexivity.
    + rewrite matches_star in H. eapply star_suffix; eassumption.
Qed.

Lemma matches_one_none (cls : ascii -> bool) (atoms : list atom) (c : ascii)
    (s : str) :
  cls c = false -> matches (One cls :: atoms) (c :: s) = None.
Proof. intros H. cbn [matches]. rewrite H. reflexivity. Qed.

Lemma sub_go_skip (atoms : list atom) (repl : str -> str) (s : str) :
  forall k : nat,
    sub_go atoms repl k s = sub_go atoms repl 0 (skipn k s).
Proof.
  induction s as [| c s IH]; intros [| k]; try reflexivity.
  cbn [sub_go skipn]. apply IH.
Qed.

(** The scan at a match: the replacement, then the scan of what is
    left. *)
Lemma sub_match (atoms : list atom) (repl : str -> str) (m r : str)
    (c : ascii) :
  matches atoms (c :: m ++ r) = Some r ->
  sub atoms repl (c :: m ++ r) = repl (c :: m) ++ sub atoms repl r.
Proof.
  intros H. unfold sub. cbn [sub_go]. rewrite H.
  replace (length (c :: m ++ r) - length r)%nat with (S (length m))
    by (cbn [length]; rewrite length_app; lia).
  cbn [firstn]. rewrite firstn_app, firstn_all, Nat.sub_diag. cbn [firstn].
  rewrite app_nil_r. f_equal.
  rewrite sub_go_skip. replace (S (length m) - 1)%nat with (length m) by lia.
  rewrite skipn_app, skipn_all, Nat.sub_diag. reflexivity.
Qed.

Lemma sub_no_match (atoms : list atom) (repl : str -> str) (c : ascii)
    (s : str) :
  matches atoms (c :: s) = None ->
  sub atoms repl (c :: s) = c :: sub atoms repl s.
Proof. intros H. unfold sub. cbn [sub_go]. rewrite H. reflexivity. Qed.

(** A match of a pattern that starts with a single character is a
    proper suffix away. *)
Lemma matches_one_split (cls : ascii -> bool) (atoms : list atom) (c : ascii)
    (s r : str) :
  matches (One cls :: atoms) (c :: s) = Some r ->
  exists m, s = m ++ r.
Proof.
  intros H. cbn [matches] in H. destruct (cls c); [| discriminate H].
  eapply matches_suffix. exact H.
Qed.

(** A pattern whose first character occurs nowhere changes nothing. *)
Lemma sub_absent (cls : ascii -> bool) (atoms : list atom)
    (repl : str -> str) (s : str) :
  Forall (fun c => cls c = false) s ->
  sub (One cls :: atoms) repl s = s.
Proof.
  induction 1 as [| c s Hc _ IH]; [reflexivity |].
  rewrite sub_no_match by (apply matches_one_none; exact Hc).
  rewrite IH. reflexivity.
Qed.

Lemma length_induction (P : str -> Prop) :
  (forall s, (forall t, (length t < length s)%nat -> P t) -> P s) ->
  forall s, P s.
Proof.
  intros H s.
  assert (Hn : forall n t, (length t < n)%nat -> P t).
  { induction n as [| n IH]; intros t Ht; [lia |].
    apply H. intros u Hu. apply IH. lia. }
  apply (Hn (S (length s))). lia.
Qed.

(** A substitution that replaces every match by a part of it leaves
    a part of the text. *)
Lemma sub_sublist (cls : ascii -> bool) (atoms : list atom)
    (repl : str -> str) :
  (forall m, repl m `sublist_of` m) ->
  forall s, sub (One cls :: atoms) repl s `sublist_of` s.
Proof.
  intros Hrepl. apply length_induction. intros [| c s] IH; [constructor |].
  destruct (matches (One cls :: atoms) (c :: s)) as [r |] eqn:E.
  - destruct (matches_one_split _ _ _ _ _ E) as (m & ->).
    rewrite (sub_match _ _ _ _ _ E).
    change (c :: m ++ r) with ((c :: m) ++ r).
    apply sublist_app; [apply Hrepl |].
    apply IH. cbn [length]. rewrite length_app. lia.
  - rewrite (sub_no_match _ _ _ _ E). apply sublist_skip.
    apply IH. cbn [length]. lia.
Qed.

Lemma sublist_forall (P : ascii -> Prop) (a b : str) :
  a `sublist_of` b -> Forall P b -> Forall P a.
Proof.
  induction 1 as [| x a b _ IH | x a b _ IH]; intros H.
  - constructor.
  - constructor; [exact (Forall_inv H) | exact (IH (Forall_inv_tail H))].
  - exact (IH (Forall_inv_tail H)).
Qed.

Lemma sublist_in (x : ascii) (a b : str) :
  a `sublist_of` b -> In x a -> In x b.
Proof.
  induction 1 as [| y a b _ IH | y a b _ IH]; intros H.
  - exact H.
  - destruct H as [H | H]; [left; exact H | right; exact (IH H)].
  - right. exact (IH H).
Qed.

(** ** Whitespace collapsing *)

Lemma star_greedy_all (cls : ascii -> bool) (s : str) :
  star_of true cls Some s = Some (skip_while cls s).
Proof.
  induction s as [| c s IH]; [reflexivity |].
  cbn [star_of skip_while]. destruct (cls c); [rewrite IH |]; reflexivity.
Qed.

Lemma skip_while_suffix (cls : ascii -> bool) (s : str) :
  exists m, s = m ++ skip_while cls s.
Proof.
  induction s as [| c s (m & IH)]; [exists []; reflexivity |].
  cbn [skip_while]. destruct (cls c).
  - exists (c :: m). cbn. rewrite <- IH. reflexivity.
  - exists []. reflexivity.
Qed.

Lemma matches_whitespace_run (c : ascii) (s : str) :
  matches whitespace_run (c :: s)
  = if isspace c then Some (skip_while isspace s) else None.
Proof.
  unfold whitespace_run, plus.
  change (matches [One isspace; Star true isspace] (c :: s))
    with (if isspace c then matches [Star true isspace] s else None).
  destruct (isspace c); [| reflexivity].
  rewrite matches_star. apply star_greedy_all.
Qed.

Lemma collapsed_cons (c : ascii) (s : str) :
  collapsed (c :: s)
  = if isspace c then " "%char :: collapsed (skip_while isspace s)
    else c :: collapsed s.
Proof.
  unfold collapsed. pose proof (matches_whitespace_run c s) as H.
  destruct (isspace c).
  - destruct (skip_while_suffix isspace s) as (m & Hm).
    rewrite Hm in H at 1. rewrite Hm at 1.
    rewrite (sub_match _ _ _ _ _ H). reflexivity.
  - apply sub_no_match. exact H.
Qed.

(** The same, by the next character. *)
Lemma collapsed_space (c : ascii) (s : str) :
  isspace c = true ->
  collapsed (c :: s)
  = match s with
    | [] => [" "%char]
    | d :: _ => if isspace d then collapsed s else " "%char :: collapsed s
    end.
Proof.
  intros Hc. rewrite collapsed_cons, Hc. destruct s as [| d r]; [reflexivity |].
  cbn [skip_while]. destruct (isspace d) eqn:Hd; [| reflexivity].
  rewrite collapsed_cons, Hd. reflexivity.
Qed.

Lemma fields_aux_space_head (c : ascii) (s : str) :
  isspace c = true -> fst (fields_aux isspace (c :: s)) = [].
Proof. intros H. rewrite fields_aux_cons, H. reflexivity. Qed.

(** The collapsed text, by the words of the text. *)
Lemma collapsed_fields (s : str) :
  collapsed s
  = fst (fields_aux isspace s) ++ spaced (snd (fields_aux isspace s))
    ++ (if ends_in_space s then [" "%char] else []).
Proof.
  induction s as [| c s IH]; [reflexivity |].
  destruct (isspace c) eqn:Hc.
  - rewrite (collapsed_space c s Hc), fields_aux_cons, Hc. cbn [fst snd app].
    destruct s as [| d r]; [cbn; rewrite Hc; reflexivity |].
    change (ends_in_space (c :: d :: r)) with (ends_in_space (d :: r)).
    rewrite fields_as_aux. destruct (isspace d) eqn:Hd.
    + rewrite IH, (fields_aux_space_head d r Hd). reflexivity.
    + rewrite IH. rewrite fields_aux_cons, Hd. cbn [fst snd cons_run].
      unfold spaced. cbn [map concat]. rewrite <- !app_assoc. reflexivity.
  - rewrite collapsed_cons, Hc, IH, fields_aux_cons, Hc. cbn [fst snd].
    destruct s as [| d r]; [cbn; rewrite Hc; reflexivity |]. reflexivity.
Qed.

Lemma join_spaced (w : str) (ws : list str) :
  join (lit " ") (w :: ws) = w ++ spaced ws.
Proof.
  revert w. induction ws as [| v ws IH]; intros w.
  - cbn. rewrite app_nil_r. reflexivity.
  - change (join (lit " ") (w :: v :: ws))
      with (w ++ lit " " ++ join (lit " ") (v :: ws)).
    rewrite IH. reflexivity.
Qed.

Lemma trimmed_words_join (w : str) (ws : list str) :
  Forall trimmed (w :: ws) -> trimmed (join (lit " ") (w :: ws)).
Proof.
  revert w. induction ws as [| v ws IH]; intros w H.
  - exact (Forall_inv H).
  - change (join (lit " ") (w :: v :: ws))
      with (w ++ lit " " ++ join (lit " ") (v :: ws)).
    apply trimmed_join; [exact (Forall_inv H) |].
    apply IH. exact (Forall_inv_tail H).
Qed.

Lemma rstrip_blank_tail (s t : str) :
  Forall (fun c => isspace c = true) t -> rstrip (s ++ t) = rstrip s.
Proof.
  intros Ht. induction s as [| c s IH].
  - cbn [app rstrip]. induction Ht as [| d t Hd _ IHt]; [reflexivity |].
    cbn [rstrip]. rewrite IHt, Hd. reflexivity.
  - cbn [app rstrip]. rewrite IH. reflexivity.
Qed.

Lemma strip_around (lead s trail : str) :
  Forall (fun c => isspace c = true) lead ->
  Forall (fun c => isspace c = true) trail ->
  trimmed s ->
  strip (lead ++ s ++ trail) = s.
Proof.
  intros Hl Ht Hs. unfold strip.
  assert (E : lstrip (lead ++ s ++ trail) = s ++ trail).
  { induction Hl as [| c lead Hc _ IH]; cbn [app lstrip].
    - destruct Hs as [(c & rest & -> & Hc) _]. cbn [app lstrip].
      rewrite Hc. reflexivity.
    - rewrite Hc. exact IH. }
  rewrite E, rstrip_blank_tail by exact Ht.
  destruct Hs as [_ (front & d & -> & Hd)].
  apply rstrip_snoc_nonspace. exact Hd.
Qed.

Lemma strip_collapsed (s : str) : strip (collapsed s) = normalize_ws s.
Proof.
  rewrite collapsed_fields. unfold normalize_ws, split.
  pose proof (split_words_trimmed s) as Hw. unfold split in Hw.
  rewrite fields_as_aux in *.
  assert (Htrail : Forall (fun c => isspace c = true)
                     (if ends_in_space s then [" "%char] else []))
    by (destruct (ends_in_space s); repeat constructor).
  destruct (fst (fields_aux isspace s)) as [| x w].
  - cbn [cons_run app] in *.
    destruct (snd (fields_aux isspace s)) as [| v vs].
    + cbn. apply strip_blank. exact Htrail.
    + change (spaced (v :: vs)) with ([" "%char] ++ (v ++ spaced vs)).
      rewrite <- (join_spaced v vs), <- app_assoc.
      apply strip_around; [repeat constructor | exact Htrail |].
      apply trimmed_words_join. exact Hw.
  - cbn [cons_run] in *.
    rewrite app_assoc, <- (join_spaced (x :: w)).
    apply (strip_around []); [constructor | exact Htrail |].
    apply trimmed_words_join. exact Hw.
Qed.

Lemma spaced_plain (ws : list str) :
  Forall (fun w => w <> [] /\ Forall (fun c => isspace c = false) w) ws ->
  plain_spaces (spaced ws).
Proof.
  induction 1 as [| w ws [_ Hw] _ IH]; [constructor |].
  unfold spaced. cbn [map concat]. constructor; [reflexivity |].
  apply List.Forall_app. split; [| exact IH].
  eapply List.Forall_impl; [| exact Hw]. intros c Hc Hs. congruence.
Qed.

Lemma collapsed_plain (s : str) : plain_spaces (collapsed s).
Proof.
  rewrite collapsed_fields. destruct (fields_aux_runs isspace s) as [Hw Hws].
  unfold plain_spaces. apply List.Forall_app. split.
  - eapply List.Forall_impl; [| exact Hw]. intros c Hc Hs. congruence.
  - apply List.Forall_app. split; [apply spaced_plain; exact Hws |].
    destruct (ends_in_space s); repeat constructor.
Qed.

Lemma collapsed_length (s : str) : (length (collapsed s) <= length s)%nat.
Proof.
  induction s as [| c s IH]; [cbn; lia |].
  destruct (isspace c) eqn:Hc.
  - rewrite (collapsed_space c s Hc). destruct s as [| d r]; [cbn; lia |].
    destruct (isspace d); cbn [length] in *; lia.
  - rewrite collapsed_cons, Hc. cbn [length]. lia.
Qed.

Lemma plain_no_newline (s : str) :
  plain_spaces s -> Forall (fun c => is_char newline c = false) s.
Proof.
  intros H. eapply List.Forall_impl; [| exact H]. intros c Hc.
  unfold is_char. destruct (Ascii.eqb c newline) eqn:E; [| reflexivity].
  apply Ascii.eqb_eq in E. subst c. specialize (Hc eq_refl). discriminate Hc.
Qed.

Lemma split_on_absent (sep : ascii) (s : str) :
  Forall (fun c => is_char sep c = false) s -> split_on sep s = [s].
Proof.
  induction 1 as [| c s Hc _ IH]; [reflexivity |].
  cbn [split_on]. unfold is_char in Hc. rewrite Hc, IH. reflexivity.
Qed.

(** The page-number pattern needs a newline, and none is left once
    the whitespace is collapsed: the second substitution of both
    cleaning functions never changes anything. *)
Lemma page_number_line_dead (s : str) :
  sub page_number_line (fun _ => [newline]) (collapsed s) = collapsed s.
Proof.
  apply sub_absent. apply plain_no_newline. apply collapsed_plain.
Qed.

(** X28: [clean_text] returns the words of the text joined by single
    spaces, all on one line, or nothing when that line has three
    characters or fewer; its page-number removal never applies. *)
Theorem clean_text_normalizes :
  forall text : str,
    clean_text text
    = if len (normalize_ws text) >? 3 then normalize_ws text else [].
Proof.
  intros text. unfold clean_text. fold (collapsed text).
  rewrite page_number_line_dead.
  rewrite split_on_absent
    by (apply plain_no_newline; apply collapsed_plain).
  cbn [map List.filter]. rewrite strip_collapsed.
  destruct (len (normalize_ws text) >? 3); reflexivity.
Qed.

(** ** Section cleaning *)

Lemma star_lazy_close (s : str) :
  Forall (fun c => dot c = true) s ->
  star_of false dot (matches [One (is_char "]")]) s = after_close s.
Proof.
  induction 1 as [| c s Hc _ IH]; [reflexivity |].
  cbn [star_of after_close]. rewrite Hc, IH. cbn [matches].
  destruct (is_char "]" c); reflexivity.
Qed.

Lemma matches_bracketed (c : ascii) (s : str) :
  Forall (fun c => dot c = true) s ->
  matches bracketed (c :: s)
  = if is_char "[" c then after_close s else None.
Proof.
  intros Hs. unfold bracketed.
  change (matches [One (is_char "["); Star false dot; One (is_char "]")]
            (c :: s))
    with (if is_char "[" c
          then matches [Star false dot; One (is_char "]")] s else None).
  destruct (is_char "[" c); [| reflexivity].
  rewrite matches_star. apply star_lazy_close. exact Hs.
Qed.

Lemma after_close_some (s r : str) :
  after_close s = Some r -> exists m, s = (m ++ ["]"%char]) ++ r.
Proof.
  revert r. induction s as [| c s IH]; intros r H; [discriminate H |].
  cbn [after_close] in H. destruct (is_char "]" c) eqn:E.
  - inversion H; subst. unfold is_char in E. apply Ascii.eqb_eq in E.
    subst c. exists []. reflexivity.
  - destruct (IH r H) as (m & ->). exists (c :: m). reflexivity.
Qed.

Lemma after_close_none (s : str) :
  after_close s = None -> ~ In "]"%char s.
Proof.
  induction s as [| c s IH]; intros H; [intros [] |].
  cbn [after_close] in H. destruct (is_char "]" c) eqn:E; [discriminate H |].
  intros [Hc | Hin]; [| exact (IH H Hin)].
  subst c. discriminate E.
Qed.

Lemma sub_bracketed_no_pair (s : str) :
  Forall (fun c => dot c = true) s ->
  no_bracket_pair (sub bracketed (fun _ => []) s).
Proof.
  pattern s. apply length_induction. clear s. intros [| c s] IH Hs;
    [exact I |].
  pose proof (Forall_inv_tail Hs) as Hs'.
  pose proof (matches_bracketed c s Hs') as Hm.
  destruct (is_char "[" c) eqn:Hc.
  - destruct (after_close s) as [r |] eqn:Hr.
    + destruct (after_close_some s r Hr) as (m & E).
      rewrite E in Hm, Hs' |- *.
      rewrite (sub_match _ _ _ _ _ Hm). cbn [app].
      apply IH.
      * cbn [length]. rewrite E, !length_app. cbn [length]. lia.
      * apply List.Forall_app in Hs'. exact (proj2 Hs').
    + rewrite (sub_no_match _ _ _ _ Hm). cbn [no_bracket_pair]. split.
      * intros _ Hin. apply (after_close_none s Hr).
        eapply sublist_in; [| exact Hin].
        apply (sub_sublist (is_char "[")). intros m. apply sublist_nil_l.
      * apply IH; [cbn [length]; lia | exact Hs'].
  - rewrite (sub_no_match _ _ _ _ Hm). cbn [no_bracket_pair]. split.
    + intros E. subst c. discriminate Hc.
    + apply IH; [cbn [length]; lia | exact Hs'].
Qed.

Lemma sublist_no_pair (a b : str) :
  a `sublist_of` b -> no_bracket_pair b -> no_bracket_pair a.
Proof.
  induction 1 as [| x a b Hab IH | x a b Hab IH]; intros H.
  - exact I.
  - destruct H as [Hx Hb]. split; [| exact (IH Hb)].
    intros E Hin. apply (Hx E). eapply sublist_in; eassumption.
  - destruct H as [_ Hb]. exact (IH Hb).
Qed.

Lemma lstrip_sublist (s : str) : lstrip s `sublist_of` s.
Proof.
  induction s as [| c s IH]; [constructor |]. cbn [lstrip].
  destruct (isspace c); [apply sublist_cons; exact IH | reflexivity].
Qed.

Lemma rstrip_sublist (s : str) : rstrip s `sublist_of` s.
Proof.
  induction s as [| c s IH]; [constructor |]. cbn [rstrip].
  destruct (rstrip s) as [| y r].
  - destruct (isspace c); [apply sublist_nil_l |].
    apply sublist_skip, sublist_nil_l.
  - apply sublist_skip. exact IH.
Qed.

Lemma strip_sublist (s : str) : strip s `sublist_of` s.
Proof.
  unfold strip. etransitivity; [apply rstrip_sublist | apply lstrip_sublist].
Qed.

Lemma strip_strip (s : str) : strip (strip s) = strip s.
Proof.
  destruct (strip_result s) as [E | H]; [rewrite E; reflexivity |].
  apply strip_trimmed. exact H.
Qed.

Lemma plain_dots (s : str) :
  plain_spaces s -> Forall (fun c => dot c = true) s.
Proof.
  intros H. eapply List.Forall_impl; [| apply plain_no_newline; exact H].
  intros c Hc. unfold dot. unfold is_char in Hc. rewrite Hc. reflexivity.
Qed.

Lemma clean_section_content_parts (content : str) :
  clean_section_content content
  `sublist_of` sub bracketed (fun _ => []) (collapsed content).
Proof.
  unfold clean_section_content. fold (collapsed content).
  rewrite page_number_line_dead.
  etransitivity; [apply strip_sublist |].
  etransitivity.
  { apply (sub_sublist is_terminator). intros m. apply sublist_take. }
  apply (sub_sublist (is_char "(")). intros m. apply sublist_nil_l.
Qed.

(** X29: [_clean_section_content], which [filter_sections] applies to
    every section it keeps, only deletes characters once the
    whitespace is collapsed, and never adds any.  In its result the
    only whitespace is the single space, there is none at either end,
    no opening bracket is followed by a closing one, and the text is
    not longer than the input. *)
Theorem clean_section_content_clean :
  forall content : str,
    clean_section_content content `sublist_of` collapsed content
    /\ plain_spaces (clean_section_content content)
    /\ strip (clean_section_content content) = clean_section_content content
    /\ no_bracket_pair (clean_section_content content)
    /\ len (clean_section_content content) <= len content.
Proof.
  intros content.
  pose proof (clean_section_content_parts content) as Hparts.
  assert (Hsub : clean_section_content content `sublist_of` collapsed content).
  { etransitivity; [exact Hparts |].
    apply (sub_sublist (is_char "[")). intros m. apply sublist_nil_l. }
  split; [exact Hsub |]. split; [| split; [| split]].
  - eapply sublist_forall; [exact Hsub | apply collapsed_plain].
  - unfold clean_section_content. apply strip_strip.
  - eapply sublist_no_pair; [exact Hparts |].
    apply sub_bracketed_no_pair, plain_dots, collapsed_plain.
  - unfold len. apply Nat2Z.inj_le.
    etransitivity; [apply sublist_length; exact Hsub |].
    apply collapsed_length.
Qed.
